(** * TrendRadar news_search: discovery-to-processing pipeline

    A shallow embedding of [news_search/url_normalizer.py],
    [news_search/database.py], [news_search/search_module.py] and
    [news_search/processor_worker.py], and the properties of the
    pipeline proved (or refuted) over it.

    Conventions.
    - A Python [str] is a [string]: a sequence of bytes holding the UTF-8
      form of the text.  Case mapping and whitespace are the ASCII ones,
      so the embedding follows Python on text whose scheme and host are
      ASCII (for other hosts [urlsplit] runs an NFKC check that is not
      modelled).
    - The functions of [urllib.parse], [ipaddress] and [hashlib] that the
      repository calls are transcribed from CPython 3.11.
    - An exception is a value: a function that may raise returns
      [option] (pure code) or runs in the monad [M] (stateful code).
    - The database is a record of tables; each method of [Database] is
      one transaction, which commits or fails as a whole.
    - The workers of the thread pool run one after the other, in the order
      of submission; the statistics do not depend on the order in which
      they complete. *)

From stdpp Require Import base option list strings gmap.
From Stdlib Require Import ZArith NArith Ascii String List Lia Permutation.
Import ListNotations.

Local Open Scope string_scope.

(** ** Python string primitives *)

Module Py.

Definition ord (c : ascii) : N := N_of_ascii c.

Definition between (lo hi : N) (c : ascii) : bool :=
  ((lo <=? ord c) && (ord c <=? hi))%N.

Definition isupper (c : ascii) : bool := between 65 90 c.
Definition islower (c : ascii) : bool := between 97 122 c.
Definition isalpha (c : ascii) : bool := isupper c || islower c.
Definition isdigit (c : ascii) : bool := between 48 57 c.
Definition isascii (c : ascii) : bool := (ord c <? 128)%N.

(** [str.isspace] on ASCII: TAB..CR, FS..US and the space. *)
Definition isspace (c : ascii) : bool :=
  between 9 13 c || between 28 32 c.

Definition lower_char (c : ascii) : ascii :=
  if isupper c then ascii_of_N (ord c + 32) else c.

(** [s.lower()] *)
Fixpoint lower (s : string) : string :=
  match s with
  | "" => ""
  | String c r => String (lower_char c) (lower r)
  end.

Definition truthy (s : string) : bool :=
  match s with "" => false | _ => true end.

(** [c in chars] *)
Fixpoint mem (c : ascii) (chars : string) : bool :=
  match chars with
  | "" => false
  | String d r => Ascii.eqb c d || mem c r
  end.

(** [s.lstrip(chars)], the set of characters given as a predicate *)
Fixpoint lstrip (p : ascii -> bool) (s : string) : string :=
  match s with
  | "" => ""
  | String c r => if p c then lstrip p r else s
  end.

(** [s.rstrip(chars)] *)
Fixpoint rstrip (p : ascii -> bool) (s : string) : string :=
  match s with
  | "" => ""
  | String c r =>
      match rstrip p r with
      | "" => if p c then "" else String c ""
      | r' => String c r'
      end
  end.

(** [s.strip()] *)
Definition strip (s : string) : string := rstrip isspace (lstrip isspace s).

(** [s.startswith(p)] *)
Fixpoint startswith (p s : string) : bool :=
  match p, s with
  | "", _ => true
  | String a p', String b s' => Ascii.eqb a b && startswith p' s'
  | _, "" => false
  end.

(** [s[n:]] *)
Fixpoint drop (n : nat) (s : string) : string :=
  match n, s with
  | O, _ => s
  | S n', String _ r => drop n' r
  | S _, "" => ""
  end.

(** [s[:n]] *)
Fixpoint take (n : nat) (s : string) : string :=
  match n, s with
  | O, _ => ""
  | S n', String c r => String c (take n' r)
  | S _, "" => ""
  end.

(** [s.find(c)]: [None] stands for -1 *)
Fixpoint find (c : ascii) (s : string) : option nat :=
  match s with
  | "" => None
  | String d r => if Ascii.eqb c d then Some O else S <$> find c r
  end.

(** [s.find(c, start)] *)
Definition find_from (c : ascii) (start : nat) (s : string) : option nat :=
  (fun i => start + i)%nat <$> find c (drop start s).

(** [s.rfind(c)] *)
Fixpoint rfind (c : ascii) (s : string) : option nat :=
  match s with
  | "" => None
  | String d r =>
      match rfind c r with
      | Some i => Some (S i)
      | None => if Ascii.eqb c d then Some O else None
      end
  end.

(** [s.partition(c)] as [(head, found, tail)] *)
Definition partition (c : ascii) (s : string) : string * bool * string :=
  match find c s with
  | Some i => (take i s, true, drop (S i) s)
  | None => (s, false, "")
  end.

(** [s.rpartition(c)[2]] *)
Definition rpartition_tail (c : ascii) (s : string) : string :=
  match rfind c s with
  | Some i => drop (S i) s
  | None => s
  end.

(** [s.split(c)] for a one-character separator *)
Fixpoint split (c : ascii) (s : string) : list string :=
  match s with
  | "" => [""]
  | String d r =>
      if Ascii.eqb c d then "" :: split c r
      else match split c r with
           | h :: t => String d h :: t
           | [] => [String d ""]
           end
  end.

(** [sep.join(l)] *)
Fixpoint join (sep : string) (l : list string) : string :=
  match l with
  | [] => ""
  | [x] => x
  | x :: r => x ++ sep ++ join sep r
  end.

(** [s.replace(old, new)]: non-overlapping occurrences, left to right.
    [skip] counts the characters of a matched [old] still to pass. *)
Fixpoint replace_from (old new : string) (skip : nat) (s : string) : string :=
  match s with
  | "" => ""
  | String c r =>
      match skip with
      | S k => replace_from old new k r
      | O =>
          if startswith old s
          then new ++ replace_from old new (String.length old - 1) r
          else String c (replace_from old new O r)
      end
  end.

(** [old] is not empty at every use below. *)
Definition replace (old new s : string) : string := replace_from old new O s.

(** [s.replace(c, "")] *)
Fixpoint remove_char (c : ascii) (s : string) : string :=
  match s with
  | "" => ""
  | String d r => if Ascii.eqb c d then remove_char c r else String d (remove_char c r)
  end.

Fixpoint all_chars (p : ascii -> bool) (s : string) : bool :=
  match s with
  | "" => true
  | String c r => p c && all_chars p r
  end.

Definition in_list (s : string) (l : list string) : bool :=
  existsb (String.eqb s) l.

End Py.

(** ** [ipaddress]: the validity checks [urlsplit] runs on a bracketed host *)

Module ipaddress.
Import Py.

Definition digit_val (c : ascii) : N := ord c - 48.

(** [int(s, 10)] on a string of decimal digits *)
Definition int10 (s : string) : N :=
  fold_left (fun acc c => acc * 10 + digit_val c)%N (list_ascii_of_string s) 0%N.

Definition ishex (c : ascii) : bool :=
  isdigit c || between 65 70 c || between 97 102 c.

Definition hex_val (c : ascii) : N :=
  if isdigit c then ord c - 48
  else if between 65 70 c then ord c - 55
  else ord c - 87.

Definition hex_digit (upper : bool) (n : N) : ascii :=
  if (n <? 10)%N then ascii_of_N (48 + n)
  else ascii_of_N ((if upper then 55 else 87) + n).

(** ['%x' % n] for [n < 0x10000] *)
Definition hex16 (n : N) : string :=
  lstrip (Ascii.eqb "0")
    (String (hex_digit false (n / 4096))
       (String (hex_digit false ((n / 256) mod 16))
          (String (hex_digit false ((n / 16) mod 16)) "")))
  ++ String (hex_digit false (n mod 16)) "".

(** [IPv4Address._parse_octet]: [None] when it raises *)
Definition _parse_octet (octet_str : string) : option N :=
  if negb (truthy octet_str) then None
  else if negb (all_chars isascii octet_str && all_chars isdigit octet_str) then None
  else if Nat.ltb 3 (String.length octet_str) then None
  else if negb (String.eqb octet_str "0") && startswith "0" octet_str then None
  else let octet_int := int10 octet_str in
       if (255 <? octet_int)%N then None else Some octet_int.

(** [IPv4Address(address)._ip] *)
Definition IPv4Address (address : string) : option N :=
  if mem "/" address then None
  else if negb (truthy address) then None
  else
    let octets := split "." address in
    if negb (Nat.eqb (length octets) 4) then None
    else fold_left (fun acc o =>
                      match acc, _parse_octet o with
                      | Some a, Some b => Some (a * 256 + b)%N
                      | _, _ => None
                      end) octets (Some 0%N).

(** [IPv6Address._parse_hextet] *)
Definition _parse_hextet (hextet_str : string) : option N :=
  if negb (all_chars ishex hextet_str) then None
  else if Nat.ltb 4 (String.length hextet_str) then None
  else if negb (truthy hextet_str) then None
  else Some (fold_left (fun acc c => acc * 16 + hex_val c)%N
               (list_ascii_of_string hextet_str) 0%N).

Definition parse_hextets (parts : list string) : option (list N) :=
  mapM _parse_hextet parts.

(** [IPv6Address._ip_int_from_string], returning the hextets that are
    written out (the value of the address is not used by the callers) *)
Definition _ip_int_from_string (ip_str : string) : option (list N) :=
  if negb (truthy ip_str) then None
  else
    let parts := split ":" ip_str in
    if Nat.ltb (length parts) 3 then None
    else
      parts ←
        (if mem "." (List.last parts "")
         then ipv4_int ← IPv4Address (List.last parts "");
              Some (removelast parts
                      ++ [hex16 ((ipv4_int / 65536) mod 65536); hex16 (ipv4_int mod 65536)])%list
         else Some parts);
      if Nat.ltb 9 (length parts) then None
      else
        let n := length parts in
        let skips := List.filter (fun i => negb (truthy (nth i parts ""))) (seq 1 (n - 2)) in
        match skips with
        | _ :: _ :: _ => None
        | [skip_index] =>
            let parts_hi := skip_index in
            let parts_lo := (n - skip_index - 1)%nat in
            parts_hi ←
              (if negb (truthy (nth 0 parts ""))
               then if Nat.eqb (parts_hi - 1) 0 then Some (parts_hi - 1)%nat else None
               else Some parts_hi);
            parts_lo ←
              (if negb (truthy (List.last parts ""))
               then if Nat.eqb (parts_lo - 1) 0 then Some (parts_lo - 1)%nat else None
               else Some parts_lo);
            if Nat.ltb (8 - (parts_hi + parts_lo)) 1 then None
            else
              hi ← parse_hextets (firstn parts_hi parts);
              lo ← parse_hextets (skipn (n - parts_lo) parts);
              Some (hi ++ lo)%list
        | [] =>
            if negb (Nat.eqb n 8) then None
            else if negb (truthy (nth 0 parts "")) then None
            else if negb (truthy (List.last parts "")) then None
            else parse_hextets parts
        end.

(** [IPv6Address._split_scope_id] *)
Definition _split_scope_id (ip_str : string) : option string :=
  let '(addr, sep, scope_id) := partition "%" ip_str in
  if negb sep then Some addr
  else if negb (truthy scope_id) || mem "%" scope_id then None
  else Some addr.

Definition IPv6Address (address : string) : option (list N) :=
  if mem "/" address then None
  else addr_str ← _split_scope_id address; _ip_int_from_string addr_str.

Inductive ip := IPv4 (a : N) | IPv6 (hextets : list N).

(** [ipaddress.ip_address]: [None] is [ValueError] *)
Definition ip_address (address : string) : option ip :=
  match IPv4Address address with
  | Some a => Some (IPv4 a)
  | None => IPv6 <$> IPv6Address address
  end.

End ipaddress.

(** ** [urllib.parse] *)

Module urllib_parse.
Import Py.

Definition uses_netloc : list string :=
  [""; "ftp"; "http"; "gopher"; "nntp"; "telnet";
   "imap"; "wais"; "file"; "mms"; "https"; "shttp";
   "snews"; "prospero"; "rtsp"; "rtspu"; "rsync";
   "svn"; "svn+ssh"; "sftp"; "nfs"; "git"; "git+ssh";
   "ws"; "wss"].

Definition uses_params : list string :=
  [""; "ftp"; "hdl"; "prospero"; "http"; "imap";
   "https"; "shttp"; "rtsp"; "rtspu"; "sip"; "sips";
   "mms"; "sftp"; "tel"].

Definition scheme_chars : string :=
  "abcdefghijklmnopqrstuvwxyzABCDEFGHIJKLMNOPQRSTUVWXYZ0123456789+-.".

(** [_WHATWG_C0_CONTROL_OR_SPACE] *)
Definition c0_control_or_space (c : ascii) : bool := (ord c <=? 32)%N.

Definition TAB : ascii := ascii_of_N 9.
Definition LF : ascii := ascii_of_N 10.
Definition CR : ascii := ascii_of_N 13.

Record SplitResult := mkSplitResult {
  split_scheme : string;
  split_netloc : string;
  split_path : string;
  split_query : string;
  split_fragment : string
}.

Record ParseResult := mkParseResult {
  scheme : string;
  netloc : string;
  path : string;
  params : string;
  query : string;
  fragment : string
}.

(** [_splitnetloc(url, start)] *)
Definition _splitnetloc (url : string) (start : nat) : string * string :=
  let delim :=
    fold_left (fun delim c =>
                 match find_from c start url with
                 | Some wdelim => Nat.min delim wdelim
                 | None => delim
                 end)
              (list_ascii_of_string "/?#") (String.length url) in
  (drop start (take delim url), drop delim url).

(** [re.match(r"\Av[a-fA-F0-9]+\..+\Z", hostname)] *)
Definition ipvfuture_match (hostname : string) : bool :=
  match hostname with
  | String "v" r =>
      let r' := lstrip ipaddress.ishex r in
      Nat.ltb (String.length r') (String.length r)
      && match r' with
         | String "." (String c t) => negb (mem LF (String c t))
         | _ => false
         end
  | _ => false
  end.

(** [_check_bracketed_host]: [false] when it raises [ValueError] *)
Definition _check_bracketed_host (hostname : string) : bool :=
  if startswith "v" hostname then ipvfuture_match hostname
  else match ipaddress.ip_address hostname with
       | None => false
       | Some (ipaddress.IPv4 _) => false
       | Some (ipaddress.IPv6 _) => true
       end.

(** [_check_bracketed_netloc] *)
Definition _check_bracketed_netloc (netloc : string) : bool :=
  let hostname_and_port := rpartition_tail "@" netloc in
  let '(before_bracket, have_open_br, bracketed) := partition "[" hostname_and_port in
  if have_open_br then
    if truthy before_bracket then false
    else
      let '(hostname, _, port) := partition "]" bracketed in
      if truthy port && negb (startswith ":" port) then false
      else _check_bracketed_host hostname
  else
    let '(hostname, _, _) := partition ":" hostname_and_port in
    _check_bracketed_host hostname.

(** [urlsplit(url)]; [None] is [ValueError].  [_checknetloc], which only
    inspects a host that is not ASCII, is left out. *)
Definition urlsplit (url : string) : option SplitResult :=
  let url := lstrip c0_control_or_space url in
  let url := fold_left (fun u b => remove_char b u) [TAB; CR; LF] url in
  let '(scheme, url) :=
    match find ":" url, url with
    | Some (S i), String c0 _ =>
        if isascii c0 && isalpha c0 then
          if all_chars (fun c => mem c scheme_chars) (take (S i) url)
          then (lower (take (S i) url), drop (S (S i)) url)
          else ("", url)
        else ("", url)
    | _, _ => ("", url)
    end in
  '(netloc, url) ←
    (if String.eqb (take 2 url) "//" then
       let '(netloc, url) := _splitnetloc url 2 in
       if (mem "[" netloc && negb (mem "]" netloc))
          || (mem "]" netloc && negb (mem "[" netloc))
       then None
       else if mem "[" netloc && mem "]" netloc then
         if _check_bracketed_netloc netloc then Some (netloc, url) else None
       else Some (netloc, url)
     else Some ("", url));
  let '(url, fragment) :=
    if mem "#" url then let '(h, _, t) := partition "#" url in (h, t) else (url, "") in
  let '(url, query) :=
    if mem "?" url then let '(h, _, t) := partition "?" url in (h, t) else (url, "") in
  Some (mkSplitResult scheme netloc url query fragment).

(** [_splitparams] ([';' in url] holds at its only call) *)
Definition _splitparams (url : string) : string * string :=
  let cut i := (take i url, drop (S i) url) in
  if mem "/" url then
    match find_from ";" (default O (rfind "/" url)) url with
    | Some i => cut i
    | None => (url, "")
    end
  else cut (default O (find ";" url)).

(** [urlparse(url)] *)
Definition urlparse (url : string) : option ParseResult :=
  splitresult ← urlsplit url;
  let '(mkSplitResult scheme netloc url query fragment) := splitresult in
  let '(url, params) :=
    if in_list scheme uses_params && mem ";" url then _splitparams url else (url, "") in
  Some (mkParseResult scheme netloc url params query fragment).

(** [urlunsplit] *)
Definition urlunsplit (scheme netloc url query fragment : string) : string :=
  let url :=
    if truthy netloc
       || (truthy scheme && in_list scheme uses_netloc && negb (String.eqb (take 2 url) "//"))
    then
      let url := if truthy url && negb (String.eqb (take 1 url) "/") then "/" ++ url else url in
      "//" ++ netloc ++ url
    else url in
  let url := if truthy scheme then scheme ++ ":" ++ url else url in
  let url := if truthy query then url ++ "?" ++ query else url in
  let url := if truthy fragment then url ++ "#" ++ fragment else url in
  url.

(** [urlunparse] *)
Definition urlunparse (scheme netloc url params query fragment : string) : string :=
  let url := if truthy params then url ++ ";" ++ params else url in
  urlunsplit scheme netloc url query fragment.

End urllib_parse.

(** ** [urllib.parse]: percent-encoding and query strings *)

Module urllib_query.
Import Py.

(** The replacement character U+FFFD in UTF-8 *)
Definition REPLACEMENT : list ascii :=
  [ascii_of_N 239; ascii_of_N 191; ascii_of_N 189].

Definition is_continuation (c : ascii) : bool := between 128 191 c.

(** [bytes.decode('utf-8', 'replace')], the decoded text again held in
    UTF-8: a well-formed sequence is kept, every maximal ill-formed part is
    replaced by U+FFFD. *)
Fixpoint decode_replace (bs : list ascii) : list ascii :=
  match bs with
  | [] => []
  | ch :: rest =>
      if (ord ch <? 128)%N then ch :: decode_replace rest
      else if (ord ch <? 194)%N then REPLACEMENT ++ decode_replace rest
      else if (ord ch <? 224)%N then
        match rest with
        | [] => REPLACEMENT
        | ch2 :: r2 =>
            if is_continuation ch2 then ch :: ch2 :: decode_replace r2
            else REPLACEMENT ++ decode_replace rest
        end
      else if (ord ch <? 240)%N then
        match rest with
        | [] => REPLACEMENT
        | ch2 :: r2 =>
            if negb (is_continuation ch2)
               || (if (ord ch2 <? 160)%N then (ord ch =? 224)%N else (ord ch =? 237)%N)
            then REPLACEMENT ++ decode_replace rest
            else
              match r2 with
              | [] => REPLACEMENT
              | ch3 :: r3 =>
                  if is_continuation ch3 then ch :: ch2 :: ch3 :: decode_replace r3
                  else REPLACEMENT ++ decode_replace r2
              end
        end
      else if (ord ch <? 245)%N then
        match rest with
        | [] => REPLACEMENT
        | ch2 :: r2 =>
            if negb (is_continuation ch2)
               || (if (ord ch2 <? 144)%N then (ord ch =? 240)%N else (ord ch =? 244)%N)
            then REPLACEMENT ++ decode_replace rest
            else
              match r2 with
              | [] => REPLACEMENT
              | ch3 :: r3 =>
                  if negb (is_continuation ch3) then REPLACEMENT ++ decode_replace r2
                  else
                    match r3 with
                    | [] => REPLACEMENT
                    | ch4 :: r4 =>
                        if is_continuation ch4
                        then ch :: ch2 :: ch3 :: ch4 :: decode_replace r4
                        else REPLACEMENT ++ decode_replace r3
                    end
              end
        end
      else REPLACEMENT ++ decode_replace rest
  end%list.

(** One item of [string.split('%')[1:]] in [unquote_to_bytes] *)
Definition unquote_item (item : string) : string :=
  match item with
  | String a (String b r) =>
      if ipaddress.ishex a && ipaddress.ishex b
      then String (ascii_of_N (ipaddress.hex_val a * 16 + ipaddress.hex_val b)) r
      else "%" ++ item
  | _ => "%" ++ item
  end.

(** [unquote_to_bytes] *)
Definition unquote_to_bytes (s : string) : string :=
  match split "%" s with
  | [] => s
  | [_] => s
  | first :: items => first ++ String.concat "" (map unquote_item items)
  end.

(** [_asciire.split(string)]: the maximal runs of ASCII and of other
    characters, each tagged with [isascii] *)
Fixpoint ascii_runs (s : string) : list (bool * string) :=
  match s with
  | "" => []
  | String c r =>
      match ascii_runs r with
      | (b, run) :: t =>
          if Bool.eqb b (isascii c) then (b, String c run) :: t
          else (isascii c, String c "") :: (b, run) :: t
      | [] => [(isascii c, String c "")]
      end
  end.

(** [unquote(string)] with the defaults [encoding='utf-8'],
    [errors='replace'] *)
Definition unquote (s : string) : string :=
  if negb (mem "%" s) then s
  else
    String.concat ""
      (map (fun '(is_ascii, run) =>
              if is_ascii : bool
              then string_of_list_ascii
                     (decode_replace (list_ascii_of_string (unquote_to_bytes run)))
              else run)
           (ascii_runs s)).

(** [_ALWAYS_SAFE] *)
Definition always_safe (c : ascii) : bool :=
  isupper c || islower c || isdigit c || mem c "_.-~".

(** [_Quoter.__missing__]: ['%{:02X}'.format(b)] for an unsafe byte *)
Definition quoter (safe : string) (c : ascii) : string :=
  if isascii c && (always_safe c || mem c safe) then String c ""
  else String "%" (String (ipaddress.hex_digit true (ord c / 16))
                     (String (ipaddress.hex_digit true (ord c mod 16)) "")).

(** [quote(string, safe)] *)
Definition quote (s safe : string) : string :=
  String.concat "" (map (quoter safe) (list_ascii_of_string s)).

Definition SPACE : ascii := ascii_of_N 32.

(** [quote_plus(string)] with [safe=''] *)
Definition quote_plus (s : string) : string :=
  if negb (mem SPACE s) then quote s ""
  else replace (String SPACE "") "+" (quote s (String SPACE "")).

(** [parse_qsl(qs)] with the defaults: blank values dropped, no strict
    parsing, separator [&] *)
Definition parse_qsl (qs : string) : list (string * string) :=
  let query_args := if truthy qs then split "&" qs else [] in
  flat_map
    (fun name_value =>
       if negb (truthy name_value) then []
       else
         let '(name, has_eq, value) := partition "=" name_value in
         if negb has_eq then []
         else if truthy value
         then [(unquote (replace "+" (String SPACE "") name),
                unquote (replace "+" (String SPACE "") value))]
         else [])
    query_args.

(** A Python [dict] from [str] to [list] of [str]: the keys are kept in
    insertion order. *)
Definition dict := list (string * list string).

Fixpoint dict_has (name : string) (d : dict) : bool :=
  match d with
  | [] => false
  | (k, _) :: r => String.eqb k name || dict_has name r
  end.

(** [d[name].append(value)] *)
Fixpoint dict_append (name value : string) (d : dict) : dict :=
  match d with
  | [] => []
  | (k, vs) :: r =>
      if String.eqb k name then (k, vs ++ [value])%list :: r
      else (k, vs) :: dict_append name value r
  end.

(** The body of the loop of [parse_qs] *)
Definition dict_add (parsed_result : dict) (pair : string * string) : dict :=
  let '(name, value) := pair in
  if dict_has name parsed_result
  then dict_append name value parsed_result
  else (parsed_result ++ [(name, [value])])%list.

(** [parse_qs(qs)] *)
Definition parse_qs (qs : string) : dict :=
  fold_left dict_add (parse_qsl qs) [].

(** [urlencode(query, doseq=True)] on such a dict *)
Definition urlencode (query : dict) : string :=
  join "&"
    (flat_map (fun '(k, v) =>
                 let k := quote_plus k in
                 map (fun elt => k ++ "=" ++ quote_plus elt) v)
              query).

End urllib_query.

(** ** [news_search/url_normalizer.py] *)

Import Py urllib_parse urllib_query.

Definition tracking_params : list string :=
  ["utm_source"; "utm_medium"; "utm_campaign"; "utm_term"; "utm_content";
   "fbclid"; "gclid"; "msclkid"; "mc_cid"; "mc_eid";
   "_ga"; "_gl"; "ref"; "source"].

(** The dict comprehension of [normalize_url] *)
Definition filter_tracking (query_params : dict) : dict :=
  List.filter (fun '(k, _) => negb (in_list k tracking_params)) query_params.

(** [normalize_url(url)]; [None] when [urlparse] raises [ValueError] *)
Definition normalize_url (url : string) : option string :=
  let url := strip url in
  parsed ← urlparse url;
  let scheme := if truthy (scheme parsed) then lower (scheme parsed) else "https" in
  let netloc := lower (netloc parsed) in
  let netloc := if startswith "www." netloc then drop 4 netloc else netloc in
  let query_params := parse_qs (query parsed) in
  let filtered_params := filter_tracking query_params in
  let query := match filtered_params with [] => "" | _ => urlencode filtered_params end in
  let fragment := "" in
  let path :=
    if negb (String.eqb (path parsed) "/") then rstrip (Ascii.eqb "/") (path parsed)
    else path parsed in
  Some (urlunparse scheme netloc path (params parsed) query fragment).

(** [is_valid_url(url)] *)
Definition is_valid_url (url : string) : bool :=
  match urlparse url with
  | Some result => truthy (scheme result) && truthy (netloc result)
  | None => false
  end.

(** [extract_domain(url)] *)
Definition extract_domain (url : string) : string :=
  match urlparse url with
  | Some parsed => replace "www." "" (lower (netloc parsed))
  | None => ""
  end.

(** ** [hashlib.sha256] (FIPS 180-4), on 32-bit words held in [Z] *)

Module hashlib.
Local Open Scope Z_scope.

(** The first [n] primes, by trial division *)
Definition is_prime (p : Z) : bool :=
  forallb (fun d => negb (p mod Z.of_nat d =? 0)) (seq 2 (Z.to_nat p - 2)).

Definition primes (n : nat) : list Z :=
  firstn n (List.filter is_prime (map Z.of_nat (seq 2 400))).

(** The largest [r] in [lo, hi) with [r ^ 3 <= x] *)
Fixpoint cube_root (fuel : nat) (lo hi x : Z) : Z :=
  match fuel with
  | O => lo
  | S fuel' =>
      if hi - lo <=? 1 then lo
      else
        let mid := (lo + hi) / 2 in
        if mid ^ 3 <=? x then cube_root fuel' mid hi x else cube_root fuel' lo mid x
  end.

(** The round constants: the first 32 bits of the fractional parts of
    the cube roots of the first 64 primes *)
Definition K : list Z :=
  Eval vm_compute in
    map (fun p => cube_root 64 0 (2 ^ 36) (p * 2 ^ 96) mod 2 ^ 32) (primes 64).

(** The initial hash value: the same of the square roots of the first 8
    primes *)
Definition H0 : list Z :=
  Eval vm_compute in map (fun p => Z.sqrt (p * 2 ^ 64) mod 2 ^ 32) (primes 8).

Definition wrap (x : Z) : Z := x mod 2 ^ 32.
Definition add32 (a b : Z) : Z := wrap (a + b).
Definition rotr (n x : Z) : Z := Z.lor (Z.shiftr x n) (wrap (Z.shiftl x (32 - n))).
Definition not32 (x : Z) : Z := Z.lxor x 0xffffffff.

Definition Ch (x y z : Z) : Z := Z.lxor (Z.land x y) (Z.land (not32 x) z).
Definition Maj (x y z : Z) : Z := Z.lxor (Z.lxor (Z.land x y) (Z.land x z)) (Z.land y z).
Definition Sigma0 (x : Z) : Z := Z.lxor (Z.lxor (rotr 2 x) (rotr 13 x)) (rotr 22 x).
Definition Sigma1 (x : Z) : Z := Z.lxor (Z.lxor (rotr 6 x) (rotr 11 x)) (rotr 25 x).
Definition sigma0 (x : Z) : Z := Z.lxor (Z.lxor (rotr 7 x) (rotr 18 x)) (Z.shiftr x 3).
Definition sigma1 (x : Z) : Z := Z.lxor (Z.lxor (rotr 17 x) (rotr 19 x)) (Z.shiftr x 10).

(** The message with the bit 1, the zero bytes and the 64-bit length *)
Definition pad (msg : list Z) : list Z :=
  let len := Z.of_nat (length msg) in
  let zeros := Z.to_nat ((55 - len) mod 64) in
  let bits := 8 * len in
  (msg ++ [0x80] ++ repeat 0 zeros
       ++ map (fun i => Z.shiftr bits (8 * (7 - Z.of_nat i)) mod 256) (seq 0 8))%list.

(** Big-endian 32-bit words of a byte list *)
Fixpoint words (bytes : list Z) : list Z :=
  match bytes with
  | a :: b :: c :: d :: r => (((a * 256 + b) * 256 + c) * 256 + d) :: words r
  | _ => []
  end.

(** The message schedule, latest word first: [rev_w] holds W[t-1], W[t-2], ... *)
Fixpoint schedule (n : nat) (rev_w : list Z) : list Z :=
  match n with
  | O => rev_w
  | S n' =>
      let w t := nth t rev_w 0 in
      schedule n'
        (add32 (add32 (sigma1 (w 1%nat)) (w 6%nat)) (add32 (sigma0 (w 14%nat)) (w 15%nat)) :: rev_w)
  end.

Definition round (st : list Z) (kw : Z * Z) : list Z :=
  match st with
  | [a; b; c; d; e; f; g; h] =>
      let T1 := add32 (add32 (add32 h (Sigma1 e)) (add32 (Ch e f g) (fst kw))) (snd kw) in
      let T2 := add32 (Sigma0 a) (Maj a b c) in
      [add32 T1 T2; a; b; c; add32 d T1; e; f; g]
  | _ => st
  end.

Definition compress (H : list Z) (block : list Z) : list Z :=
  let W := rev (schedule 48 (rev block)) in
  let st := fold_left round (combine K W) H in
  map (fun p => add32 (fst p) (snd p)) (combine H st).

Fixpoint blocks (n : nat) (ws : list Z) : list (list Z) :=
  match n with
  | O => []
  | S n' => firstn 16 ws :: blocks n' (skipn 16 ws)
  end.

Definition digest_words (msg : list Z) : list Z :=
  let ws := words (pad msg) in
  fold_left compress (blocks (length ws / 16) ws) H0.

Definition hex_word (w : Z) : string :=
  string_of_list_ascii
    (map (fun i => ipaddress.hex_digit false (Z.to_N (Z.shiftr w (4 * (7 - Z.of_nat i)) mod 16)))
         (seq 0 8)).

(** [hashlib.sha256(data).hexdigest()] *)
Definition sha256_hexdigest (data : string) : string :=
  String.concat ""
    (map hex_word (digest_words (map (fun c => Z.of_N (Py.ord c)) (list_ascii_of_string data)))).

End hashlib.

(** ** [news_search/database.py]: [hash_url] *)

(** [hash_url(url)]: [url.encode('utf-8')] is the identity on the byte form *)
Definition hash_url (url : string) : string := hashlib.sha256_hexdigest url.

(** ** State, exceptions and the monad of the stateful code *)

Inductive Status := Pending | Processing | Completed | Failed.

Definition Status_eqb (a b : Status) : bool :=
  match a, b with
  | Pending, Pending | Processing, Processing
  | Completed, Completed | Failed, Failed => true
  | _, _ => false
  end.

(** A row of [news_links] *)
Record NewsLink := mkNewsLink {
  nl_id : Z;
  nl_url : string;
  nl_url_hash : string;
  nl_title : option string;
  nl_discovered_at : Z;
  nl_source_task : string;
  nl_status : Status;
  nl_error_message : option string;
  nl_processed_at : option Z;
  nl_last_checked : option Z;
  nl_created_at : Z
}.

(** A row of [processed_content] *)
Record ProcessedContent := mkProcessedContent {
  pc_id : Z;
  pc_link_id : Z;
  pc_title : option string;
  pc_content : option string;
  pc_translated_content : option string;
  pc_tags : option (list string);
  pc_country : option string;
  pc_news_date : option string;
  pc_metadata : option string;
  pc_created_at : Z;
  pc_updated_at : Z
}.

(** A row of [query_tasks] *)
Record QueryTask := mkQueryTask {
  qt_id : Z;
  qt_task_name : string;
  qt_prompt_template : string;
  qt_is_active : bool;
  qt_schedule : option string;
  qt_last_run : option Z;
  qt_total_runs : Z;
  qt_total_links_found : Z;
  qt_created_at : Z;
  qt_updated_at : Z
}.

(** The three tables and their [SERIAL] sequences (last value handed out) *)
Record Tables := mkTables {
  news_links : list NewsLink;
  news_links_id_seq : Z;
  processed_content : list ProcessedContent;
  processed_content_id_seq : Z;
  query_tasks : list QueryTask;
  query_tasks_id_seq : Z
}.

(** What the code runs in.
    - [db]: the PostgreSQL database.
    - [faults]: the fate of the coming transactions, [true] for one that
      fails (connection refused, statement error) and is rolled back;
      transactions past the end of the list succeed.
    - [clock]: [time.time()] in milliseconds; only [time.sleep] moves it.
    - [domain_last_request]: the dict of the [ProcessorWorker] object.
    - [processor_log]: the URLs handed to [ai_processor.process] so far.
    - [status_log]: for every row an [UPDATE] of [update_link_status]
      has hit, the row's id, its status before and its status after
      (ghost state, kept to state properties of histories). *)
Record World := mkWorld {
  db : Tables;
  faults : list bool;
  clock : Z;
  domain_last_request : gmap string Z;
  processor_log : list string;
  status_log : list (Z * Status * Status)
}.

Inductive Exception :=
  | DatabaseError (msg : string)
  | ProcessorError (msg : string)
  | ValueError (msg : string).

(** [str(e)] *)
Definition str (e : Exception) : string :=
  match e with DatabaseError msg | ProcessorError msg | ValueError msg => msg end.

Inductive Res (A : Type) := Ok (a : A) | Raise (e : Exception).
Arguments Ok {A} a.
Arguments Raise {A} e.

Definition M (A : Type) : Type := World -> Res A * World.

Definition ret {A} (a : A) : M A := fun w => (Ok a, w).

Definition bind {A B} (m : M A) (k : A -> M B) : M B :=
  fun w => match m w with
           | (Ok a, w') => k a w'
           | (Raise e, w') => (Raise e, w')
           end.

Definition raise {A} (e : Exception) : M A := fun w => (Raise e, w).

(** [try: m  except Exception as e: handler(e)] *)
Definition try_except {A} (m : M A) (handler : Exception -> M A) : M A :=
  fun w => match m w with
           | (Ok a, w') => (Ok a, w')
           | (Raise e, w') => handler e w'
           end.

(** The outcome of a computation as a value, the way a [Future] holds it *)
Definition capture {A} (m : M A) : M (Res A) :=
  fun w => let '(r, w') := m w in (Ok r, w').

Notation "x <- m ;; k" := (bind m (fun x => k))
  (at level 100, m at next level, right associativity).
Notation "m ;;; k" := (bind m (fun _ => k))
  (at level 100, right associativity).

(** [time.sleep(ms / 1000)] *)
Definition sleep (ms : Z) : M unit :=
  fun w => (Ok tt, mkWorld (db w) (faults w) (clock w + Z.max 0 ms) (domain_last_request w)
                     (processor_log w) (status_log w)).

(** [time.time()] *)
Definition time : M Z := fun w => (Ok (clock w), w).

Definition seconds (s : Z) : Z := 1000 * s.

(** ** [news_search/database.py]: class [Database] *)

Definition set_news_links (rows : list NewsLink) (seq : Z) (t : Tables) : Tables :=
  mkTables rows seq (processed_content t) (processed_content_id_seq t)
           (query_tasks t) (query_tasks_id_seq t).

Definition set_processed_content (rows : list ProcessedContent) (seq : Z) (t : Tables) : Tables :=
  mkTables (news_links t) (news_links_id_seq t) rows seq
           (query_tasks t) (query_tasks_id_seq t).

Definition set_query_tasks (rows : list QueryTask) (seq : Z) (t : Tables) : Tables :=
  mkTables (news_links t) (news_links_id_seq t)
           (processed_content t) (processed_content_id_seq t) rows seq.

(** [with self.get_connection() as conn: body]: one transaction.  It
    either commits what [body] does or raises and leaves the tables as
    they were.  [body] is given [CURRENT_TIMESTAMP]; a statement that
    PostgreSQL rejects yields [inr]. *)
Definition transaction {A} (body : Z -> Tables -> A * Tables + string) : M A :=
  fun w =>
    let w' t := mkWorld t (tl (faults w)) (clock w) (domain_last_request w)
                        (processor_log w) (status_log w) in
    match faults w with
    | true :: _ => (Raise (DatabaseError "connection failed"), w' (db w))
    | _ =>
        match body (clock w) (db w) with
        | inl (a, t) => (Ok a, w' t)
        | inr msg => (Raise (DatabaseError msg), w' (db w))
        end
    end.

(** [INSERT ... ON CONFLICT (url_hash) DO NOTHING RETURNING id].  The
    sequence of the [SERIAL] column advances whether or not the row is
    kept; [source_task] is a [VARCHAR(255)] ([url_hash], a [VARCHAR(64)],
    always receives the 64 digits of a SHA-256). *)
Definition insert_news_link (url url_hash source_task : string) : M (option Z) :=
  transaction (fun now t =>
    if Nat.ltb 255 (String.length source_task)
    then inr "value too long for type character varying(255)"
    else
      let new_id := (news_links_id_seq t + 1)%Z in
      if existsb (fun r => String.eqb (nl_url_hash r) url_hash) (news_links t)
      then inl (None, set_news_links (news_links t) new_id t)
      else
        let row := mkNewsLink new_id url url_hash None now source_task Pending
                              None None None now in
        inl (Some new_id, set_news_links (news_links t ++ [row])%list new_id t)).

(** [url_exists] *)
Definition url_exists (url_hash : string) : M bool :=
  transaction (fun _ t =>
    inl (existsb (fun r => String.eqb (nl_url_hash r) url_hash) (news_links t), t)).

(** The columns a link is selected with *)
Record Link := mkLink {
  link_id : Z;
  link_url : string;
  link_source_task : string;
  link_discovered_at : Z;
  link_status : option Status
}.

(** [ORDER BY discovered_at DESC]: rows with equal stamps stay in table
    order (SQL leaves their order open). *)
Fixpoint insert_desc (r : NewsLink) (sorted : list NewsLink) : list NewsLink :=
  match sorted with
  | [] => [r]
  | x :: rest =>
      if (nl_discovered_at x <? nl_discovered_at r)%Z then r :: sorted
      else x :: insert_desc r rest
  end.

Definition order_by_discovered_at_desc (rows : list NewsLink) : list NewsLink :=
  fold_left (fun sorted r => insert_desc r sorted) rows [].

(** [get_pending_links(limit)] *)
Definition get_pending_links (limit : nat) : M (list Link) :=
  transaction (fun _ t =>
    inl (map (fun r => mkLink (nl_id r) (nl_url r) (nl_source_task r) (nl_discovered_at r) None)
             (firstn limit
                (order_by_discovered_at_desc
                   (List.filter (fun r => Status_eqb (nl_status r) Pending) (news_links t)))),
         t)).

(** [get_links_by_ids(link_ids)]: the rows come in table order. *)
Definition get_links_by_ids (link_ids : list Z) : M (list Link) :=
  transaction (fun _ t =>
    inl (map (fun r => mkLink (nl_id r) (nl_url r) (nl_source_task r) (nl_discovered_at r) (Some (nl_status r)))
             (List.filter (fun r => existsb (Z.eqb (nl_id r)) link_ids) (news_links t)),
         t)).

Definition is_terminal (s : Status) : bool :=
  match s with Completed | Failed => true | _ => false end.

(** The [UPDATE] of [update_link_status] on one row *)
Definition set_status (link_id : Z) (s : Status) (error_message : option string)
    (now : Z) (r : NewsLink) : NewsLink :=
  if (nl_id r =? link_id)%Z then
    mkNewsLink (nl_id r) (nl_url r) (nl_url_hash r) (nl_title r) (nl_discovered_at r) (nl_source_task r)
               s error_message
               (if is_terminal s then Some now else nl_processed_at r)
               (nl_last_checked r) (nl_created_at r)
  else r.

(** [update_link_status(link_id, status, error_message)] *)
Definition update_link_status (link_id : Z) (s : Status) (error_message : option string)
    : M unit :=
  fun w =>
    let hit := List.filter (fun r => (nl_id r =? link_id)%Z) (news_links (db w)) in
    match transaction (fun now t =>
            inl (tt, set_news_links (map (set_status link_id s error_message now) (news_links t))
                                    (news_links_id_seq t) t)) w with
    | (Ok tt, w') =>
        (Ok tt, mkWorld (db w') (faults w') (clock w') (domain_last_request w')
                        (processor_log w')
                        (status_log w' ++ map (fun r => (nl_id r, nl_status r, s)) hit)%list)
    | (Raise e, w') => (Raise e, w')
    end.

(** [Json(metadata) if metadata else None]: the dict is held as its
    text, the empty text for the empty dict, which is false in Python
    as [None] is. *)
Definition Json_or_None (metadata : option string) : option string :=
  match metadata with
  | Some m => if truthy m then Some m else None
  | None => None
  end.

(** [save_processed_content(link_id, title, content, translated_content,
    metadata)]: insert, or update the row of the link.  [link_id]
    references [news_links(id)]: for a link that is not stored the
    [INSERT] fails and no row is written; the value the sequence of [id]
    handed out for it is lost all the same, as it is when the row of the
    link is updated. *)
Definition save_processed_content (link_id : Z)
    (title content translated_content metadata : option string) : M unit :=
  stored <-
    transaction (fun now t =>
      let new_id := (processed_content_id_seq t + 1)%Z in
      if negb (existsb (fun r => (nl_id r =? link_id)%Z) (news_links t))
      then inl (false, set_processed_content (processed_content t) new_id t)
      else if existsb (fun c => (pc_link_id c =? link_id)%Z) (processed_content t)
      then
        inl (true, set_processed_content
               (map (fun c =>
                       if (pc_link_id c =? link_id)%Z
                       then mkProcessedContent (pc_id c) link_id title content translated_content
                                               None None None (Json_or_None metadata)
                                               (pc_created_at c) now
                       else c)
                    (processed_content t))
               new_id t)
      else
        inl (true, set_processed_content
               (processed_content t
                  ++ [mkProcessedContent new_id link_id title content translated_content
                                         None None None (Json_or_None metadata) now now])%list
               new_id t)) ;;
  if stored : bool then ret tt
  else raise (DatabaseError
                "insert or update on table processed_content violates foreign key constraint").

(** [get_processed_content(link_id)] *)
Definition get_processed_content (link_id : Z) : M (option ProcessedContent) :=
  transaction (fun _ t =>
    inl (List.find (fun c => (pc_link_id c =? link_id)%Z) (processed_content t), t)).

(** [get_query_task(task_name)] *)
Definition get_query_task (task_name : string) : M (option QueryTask) :=
  transaction (fun _ t =>
    inl (List.find (fun q => String.eqb (qt_task_name q) task_name) (query_tasks t), t)).

(** [update_task_run_stats(task_name, links_found)] *)
Definition update_task_run_stats (task_name : string) (links_found : Z) : M unit :=
  transaction (fun now t =>
    inl (tt, set_query_tasks
           (map (fun q =>
                   if String.eqb (qt_task_name q) task_name
                   then mkQueryTask (qt_id q) (qt_task_name q) (qt_prompt_template q) (qt_is_active q)
                                    (qt_schedule q) (Some now) (qt_total_runs q + 1)
                                    (qt_total_links_found q + links_found) (qt_created_at q) now
                   else q)
                (query_tasks t))
           (query_tasks_id_seq t) t)).

(** ** [news_search/config.py] *)

Definition SAME_DOMAIN_DELAY : Z := 3.
Definition MAX_CONCURRENT_DOMAINS : nat := 3.
Definition MAX_RETRIES : nat := 2.
Definition AUTO_PROCESS_AFTER_SEARCH : bool := true.

(** ** The Content Processor, an external collaborator *)

(** The dict [ai_processor.process(url)] returns *)
Record ProcessResult := mkProcessResult {
  result_success : bool;
  result_title : option string;
  result_content : option string;
  result_translated_content : option string;
  result_metadata : option string;
  result_error : option string
}.

(** What a call does: it returns a dict or [None], or it raises. *)
Inductive Outcome :=
  | Returns (result : option ProcessResult)
  | Raises (e : Exception).

(** A processor decides from the URLs it was called with before and the
    URL it is called with now. *)
Definition AiProcessor : Type := list string -> string -> Outcome.

(** [self.ai_processor.process(url)] *)
Definition process (p : AiProcessor) (url : string) : M (option ProcessResult) :=
  fun w =>
    let w' := mkWorld (db w) (faults w) (clock w) (domain_last_request w)
                      (processor_log w ++ [url])%list (status_log w) in
    match p (processor_log w) url with
    | Returns result => (Ok result, w')
    | Raises e => (Raise e, w')
    end.

(** ** [news_search/processor_worker.py]: class [ProcessorWorker] *)

Record ProcessorWorker := mkProcessorWorker {
  ai_processor : option AiProcessor
}.

(** The statistics of one domain, and the dict the entry points return *)
Record DomainStats := mkDomainStats {
  total : nat;
  success : nat;
  failed : nat;
  skipped : nat
}.

Record Stats := mkStats {
  totals : DomainStats;
  by_domain : option (gmap string DomainStats)
}.

(** [_apply_rate_limit(domain)] *)
Definition _apply_rate_limit (domain : string) : M unit :=
  (fun w =>
     match domain_last_request w !! domain with
     | Some last =>
         let elapsed := (clock w - last)%Z in
         if (elapsed <? seconds SAME_DOMAIN_DELAY)%Z
         then sleep (seconds SAME_DOMAIN_DELAY - elapsed) w
         else (Ok tt, w)
     | None => (Ok tt, w)
     end) ;;;
  (fun w => (Ok tt, mkWorld (db w) (faults w) (clock w)
                      (<[domain := clock w]> (domain_last_request w))
                      (processor_log w) (status_log w))).

(** The body of the retry loop of [_process_single_link] at one
    [attempt]: [Some b] when the function returns [b] there, [None] when
    the loop goes on. *)
Definition attempt_link (self : ProcessorWorker) (link : Link) (attempt : nat)
    : M (option bool) :=
  let url := link_url link in
  let link_id := link_id link in
  try_except
    (match ai_processor self with
     | Some p =>
         result <- process p url ;;
         match result with
         | Some r =>
             if result_success r then
               save_processed_content link_id (result_title r) (result_content r)
                 (result_translated_content r) (result_metadata r) ;;;
               update_link_status link_id Completed None ;;;
               ret (Some true)
             else ret None
         | None => ret None
         end
     | None =>
         sleep 500 ;;;
         update_link_status link_id Completed None ;;;
         ret (Some true)
     end)
    (fun e =>
       if Nat.eqb attempt MAX_RETRIES then
         update_link_status link_id Failed (Some (str e)) ;;;
         ret (Some false)
       else
         sleep (seconds (2 ^ Z.of_nat attempt)) ;;;
         ret None).

(** [for attempt in attempts: ...] followed by [return False] *)
Fixpoint retry_loop (self : ProcessorWorker) (link : Link) (attempts : list nat) : M bool :=
  match attempts with
  | [] => ret false
  | attempt :: rest =>
      r <- attempt_link self link attempt ;;
      match r with
      | Some b => ret b
      | None => retry_loop self link rest
      end
  end.

(** [_process_single_link(link)] *)
Definition _process_single_link (self : ProcessorWorker) (link : Link) : M bool :=
  retry_loop self link (seq 1 MAX_RETRIES).

(** The loop of [_process_domain] over the links still to do *)
Fixpoint process_links (self : ProcessorWorker) (domain : string) (links : list Link)
    (stats : DomainStats) : M DomainStats :=
  match links with
  | [] => ret stats
  | link :: rest =>
      _apply_rate_limit domain ;;;
      update_link_status (link_id link) Processing None ;;;
      ok <- _process_single_link self link ;;
      process_links self domain rest
        (if ok : bool
         then mkDomainStats (total stats) (success stats + 1) (failed stats) (skipped stats)
         else mkDomainStats (total stats) (success stats) (failed stats + 1) (skipped stats))
  end.

(** [_process_domain(domain, links)] *)
Definition _process_domain (self : ProcessorWorker) (domain : string) (links : list Link)
    : M DomainStats :=
  process_links self domain links (mkDomainStats (length links) 0 0 0).

(** [groups[domain].append(link)] on a [defaultdict(list)] *)
Fixpoint group_append (domain : string) (link : Link) (groups : list (string * list Link))
    : list (string * list Link) :=
  match groups with
  | [] => [(domain, [link])]
  | (d, links) :: rest =>
      if String.eqb d domain then (d, links ++ [link])%list :: rest
      else (d, links) :: group_append domain link rest
  end.

(** [_group_by_domain(links)]: a dict, its keys in insertion order *)
Definition _group_by_domain (links : list Link) : list (string * list Link) :=
  fold_left (fun groups link => group_append (extract_domain (link_url link)) link groups)
            links [].

(** [executor.submit(self._process_domain, domain, links)] for every
    domain.  The pool runs up to [MAX_CONCURRENT_DOMAINS] workers at a
    time; here they run one after the other in the order of submission,
    which is one of the schedules of the pool.  Each future holds what its
    worker returned or raised. *)
Fixpoint submit_all (self : ProcessorWorker) (domain_groups : list (string * list Link))
    : M (list (string * Res DomainStats)) :=
  match domain_groups with
  | [] => ret []
  | (domain, links) :: rest =>
      future <- capture (_process_domain self domain links) ;;
      futures <- submit_all self rest ;;
      ret ((domain, future) :: futures)
  end.

Definition add_stats (a b : DomainStats) : DomainStats :=
  mkDomainStats (total a + total b) (success a + success b)
                (failed a + failed b) (skipped a + skipped b).

(** The body of [for future in as_completed(future_to_domain)] *)
Definition collect (stats : DomainStats * gmap string DomainStats)
    (completed : string * Res DomainStats) : DomainStats * gmap string DomainStats :=
  let '(domain, future) := completed in
  match future with
  | Ok domain_stats => (add_stats (fst stats) domain_stats, <[domain := domain_stats]> (snd stats))
  | Raise _ => stats
  end.

Definition no_stats : DomainStats := mkDomainStats 0 0 0 0.

(** [_process_domains(domain_groups)]: the futures complete in the order
    [submit_all] ran them; the statistics are the same for any other order
    of completion ([collect_Permutation]). *)
Definition _process_domains (self : ProcessorWorker) (domain_groups : list (string * list Link))
    : M Stats :=
  futures <- submit_all self domain_groups ;;
  let '(totals, by_domain) := fold_left collect futures (no_stats, ∅) in
  ret (mkStats totals (Some by_domain)).

(** [process_pending_links(limit)] *)
Definition process_pending_links (self : ProcessorWorker) (limit : nat) : M Stats :=
  pending_links <- get_pending_links limit ;;
  match pending_links with
  | [] => ret (mkStats no_stats None)
  | _ => _process_domains self (_group_by_domain pending_links)
  end.

(** [process_specific_links(link_ids)] *)
Definition process_specific_links (self : ProcessorWorker) (link_ids : list Z) : M Stats :=
  links <- get_links_by_ids link_ids ;;
  match links with
  | [] => ret (mkStats no_stats None)
  | _ => _process_domains self (_group_by_domain links)
  end.

(** ** [news_search/search_module.py]: class [NewsSearchModule] *)

(** [search_client.search(prompt)] is an external collaborator: it
    returns the list of URLs of the answer, or [None] on any failure. *)
Record NewsSearchModule := mkNewsSearchModule {
  search : string -> option (list string);
  processor_worker : option ProcessorWorker
}.

(** An item of [processed_urls] *)
Record UrlEntry := mkUrlEntry {
  entry_id : Z;
  entry_url : string;
  original_url : string
}.

(** The dict [_process_urls] returns *)
Record UrlResults := mkUrlResults {
  new_links : nat;
  duplicates : nat;
  invalid : nat;
  urls : list UrlEntry
}.

(** The loop of [_process_urls] over the URLs still to do *)
Fixpoint process_urls_from (acc : UrlResults) (task_name : string) (todo : list string)
    : M UrlResults :=
  match todo with
  | [] => ret acc
  | url :: rest =>
      if negb (is_valid_url url) then
        process_urls_from
          (mkUrlResults (new_links acc) (duplicates acc) (invalid acc + 1) (urls acc))
          task_name rest
      else
        match normalize_url url with
        | None => raise (ValueError "Invalid IPv6 URL")
        | Some normalized_url =>
            let url_hash_value := hash_url normalized_url in
            seen <- url_exists url_hash_value ;;
            if seen : bool then
              process_urls_from
                (mkUrlResults (new_links acc) (duplicates acc + 1) (invalid acc) (urls acc))
                task_name rest
            else
              link_id <- insert_news_link normalized_url url_hash_value task_name ;;
              match link_id with
              | Some i =>
                  if (i =? 0)%Z then process_urls_from acc task_name rest
                  else
                    process_urls_from
                      (mkUrlResults (new_links acc + 1) (duplicates acc) (invalid acc)
                         (urls acc ++ [mkUrlEntry i normalized_url url])%list)
                      task_name rest
              | None => process_urls_from acc task_name rest
              end
        end
  end.

(** [_process_urls(urls, task_name)] *)
Definition _process_urls (urls : list string) (task_name : string) : M UrlResults :=
  process_urls_from (mkUrlResults 0 0 0 []) task_name urls.

(** The dict [execute_search] and [run_task] return *)
Record SearchReport := mkSearchReport {
  report_task_name : string;
  total_found : nat;
  report_new_links : nat;
  report_duplicates : nat;
  report_invalid : nat;
  report_urls : list UrlEntry;
  processing : option Stats
}.

Inductive SearchResult :=
  | SearchFailed (error : string) (task_name : option string)
  | SearchDone (report : SearchReport).

(** [execute_search(prompt, task_name)] *)
Definition execute_search (self : NewsSearchModule) (prompt task_name : string)
    : M SearchResult :=
  match search self prompt with
  | None => ret (SearchFailed "Search failed" (Some task_name))
  | Some found =>
      results <- _process_urls found task_name ;;
      update_task_run_stats task_name (Z.of_nat (new_links results)) ;;;
      let search_result processing :=
        SearchDone (mkSearchReport task_name (length found) (new_links results)
                      (duplicates results) (invalid results) (urls results) processing) in
      match processor_worker self with
      | Some worker =>
          if AUTO_PROCESS_AFTER_SEARCH && Nat.ltb 0 (new_links results) then
            let new_link_ids := map entry_id (urls results) in
            processing_result <- process_specific_links worker new_link_ids ;;
            ret (search_result (Some processing_result))
          else ret (search_result None)
      | None => ret (search_result None)
      end
  end.

(** [run_task(task_name)] *)
Definition run_task (self : NewsSearchModule) (task_name : string) : M SearchResult :=
  task <- get_query_task task_name ;;
  match task with
  | None => ret (SearchFailed ("Task '" ++ task_name ++ "' not found") None)
  | Some task =>
      if negb (qt_is_active task)
      then ret (SearchFailed ("Task '" ++ task_name ++ "' is not active") None)
      else execute_search self (qt_prompt_template task) task_name
  end.


(** ** [news_search/database.py]: the other methods of [Database] *)

(** [create_query_task(task_name, prompt_template, schedule)]:
    [task_name] is a [VARCHAR(255)] with a [UNIQUE] constraint and
    [schedule] a [VARCHAR(100)].  A name that is taken makes the
    [INSERT] fail; the value the sequence handed out for the rejected row
    is lost all the same. *)
Definition create_query_task (task_name prompt_template : string) (schedule : option string)
    : M Z :=
  outcome <-
    transaction (fun now t =>
      if Nat.ltb 255 (String.length task_name)
      then inr "value too long for type character varying(255)"
      else if Nat.ltb 100 (String.length (default "" schedule))
      then inr "value too long for type character varying(100)"
      else
        let new_id := (query_tasks_id_seq t + 1)%Z in
        if existsb (fun q => String.eqb (qt_task_name q) task_name) (query_tasks t)
        then inl (None, set_query_tasks (query_tasks t) new_id t)
        else
          let row := mkQueryTask new_id task_name prompt_template true schedule None 0 0
                                 now now in
          inl (Some new_id, set_query_tasks (query_tasks t ++ [row])%list new_id t)) ;;
  match outcome with
  | Some task_id => ret task_id
  | None => raise (DatabaseError "duplicate key value violates unique constraint")
  end.

(** The two dicts of [get_statistics] *)
Record LinkStatistics := mkLinkStatistics {
  total_links : nat;
  stat_pending : nat;
  stat_processing : nat;
  stat_completed : nat;
  stat_failed : nat
}.

Record TaskStatistics := mkTaskStatistics {
  total_tasks : nat;
  active_tasks : nat
}.

(** [COUNT( * ) FILTER (WHERE status = ...)] *)
Definition count_status (s : Status) (rows : list NewsLink) : nat :=
  length (List.filter (fun r => Status_eqb (nl_status r) s) rows).

(** [get_statistics()] *)
Definition get_statistics : M (LinkStatistics * TaskStatistics) :=
  transaction (fun _ t =>
    inl ((mkLinkStatistics (length (news_links t))
            (count_status Pending (news_links t))
            (count_status Processing (news_links t))
            (count_status Completed (news_links t))
            (count_status Failed (news_links t)),
          mkTaskStatistics (length (query_tasks t))
            (length (List.filter qt_is_active (query_tasks t)))),
         t)).
(** * Properties *)

Local Open Scope list_scope.

(** ** The canonicalizer *)

(** The parameters of a dict in the order [urlencode] writes them *)
Definition items (d : dict) : list (string * string) :=
  flat_map (fun '(k, vs) => map (pair k) vs) d.

(** One serialized parameter *)
Definition encode_item (kv : string * string) : string :=
  (quote_plus (fst kv) ++ "=" ++ quote_plus (snd kv))%string.

Definition is_tracking (k : string) : bool := in_list k tracking_params.

(** The parameters of a query string that are not tracking parameters,
    in the order of the query string *)
Definition surviving (qs : string) : list (string * string) :=
  List.filter (fun kv => negb (is_tracking (fst kv))) (parse_qsl qs).

(** The parameters called [k], in order *)
Definition named (k : string) (l : list (string * string)) : list (string * string) :=
  List.filter (fun kv => String.eqb (fst kv) k) l.

(** The names of a list without the repetitions, each at its first
    occurrence; [seen] holds the names already met. *)
Fixpoint first_occurrences (seen l : list string) : list string :=
  match l with
  | [] => []
  | k :: r =>
      if in_list k seen then first_occurrences seen r
      else k :: first_occurrences (seen ++ [k]) r
  end.

(** The grouping [parse_qs] does, on a list of parameters *)
Definition grouped (l : list (string * string)) : dict := fold_left dict_add l [].


(** Two hosts that are the same, or of which one is the other with a
    leading [www.] in front.  The one without the prefix does not begin
    with [www.] itself: [normalize_url] removes one prefix, so
    [www.www.a.com] and [www.a.com] are different hosts to it. *)
Definition www_prefix_difference (n1 n2 : string) : Prop :=
  n1 = n2
  \/ (n2 = ("www." ++ n1)%string /\ startswith "www." (lower n1) = false)
  \/ (n1 = ("www." ++ n2)%string /\ startswith "www." (lower n2) = false).

(** Two parsed URLs that differ at most by a leading [www.], by tracking
    parameters and by the fragment *)
Definition same_up_to_tracking_and_www (p1 p2 : ParseResult) : Prop :=
  scheme p1 = scheme p2
  /\ www_prefix_difference (netloc p1) (netloc p2)
  /\ path p1 = path p2
  /\ params p1 = params p2
  /\ surviving (query p1) = surviving (query p2).
(** ** The processing engine *)

(** A call of the Content Processor that does not succeed without
    raising: it returns [None] or a dict whose [success] is false. *)
Definition unsuccessful (o : Outcome) : Prop :=
  match o with
  | Returns None => True
  | Returns (Some r) => result_success r = false
  | Raises _ => False
  end.

(** A step of the lifecycle [pending -> processing -> completed | failed] *)
Definition lifecycle_step (e : Z * Status * Status) : Prop :=
  let '(_, old, new) := e in
  (old = Pending /\ new = Processing)
  \/ (old = Processing /\ (new = Completed \/ new = Failed)).

(** A step the engine does make: a link is picked, whatever its status,
    or a link that is being processed reaches a terminal status. *)
Definition step_ok (e : Z * Status * Status) : Prop :=
  let '(_, old, new) := e in
  new = Processing \/ (old = Processing /\ (new = Completed \/ new = Failed)).

(** The history grew by steps of the engine. *)
Definition log_ok (w w' : World) : Prop :=
  exists es, status_log w' = status_log w ++ es /\ Forall step_ok es.

(** A row later on: the same link, and not back in [Pending] *)
Definition row_advance (r r' : NewsLink) : Prop :=
  nl_id r' = nl_id r /\ nl_url r' = nl_url r /\ nl_url_hash r' = nl_url_hash r
  /\ (nl_status r' = Pending -> nl_status r = Pending).

(** The table later on, when no row was added (the engine) *)
Definition advance (w w' : World) : Prop :=
  log_ok w w' /\ Forall2 row_advance (news_links (db w)) (news_links (db w')).

(** The table later on, when rows may have been added (the orchestrator) *)
Definition evolve (w w' : World) : Prop :=
  log_ok w w'
  /\ exists kept added,
       news_links (db w') = kept ++ added /\ Forall2 row_advance (news_links (db w)) kept.

Definition all_processing (i : Z) (w : World) : Prop :=
  forall r, In r (news_links (db w)) -> nl_id r = i -> nl_status r = Processing.

(** Nothing happened to the links. *)
Definition same_links (w w' : World) : Prop :=
  news_links (db w') = news_links (db w) /\ status_log w' = status_log w.

(** [ran self groups w futures w']: every partition of [groups] was run,
    each from the world the partitions before it left, whatever they
    returned or raised; [futures] holds the outcomes. *)
Inductive ran (self : ProcessorWorker)
  : list (string * list Link) -> World -> list (string * Res DomainStats) -> World -> Prop :=
  | ran_nil w : ran self [] w [] w
  | ran_cons domain links rest w future w1 futures w2 :
      _process_domain self domain links w = (future, w1) ->
      ran self rest w1 futures w2 ->
      ran self ((domain, links) :: rest) w ((domain, future) :: futures) w2.

(** The futures that hold statistics *)
Definition returned (futures : list (string * Res DomainStats)) : list (string * DomainStats) :=
  flat_map (fun '(d, r) => match r with Ok s => [(d, s)] | Raise _ => [] end) futures.

Definition sum_stats (l : list DomainStats) : DomainStats := fold_right add_stats no_stats l.

(** ** The store *)

(** No transaction to come fails. *)
Definition healthy (w : World) : Prop := faults w = [].

Definition set_db (t : Tables) (w : World) : World :=
  mkWorld t (faults w) (clock w) (domain_last_request w) (processor_log w) (status_log w).

(** The row [insert_news_link] writes *)
Definition pending_row (i : Z) (canonical task : string) (now : Z) : NewsLink :=
  mkNewsLink i canonical (hash_url canonical) None now task Pending None None None now.

(** [url_hash] is the fingerprint of a stored link. *)
Definition known (url_hash : string) (rows : list NewsLink) : bool :=
  existsb (fun r => String.eqb (nl_url_hash r) url_hash) rows.

(** ** Scenarios *)

Definition link_row (i : Z) (u : string) (s : Status) : NewsLink :=
  mkNewsLink i u (hash_url u) None 0 "demo" s None None None 0.

Definition link_of (r : NewsLink) : Link :=
  mkLink (nl_id r) (nl_url r) (nl_source_task r) (nl_discovered_at r) (Some (nl_status r)).

Definition demo_task : QueryTask :=
  mkQueryTask 1 "demo" "find news" true None None 0 0 0 0.

Definition world_of (rows : list NewsLink) (tasks : list QueryTask) (outages : list bool)
    : World :=
  mkWorld (mkTables rows (Z.of_nat (length rows)) [] 0 tasks (Z.of_nat (length tasks)))
          outages 0 ∅ [] [].

Definition good_result : ProcessResult :=
  mkProcessResult true (Some "Title") (Some "Body") (Some "Body, translated") None None.

Definition bad_result : ProcessResult :=
  mkProcessResult false None None None None (Some "HTTP 500").

Definition succeeding : AiProcessor := fun _ _ => Returns (Some good_result).
Definition refusing : AiProcessor := fun _ _ => Returns (Some bad_result).
Definition raising : AiProcessor := fun _ _ => Raises (ProcessorError "timeout").

Definition a1 : NewsLink := link_row 1 "http://a.com/1" Pending.
Definition b2 : NewsLink := link_row 2 "http://b.com/2" Pending.

Definition demo_found : list string :=
  ["http://a.com/1"; "http://a.com/1?utm_source=x"; "http://b.com/2"; "not a url"].

Definition demo_module : NewsSearchModule :=
  mkNewsSearchModule (fun _ => Some demo_found) (Some (mkProcessorWorker (Some succeeding))).

(** * Further properties: definitions *)

From Stdlib Require Import Sorted.

(** The routing key of a link *)
Definition domain_of (link : Link) : string := extract_domain (link_url link).

(** The links of a domain, in the order of the list *)
Definition links_of (d : string) (links : list Link) : list Link :=
  List.filter (fun link => String.eqb (domain_of link) d) links.

(** [groups.get(d, [])] *)
Fixpoint group (d : string) (groups : list (string * list Link)) : list Link :=
  match groups with
  | [] => []
  | (k, links) :: rest => if String.eqb k d then links else group d rest
  end.

(** The tasks are as they were. *)
Definition tasks_kept (w w' : World) : Prop :=
  query_tasks (db w') = query_tasks (db w)
  /\ query_tasks_id_seq (db w') = query_tasks_id_seq (db w).

(** [c] is the content of a link whose id is not in [ids]. *)
Definition content_outside (ids : list Z) (c : ProcessedContent) : bool :=
  negb (existsb (Z.eqb (pc_link_id c)) ids).

(** The links whose id is not in [ids], and their contents, are as they
    were; no link was added or removed. *)
Definition others_kept (ids : list Z) (w w' : World) : Prop :=
  Forall2 (fun r r' => nl_id r' = nl_id r /\ (~ In (nl_id r) ids -> r' = r))
          (news_links (db w)) (news_links (db w'))
  /\ List.filter (content_outside ids) (processed_content (db w'))
     = List.filter (content_outside ids) (processed_content (db w)).

(** The ids of the pending links *)
Definition pending_ids (w : World) : list Z :=
  map nl_id (List.filter (fun r => Status_eqb (nl_status r) Pending) (news_links (db w))).


(** The calls of the processor between [w] and [w'] are [l]. *)
Definition calls (l : list string) (w w' : World) : Prop :=
  processor_log w' = processor_log w ++ l.

(** A computation that never calls the processor *)
Definition quiet {A} (m : M A) : Prop :=
  forall w r w', m w = (r, w') -> calls [] w w'.

(** The URLs of [links], the one of the i-th link [counts(i)] times *)
Fixpoint calls_of (links : list Link) (counts : list nat) : list string :=
  match links, counts with
  | link :: links, n :: counts => repeat (link_url link) n ++ calls_of links counts
  | _, _ => []
  end.

(** The calls of one attempt: one when there is a processor *)
Definition attempt_calls (self : ProcessorWorker) (link : Link) : list string :=
  match ai_processor self with Some _ => [link_url link] | None => [] end.


(** The processed contents are as they were. *)
Definition contents_kept (w w' : World) : Prop :=
  processed_content (db w') = processed_content (db w)
  /\ processed_content_id_seq (db w') = processed_content_id_seq (db w).

(** Between [w] and [w'] the rows [added] were registered for [task], in
    this order, and nothing else happened to the store: each of them is
    pending, carries the fingerprint of its URL and an id the sequence
    handed out in between. *)
Definition registered (task : string) (added : list NewsLink) (w w' : World) : Prop :=
  news_links (db w') = news_links (db w) ++ added
  /\ contents_kept w w' /\ tasks_kept w w'
  /\ clock w' = clock w
  /\ (news_links_id_seq (db w) <= news_links_id_seq (db w'))%Z
  /\ Forall (fun row =>
               (news_links_id_seq (db w) < nl_id row <= news_links_id_seq (db w'))%Z
               /\ row = pending_row (nl_id row) (nl_url row) task (clock w))
            added.

(** The entry [_process_urls] reports for a row it registered *)
Definition reports (e : UrlEntry) (row : NewsLink) : Prop :=
  entry_id e = nl_id row /\ entry_url e = nl_url row
  /\ is_valid_url (original_url e) = true
  /\ normalize_url (original_url e) = Some (entry_url e).

(** Every id of a link was handed out by the sequence of the [SERIAL]
    column, which starts at 1. *)
Definition ids_issued (t : Tables) : Prop :=
  (0 <= news_links_id_seq t)%Z
  /\ Forall (fun row => (0 < nl_id row <= news_links_id_seq t)%Z) (news_links t).

(** The constraints of the schema on [news_links]: [id] is the primary
    key and [url_hash] is [UNIQUE]. *)
Definition links_ok (t : Tables) : Prop :=
  ids_issued t
  /\ NoDup (map nl_id (news_links t))
  /\ NoDup (map nl_url_hash (news_links t)).

(** The links have the keys they had, and the sequence is where it was. *)
Definition keys_kept (w w' : World) : Prop :=
  map nl_id (news_links (db w')) = map nl_id (news_links (db w))
  /\ map nl_url_hash (news_links (db w')) = map nl_url_hash (news_links (db w))
  /\ news_links_id_seq (db w') = news_links_id_seq (db w).

(** The [UPDATE] of [update_task_run_stats] on one row *)
Definition record_run (task_name : string) (links_found now : Z) (q : QueryTask) : QueryTask :=
  if String.eqb (qt_task_name q) task_name
  then mkQueryTask (qt_id q) (qt_task_name q) (qt_prompt_template q) (qt_is_active q)
                   (qt_schedule q) (Some now) (qt_total_runs q + 1)
                   (qt_total_links_found q + links_found) (qt_created_at q) now
  else q.

(** The dict [get_pending_links] returns for a row *)
Definition pending_link (r : NewsLink) : Link :=
  mkLink (nl_id r) (nl_url r) (nl_source_task r) (nl_discovered_at r) None.

Definition is_pending (r : NewsLink) : bool := Status_eqb (nl_status r) Pending.

(** [a] was discovered no earlier than [b]. *)
Definition newer (a b : NewsLink) : Prop := (nl_discovered_at b <= nl_discovered_at a)%Z.

(** A link with this id is stored. *)
Definition link_stored (link_id : Z) (t : Tables) : bool :=
  existsb (fun r => (nl_id r =? link_id)%Z) (news_links t).

(** The contents stored for a link *)
Definition contents_of (link_id : Z) (t : Tables) : list ProcessedContent :=
  List.filter (fun c => (pc_link_id c =? link_id)%Z) (processed_content t).

(** A task with this name is stored. *)
Definition task_stored (task_name : string) (t : Tables) : bool :=
  existsb (fun q => String.eqb (qt_task_name q) task_name) (query_tasks t).

(** Time went on, and no request was stamped. *)
Definition waited (w w' : World) : Prop :=
  (clock w <= clock w')%Z /\ domain_last_request w' = domain_last_request w.

(** A processor that raises when it is called for the first time and
    succeeds from then on *)
Definition flaky : AiProcessor :=
  fun history _ =>
    match history with
    | [] => Raises (ProcessorError "timeout")
    | _ => Returns (Some good_result)
    end.

(** The statistics of a partition that was worked through *)
Definition counted (links : list Link) (s : DomainStats) : Prop :=
  total s = length links /\ success s + failed s = total s /\ skipped s = 0.

(** The rows [get_links_by_ids] selects *)
Definition selected (link_ids : list Z) (t : Tables) : list NewsLink :=
  List.filter (fun r => existsb (Z.eqb (nl_id r)) link_ids) (news_links t).

(** A digit of lower-case hexadecimal *)
Definition is_hex_lower (c : ascii) : bool := isdigit c || between 97 102 c.

(** No link whose id is in [ids] is pending. *)
Definition left_pending (ids : list Z) (w : World) : Prop :=
  Forall (fun r => In (nl_id r) ids -> nl_status r <> Pending) (news_links (db w)).

(** [run_task] goes on to search for this task: it is stored and active. *)
Definition task_runnable (task_name : string) (t : Tables) : bool :=
  match List.find (fun q => String.eqb (qt_task_name q) task_name) (query_tasks t) with
  | Some task => qt_is_active task
  | None => false
  end.

(** The number of calls for one link: at least one and at most
    [MAX_RETRIES] with a processor, none without. *)
Definition tried (self : ProcessorWorker) (n : nat) : Prop :=
  match ai_processor self with
  | Some _ => 1 <= n <= MAX_RETRIES
  | None => n = 0
  end.

(** The states in which [_process_domain] takes up its links, one after
    the other: the one [_apply_rate_limit] leaves for each of them, as
    far as the run gets. *)
Fixpoint starts (self : ProcessorWorker) (domain : string) (links : list Link) (w : World)
    : list World :=
  match links with
  | [] => []
  | link :: rest =>
      match _apply_rate_limit domain w with
      | (Ok _, w1) =>
          w1 :: match update_link_status (link_id link) Processing None w1 with
                | (Ok _, w2) =>
                    match _process_single_link self link w2 with
                    | (Ok _, w3) => starts self domain rest w3
                    | (Raise _, _) => []
                    end
                | (Raise _, _) => []
                end
      | (Raise _, _) => []
      end
  end.

(** * Proofs *)

(** ** The fingerprint *)

(** The test vectors of FIPS 180-4 for one and for two blocks *)
Example sha256_abc :
  hash_url "abc" = "ba7816bf8f01cfea414140de5dae2223b00361a396177a9cb410ff61f20015ad".
Proof. vm_compute. reflexivity. Qed.

Example sha256_two_blocks :
  hash_url "abcdbcdecdefdefgefghfghighijhijkijkljklmklmnlmnomnopnopq"
  = "248d6a61d20638b8e5c026930c3e6039a33ce45964ff2167f6ecedd419db06c1".
Proof. vm_compute. reflexivity. Qed.

(** ** The canonicalizer *)

Lemma in_list_In k l : in_list k l = true <-> In k l.
Proof.
  unfold in_list. rewrite existsb_exists. split.
  - intros (x & Hx & E). apply String.eqb_eq in E. now subst.
  - intros H. exists k. split; [assumption | apply String.eqb_refl].
Qed.

Lemma dict_has_keys n d : dict_has n d = in_list n (map fst d).
Proof.
  induction d as [|[k vs] d IH]; simpl; [reflexivity|].
  rewrite IH. f_equal. apply String.eqb_sym.
Qed.

Lemma urlencode_items d : urlencode d = join "&" (map encode_item (items d)).
Proof.
  unfold urlencode, items. f_equal.
  induction d as [|[k vs] d IH]; simpl; [reflexivity|].
  rewrite map_app, IH, map_map. reflexivity.
Qed.

Lemma items_app d1 d2 : items (d1 ++ d2) = (items d1 ++ items d2)%list.
Proof. unfold items. apply flat_map_app. Qed.

Lemma keys_dict_append n v d : map fst (dict_append n v d) = map fst d.
Proof.
  induction d as [|[k vs] d IH]; simpl; [reflexivity|].
  destruct (String.eqb k n); simpl; [reflexivity | now rewrite IH].
Qed.

Lemma keys_dict_add d n v :
  map fst (dict_add d (n, v)) =
  if in_list n (map fst d) then map fst d else (map fst d ++ [n])%list.
Proof.
  unfold dict_add. rewrite dict_has_keys.
  destruct (in_list n (map fst d)).
  - apply keys_dict_append.
  - now rewrite map_app.
Qed.

Lemma keys_fold l : forall d,
  map fst (fold_left dict_add l d)
  = (map fst d ++ first_occurrences (map fst d) (map fst l))%list.
Proof.
  induction l as [|[n v] l IH]; intros d; cbn [fold_left map fst first_occurrences].
  - now rewrite app_nil_r.
  - rewrite IH, keys_dict_add.
    destruct (in_list n (map fst d)); [reflexivity|].
    now rewrite <- app_assoc.
Qed.

Lemma keys_grouped l : map fst (grouped l) = first_occurrences [] (map fst l).
Proof. unfold grouped. now rewrite keys_fold. Qed.

(** Appending to a dict whose keys do not repeat *)
Lemma named_dict_append k n v d :
  NoDup (map fst d) -> dict_has n d = true ->
  named k (items (dict_append n v d)) = (named k (items d) ++ named k [(n, v)])%list.
Proof.
  unfold named.
  induction d as [|[k' vs] d IH]; simpl; intros ND H; [discriminate|].
  inversion ND as [|? ? Hnotin ND']; subst.
  destruct (String.eqb k' n) eqn:E.
  - apply String.eqb_eq in E. subst k'.
    change (items ((n, (vs ++ [v])%list) :: d)) with (map (pair n) (vs ++ [v]) ++ items d)%list.
    change (items ((n, vs) :: d)) with (map (pair n) vs ++ items d)%list.
    rewrite map_app, !filter_app. simpl.
    assert (Hd : List.filter (fun kv => fst kv =? k) (items d) = []
                 \/ (n =? k) = false).
    { destruct (String.eqb n k) eqn:E2; [left | now right].
      apply String.eqb_eq in E2. subst k.
      clear -Hnotin. induction d as [|[k2 vs2] d IH]; [reflexivity|].
      change (items ((k2, vs2) :: d)) with (map (pair k2) vs2 ++ items d)%list.
      rewrite filter_app, IH; [|simpl in Hnotin; tauto].
      rewrite app_nil_r.
      assert (k2 <> n) by (simpl in Hnotin; tauto).
      clear -H. induction vs2; simpl; [reflexivity|].
      destruct (String.eqb k2 n) eqn:E; [apply String.eqb_eq in E; contradiction | assumption]. }
    destruct Hd as [Hd | Hd].
    + rewrite Hd, !app_nil_r. reflexivity.
    + rewrite Hd. simpl. now rewrite !app_nil_r.
  - change (items ((k', vs) :: dict_append n v d))
      with (map (pair k') vs ++ items (dict_append n v d))%list.
    change (items ((k', vs) :: d)) with (map (pair k') vs ++ items d)%list.
    rewrite !filter_app, IH; [now rewrite app_assoc | assumption | assumption].
Qed.

Lemma NoDup_keys_dict_add d n v :
  NoDup (map fst d) -> NoDup (map fst (dict_add d (n, v))).
Proof.
  intros ND. rewrite keys_dict_add.
  destruct (in_list n (map fst d)) eqn:E; [assumption|].
  apply NoDup_app; [assumption | constructor; [intros [] | constructor] |].
  intros x Hx [<- | []]. apply in_list_In in Hx. congruence.
Qed.

Lemma named_dict_add k d n v :
  NoDup (map fst d) ->
  named k (items (dict_add d (n, v))) = named k (items d) ++ named k [(n, v)].
Proof.
  intros ND. unfold dict_add.
  destruct (dict_has n d) eqn:E.
  - now apply named_dict_append.
  - rewrite items_app. unfold named. rewrite filter_app. reflexivity.
Qed.

Lemma named_app k l1 l2 : named k (l1 ++ l2) = named k l1 ++ named k l2.
Proof. apply filter_app. Qed.

Lemma named_fold k l : forall d,
  NoDup (map fst d) ->
  named k (items (fold_left dict_add l d)) = named k (items d) ++ named k l.
Proof.
  induction l as [|[n v] l IH]; intros d ND; cbn [fold_left].
  - unfold named at 3. simpl. now rewrite app_nil_r.
  - rewrite IH by now apply NoDup_keys_dict_add.
    rewrite named_dict_add by assumption.
    rewrite <- app_assoc. f_equal.
    change ((n, v) :: l) with ([(n, v)] ++ l). now rewrite named_app.
Qed.

Lemma named_grouped k l : named k (items (grouped l)) = named k l.
Proof. unfold grouped. rewrite named_fold; [reflexivity | constructor]. Qed.

Lemma fold_fresh l : forall d,
  NoDup (map fst l) ->
  (forall k, In k (map fst l) -> ~ In k (map fst d)) ->
  fold_left dict_add l d = d ++ map (fun kv => (fst kv, [snd kv])) l.
Proof.
  induction l as [|[n v] l IH]; intros d ND Hfresh; cbn [fold_left map fst snd].
  - now rewrite app_nil_r.
  - inversion ND as [|? ? Hn ND']; subst.
    assert (E : dict_has n d = false).
    { rewrite dict_has_keys. destruct (in_list n (map fst d)) eqn:E; [|reflexivity].
      apply in_list_In in E. exfalso. apply (Hfresh n); [now left | assumption]. }
    unfold dict_add at 2. rewrite E.
    rewrite IH; [now rewrite <- app_assoc | assumption |].
    intros k Hk. rewrite map_app, in_app_iff. simpl.
    intros [Hd | [<- | []]].
    + apply (Hfresh k); [now right | assumption].
    + contradiction.
Qed.

Lemma items_singletons l : items (map (fun kv => (fst kv, [snd kv])) l) = l.
Proof.
  induction l as [|[k v] l IH]; [reflexivity|].
  cbn [map fst snd]. change (items ((k, [v]) :: ?d)) with ((k, v) :: items d).
  unfold items in *. simpl. now rewrite IH.
Qed.

Lemma items_grouped_NoDup l : NoDup (map fst l) -> items (grouped l) = l.
Proof.
  intros ND. unfold grouped. rewrite fold_fresh; [apply items_singletons | assumption |].
  intros k _ [].
Qed.

(** Dropping the tracking parameters after the grouping or before it *)
Lemma dict_has_filter_tracking n d :
  is_tracking n = false -> dict_has n (filter_tracking d) = dict_has n d.
Proof.
  intros Hn. induction d as [|[k vs] d IH]; [reflexivity|].
  unfold filter_tracking in *. cbn [List.filter dict_has].
  fold (is_tracking k). destruct (is_tracking k) eqn:Ek; cbn [negb dict_has].
  - rewrite IH. destruct (String.eqb k n) eqn:E; [|reflexivity].
    apply String.eqb_eq in E. congruence.
  - now rewrite IH.
Qed.

Lemma filter_tracking_dict_append n v d :
  filter_tracking (dict_append n v d)
  = if is_tracking n then filter_tracking d else dict_append n v (filter_tracking d).
Proof.
  induction d as [|[k vs] d IH]; [now destruct (is_tracking n)|].
  unfold filter_tracking in *. cbn [dict_append].
  destruct (String.eqb k n) eqn:E.
  - apply String.eqb_eq in E. subst k. cbn [List.filter]. fold (is_tracking n).
    destruct (is_tracking n); cbn [negb dict_append]; [reflexivity|].
    now rewrite String.eqb_refl.
  - cbn [List.filter]. fold (is_tracking k). rewrite IH.
    destruct (is_tracking k), (is_tracking n); cbn [negb dict_append]; try reflexivity.
    now rewrite E.
Qed.

Lemma filter_tracking_dict_add d n v :
  filter_tracking (dict_add d (n, v))
  = if is_tracking n then filter_tracking d else dict_add (filter_tracking d) (n, v).
Proof.
  unfold dict_add. destruct (is_tracking n) eqn:En.
  - destruct (dict_has n d).
    + now rewrite filter_tracking_dict_append, En.
    + unfold filter_tracking. rewrite filter_app. cbn [List.filter]. fold (is_tracking n).
      rewrite En. cbn [negb]. now rewrite app_nil_r.
  - rewrite dict_has_filter_tracking by assumption.
    destruct (dict_has n d).
    + now rewrite filter_tracking_dict_append, En.
    + unfold filter_tracking. rewrite filter_app. cbn [List.filter]. fold (is_tracking n).
      now rewrite En.
Qed.

Lemma filter_tracking_fold l : forall d,
  filter_tracking (fold_left dict_add l d)
  = fold_left dict_add (List.filter (fun kv => negb (is_tracking (fst kv))) l) (filter_tracking d).
Proof.
  induction l as [|[n v] l IH]; intros d; cbn [fold_left List.filter fst]; [reflexivity|].
  rewrite IH, filter_tracking_dict_add.
  destruct (is_tracking n); reflexivity.
Qed.

Lemma filter_tracking_parse_qs qs :
  filter_tracking (parse_qs qs) = grouped (surviving qs).
Proof. unfold parse_qs, grouped, surviving. now rewrite filter_tracking_fold. Qed.

(** C5. [normalize_url] on [HTTP://WWW.Example.com/Path/?utm_source=x&id=7#frag]
    returns [http://example.com/Path?id=7]: the tracking parameter and the
    fragment are gone, scheme and host are in lower case without the leading
    [www.], the trailing slash of the path is gone and the case of the path
    is kept. *)
Theorem normalize_url_example :
  normalize_url "HTTP://WWW.Example.com/Path/?utm_source=x&id=7#frag"
  = Some "http://example.com/Path?id=7".
Proof. vm_compute. reflexivity. Qed.

(** C7, at an input on which the code departs from the claim.  The URL
    is canonical ([normalize_url] returns it unchanged) and its host is
    [news.www.example.com], with no leading [www.]; [extract_domain]
    removes the inner [www.] all the same, because it calls
    [replace('www.', '')] where [normalize_url] tests [startswith]. *)
Theorem extract_domain_removes_inner_www :
  normalize_url "http://news.www.example.com/a" = Some "http://news.www.example.com/a"
  /\ (netloc <$> urlparse "http://news.www.example.com/a") = Some "news.www.example.com"
  /\ extract_domain "http://news.www.example.com/a" = "news.example.com".
Proof. vm_compute. repeat split. Qed.

(** C8 as stated fails: a name that comes back after another name is
    moved next to its first occurrence. *)
Lemma normalize_url_regroups_repeated_names :
  normalize_url "http://a.com/?a=1&b=2&a=3" = Some "http://a.com/?a=1&a=3&b=2"
  /\ items (filter_tracking (parse_qs "a=1&b=2&a=3")) <> surviving "a=1&b=2&a=3".
Proof.
  split; [vm_compute; reflexivity|].
  intros H. vm_compute in H. discriminate H.
Qed.

(** C8, amended.  [normalize_url] writes the parameters that are not
    tracking parameters grouped by name: the names come in the order of
    their first occurrence in the query string, and the values of one name
    keep their relative order.  When no surviving name is repeated, the
    parameters are written in the relative order they had in the input. *)
Theorem normalize_url_query_order (u : string) (parsed : ParseResult) :
  urlparse (strip u) = Some parsed ->
  exists (scheme' netloc' path' : string) (d : dict),
    normalize_url u
    = Some (urlunparse scheme' netloc' path' (params parsed)
              (join "&" (map encode_item (items d))) "")
    /\ map fst d = first_occurrences [] (map fst (surviving (query parsed)))
    /\ (forall k, named k (items d) = named k (surviving (query parsed)))
    /\ (NoDup (map fst (surviving (query parsed))) -> items d = surviving (query parsed)).
Proof.
  intros Hparsed.
  exists (if truthy (scheme parsed) then lower (scheme parsed) else "https"%string),
         (let netloc := lower (netloc parsed) in
          if startswith "www." netloc then drop 4 netloc else netloc),
         (if negb (String.eqb (path parsed) "/") then rstrip (Ascii.eqb "/") (path parsed)
          else path parsed),
         (filter_tracking (parse_qs (query parsed))).
  split; [|rewrite filter_tracking_parse_qs; split; [|split]].
  - unfold normalize_url. rewrite Hparsed. cbn [mbind option_bind].
    do 2 f_equal.
    destruct (filter_tracking (parse_qs (query parsed))) eqn:E; [reflexivity|].
    apply urlencode_items.
  - apply keys_grouped.
  - intros k. apply named_grouped.
  - apply items_grouped_NoDup.
Qed.

Lemma normalize_url_query_order_witness :
  urlparse (strip "https://Example.com/a?b=2&utm_source=x&a=1#top")
  = Some (mkParseResult "https" "Example.com" "/a" "" "b=2&utm_source=x&a=1" "top")
  /\ exists (scheme' netloc' path' : string) (d : dict),
    normalize_url "https://Example.com/a?b=2&utm_source=x&a=1#top"
    = Some (urlunparse scheme' netloc' path' ""
              (join "&" (map encode_item (items d))) "")
    /\ map fst d = first_occurrences [] (map fst (surviving "b=2&utm_source=x&a=1"))
    /\ (forall k, named k (items d) = named k (surviving "b=2&utm_source=x&a=1"))
    /\ (NoDup (map fst (surviving "b=2&utm_source=x&a=1"))
        -> items d = surviving "b=2&utm_source=x&a=1").
Proof.
  split; [vm_compute; reflexivity|].
  apply (normalize_url_query_order
           "https://Example.com/a?b=2&utm_source=x&a=1#top"
           (mkParseResult "https" "Example.com" "/a" "" "b=2&utm_source=x&a=1" "top")).
  vm_compute. reflexivity.
Defined.

(** Parameters with an empty value or without [=] are dropped by
    [parse_qs], whatever their name. *)
Example normalize_url_drops_blank_values :
  normalize_url "http://a.com/p?a=&b&c=1" = Some "http://a.com/p?c=1".
Proof. vm_compute. reflexivity. Qed.

(** URLs that differ by a leading [www.], by tracking parameters or by
    the fragment have one canonical form. *)
Lemma canonical_host_www n :
  startswith "www." (lower n) = false ->
  (if startswith "www." (lower ("www." ++ n)%string)
   then drop 4 (lower ("www." ++ n)%string) else lower ("www." ++ n)%string)
  = (if startswith "www." (lower n) then drop 4 (lower n) else lower n).
Proof.
  intros H.
  change (lower ("www." ++ n)%string) with ("www." ++ lower n)%string.
  change (startswith "www." ("www." ++ lower n)%string) with true. cbv iota.
  change (drop 4 ("www." ++ lower n)%string) with (lower n).
  now rewrite H.
Qed.

Lemma variants_normalize_alike (raw1 raw2 : string) (p1 p2 : ParseResult) :
  urlparse (strip raw1) = Some p1 ->
  urlparse (strip raw2) = Some p2 ->
  same_up_to_tracking_and_www p1 p2 ->
  exists canonical,
    normalize_url raw1 = Some canonical /\ normalize_url raw2 = Some canonical.
Proof.
  intros H1 H2 (Hs & Hn & Hp & Hpar & Hq).
  assert (Hhost :
    (if startswith "www." (lower (netloc p1)) then drop 4 (lower (netloc p1))
     else lower (netloc p1))
    = (if startswith "www." (lower (netloc p2)) then drop 4 (lower (netloc p2))
       else lower (netloc p2))).
  { destruct Hn as [-> | [[-> Hw] | [-> Hw]]].
    - reflexivity.
    - now rewrite canonical_host_www.
    - now rewrite canonical_host_www. }
  unfold normalize_url. rewrite H1, H2. cbn [mbind option_bind]. cbv zeta.
  rewrite !filter_tracking_parse_qs, Hs, Hp, Hpar, Hq, Hhost.
  eexists. split; reflexivity.
Qed.

Example www_on_www_is_another_host :
  normalize_url "http://www.www.a.com/" = Some "http://www.a.com/"
  /\ normalize_url "http://www.a.com/" = Some "http://a.com/".
Proof. vm_compute. split; reflexivity. Qed.
(** ** The monad *)

Lemma bind_inv {A B} (m : M A) (k : A -> M B) w r w' :
  bind m k w = (r, w') ->
  (exists a w1, m w = (Ok a, w1) /\ k a w1 = (r, w'))
  \/ (exists e, m w = (Raise e, w') /\ r = Raise e).
Proof.
  unfold bind. destruct (m w) as [[a | e] w1]; intros H.
  - left. eauto.
  - right. inversion H; subst. eauto.
Qed.

Lemma try_except_inv {A} (m : M A) (h : Exception -> M A) w r w' :
  try_except m h w = (r, w') ->
  (exists a, m w = (Ok a, w') /\ r = Ok a)
  \/ (exists e w1, m w = (Raise e, w1) /\ h e w1 = (r, w')).
Proof.
  unfold try_except. destruct (m w) as [[a | e] w1]; intros H.
  - left. inversion H; subst. eauto.
  - right. eauto.
Qed.

(** ** Status histories *)

Lemma row_advance_refl r : row_advance r r.
Proof. unfold row_advance. auto. Qed.

Lemma Forall2_row_advance_refl rows : Forall2 row_advance rows rows.
Proof. induction rows; constructor; auto using row_advance_refl. Qed.

Lemma Forall2_row_advance_trans a b c :
  Forall2 row_advance a b -> Forall2 row_advance b c -> Forall2 row_advance a c.
Proof.
  intros F1. revert c.
  induction F1 as [|x y l l' Hxy F1 IH]; intros c F2.
  - inversion F2. constructor.
  - inversion F2 as [|? z ? l'' Hyz F2']; subst. constructor; [|now apply IH].
    unfold row_advance in *. intuition congruence.
Qed.

Lemma log_ok_refl w : log_ok w w.
Proof. exists []. split; [now rewrite app_nil_r | constructor]. Qed.

Lemma log_ok_trans a b c : log_ok a b -> log_ok b c -> log_ok a c.
Proof.
  intros (e1 & H1 & F1) (e2 & H2 & F2). exists (e1 ++ e2).
  split; [now rewrite H2, H1, app_assoc | now apply Forall_app].
Qed.

Lemma advance_refl w : advance w w.
Proof. split; [apply log_ok_refl | apply Forall2_row_advance_refl]. Qed.

Lemma advance_trans a b c : advance a b -> advance b c -> advance a c.
Proof.
  intros [L1 A1] [L2 A2].
  split; [eapply log_ok_trans | eapply Forall2_row_advance_trans]; eauto.
Qed.

Lemma advance_evolve w w' : advance w w' -> evolve w w'.
Proof.
  intros [L A]. split; [assumption|].
  exists (news_links (db w')), []. split; [now rewrite app_nil_r | assumption].
Qed.

Lemma evolve_refl w : evolve w w.
Proof. apply advance_evolve, advance_refl. Qed.

Lemma evolve_trans a b c : evolve a b -> evolve b c -> evolve a c.
Proof.
  intros [L1 (k1 & a1 & E1 & F1)] [L2 (k2 & a2 & E2 & F2)].
  split; [eapply log_ok_trans; eauto|].
  rewrite E1 in F2. apply Forall2_app_inv_l in F2 as (k2a & k2b & F2a & F2b & ->).
  exists k2a, (k2b ++ a2). split; [now rewrite E2, app_assoc|].
  eapply Forall2_row_advance_trans; eauto.
Qed.

Lemma same_links_advance w w' : same_links w w' -> advance w w'.
Proof.
  intros [Hl Hs]. split.
  - exists []. split; [now rewrite app_nil_r | constructor].
  - rewrite Hl. apply Forall2_row_advance_refl.
Qed.

Lemma same_links_refl w : same_links w w.
Proof. split; reflexivity. Qed.

Lemma same_links_trans a b c : same_links a b -> same_links b c -> same_links a c.
Proof. unfold same_links. intros [-> ->] [-> ->]. auto. Qed.

Lemma same_links_all_processing i w w' :
  same_links w w' -> all_processing i w -> all_processing i w'.
Proof. unfold all_processing. intros [-> _]. auto. Qed.

(** ** What the primitives do to the links *)

Lemma transaction_inv {A} (body : Z -> Tables -> A * Tables + string) w r w' :
  transaction body w = (r, w') ->
  status_log w' = status_log w /\ processor_log w' = processor_log w
  /\ clock w' = clock w /\ domain_last_request w' = domain_last_request w
  /\ faults w' = tl (faults w)
  /\ ((exists e, r = Raise e /\ db w' = db w)
      \/ (exists a, r = Ok a /\ body (clock w) (db w) = inl (a, db w'))).
Proof.
  unfold transaction. intros H.
  destruct (faults w) as [|[] fs] eqn:Ef;
    try (destruct (body (clock w) (db w)) as [[a t]|msg] eqn:Eb);
    inversion H; subst; cbn; repeat split; eauto.
Qed.

Lemma sleep_same ms w r w' : sleep ms w = (r, w') -> r = Ok tt /\ same_links w w'.
Proof. unfold sleep. intros H. inversion H; subst. split; [reflexivity | split; reflexivity]. Qed.

Lemma process_same p u w r w' : process p u w = (r, w') -> same_links w w'.
Proof.
  unfold process. destruct (p (processor_log w) u); intros H; inversion H; subst; split; reflexivity.
Qed.

Lemma _apply_rate_limit_same d w r w' :
  _apply_rate_limit d w = (r, w') -> r = Ok tt /\ same_links w w'.
Proof.
  unfold _apply_rate_limit, bind. intros H.
  destruct (domain_last_request w !! d) as [last|].
  - destruct (clock w - last <? seconds SAME_DOMAIN_DELAY)%Z; cbn in H;
      inversion H; subst; split; try reflexivity; split; reflexivity.
  - inversion H; subst; split; try reflexivity; split; reflexivity.
Qed.

(** What [save_processed_content] does to the world *)
Lemma save_processed_content_inv i t c tc md w r w' :
  save_processed_content i t c tc md w = (r, w') ->
  status_log w' = status_log w /\ processor_log w' = processor_log w
  /\ clock w' = clock w /\ domain_last_request w' = domain_last_request w
  /\ faults w' = tl (faults w)
  /\ news_links (db w') = news_links (db w)
  /\ news_links_id_seq (db w') = news_links_id_seq (db w)
  /\ query_tasks (db w') = query_tasks (db w)
  /\ query_tasks_id_seq (db w') = query_tasks_id_seq (db w)
  /\ ((exists e, r = Raise e /\ processed_content (db w') = processed_content (db w))
      \/ (r = Ok tt
          /\ existsb (fun r => (nl_id r =? i)%Z) (news_links (db w)) = true
          /\ db w'
             = set_processed_content
                 (if existsb (fun x => (pc_link_id x =? i)%Z) (processed_content (db w))
                  then map (fun x =>
                              if (pc_link_id x =? i)%Z
                              then mkProcessedContent (pc_id x) i t c tc None None None
                                                      (Json_or_None md) (pc_created_at x)
                                                      (clock w)
                              else x)
                           (processed_content (db w))
                  else processed_content (db w)
                       ++ [mkProcessedContent (processed_content_id_seq (db w) + 1) i t c tc
                                              None None None (Json_or_None md)
                                              (clock w) (clock w)])
                 (processed_content_id_seq (db w) + 1) (db w))).
Proof.
  unfold save_processed_content. intros H.
  apply bind_inv in H as [(stored & w1 & Ht & Hk) | (e & Ht & ->)].
  - apply transaction_inv in Ht as (Hs & Hl & Hc & Hd & Hf & [(e & He & _) | (a & Ha & Hb)]);
      [discriminate|].
    inversion Ha; subst a. clear Ha.
    destruct (existsb (fun r => (nl_id r =? i)%Z) (news_links (db w))) eqn:El;
      cbn [negb] in Hb.
    + destruct (existsb _ (processed_content (db w))) eqn:Ec;
        inversion Hb as [[Hst Hdb]]; subst stored; inversion Hk; subst;
        rewrite <- Hdb; cbn; repeat split; auto; right; auto.
    + inversion Hb as [[Hst Hdb]]; subst stored; inversion Hk; subst;
        rewrite <- Hdb; cbn; repeat split; auto; left; eauto.
  - apply transaction_inv in Ht as (Hs & Hl & Hc & Hd & Hf & [(e' & _ & Hdb) | (a & Ha & _)]);
      [|discriminate].
    rewrite Hdb. repeat split; auto. left. eauto.
Qed.

Lemma save_processed_content_same i t c tc md w r w' :
  save_processed_content i t c tc md w = (r, w') -> same_links w w'.
Proof.
  intros H. apply save_processed_content_inv in H as (Hs & _ & _ & _ & _ & Hl & _).
  split; assumption.
Qed.

Lemma read_same {A} (f : Tables -> A) w r w' :
  transaction (fun _ t => inl (f t, t)) w = (r, w') -> same_links w w' /\ db w' = db w.
Proof.
  intros H. apply transaction_inv in H as (Hs & _ & _ & _ & _ & [(e & -> & Hdb) | (a & -> & Hb)]).
  - split; [split|]; congruence.
  - inversion Hb. split; [split|]; congruence.
Qed.

Lemma update_link_status_inv i s err w r w' :
  update_link_status i s err w = (r, w') ->
  (exists e, r = Raise e /\ same_links w w')
  \/ (r = Ok tt
      /\ news_links (db w') = map (set_status i s err (clock w)) (news_links (db w))
      /\ status_log w'
         = status_log w
           ++ map (fun r => (nl_id r, nl_status r, s))
                  (List.filter (fun r => (nl_id r =? i)%Z) (news_links (db w)))).
Proof.
  unfold update_link_status. intros H.
  destruct (transaction _ w) as [r1 w1] eqn:E.
  pose proof (transaction_inv _ _ _ _ E) as (Hs & _ & _ & _ & _ & Hcase).
  destruct r1 as [[]|e]; inversion H; subst; clear H.
  - right. destruct Hcase as [(e' & He & _) | (a & _ & Hb)]; [discriminate|].
    inversion Hb as [Ht]. cbn. rewrite Hs. auto.
  - left. destruct Hcase as [(e' & _ & Hdb) | (a & Ha & _)]; [|discriminate].
    exists e. split; [reflexivity | split; congruence].
Qed.

Lemma set_status_advance i s err now rows :
  s <> Pending -> Forall2 row_advance rows (map (set_status i s err now) rows).
Proof.
  intros Hs. induction rows as [|r rows IH]; constructor; [|assumption].
  unfold set_status, row_advance. destruct (nl_id r =? i)%Z; cbn; intuition congruence.
Qed.

Lemma update_link_status_advance i s err w r w' :
  s = Processing \/ (is_terminal s = true /\ all_processing i w) ->
  update_link_status i s err w = (r, w') -> advance w w'.
Proof.
  intros Hs H. apply update_link_status_inv in H as [(e & -> & Hsame) | (-> & Hl & Hlog)].
  - now apply same_links_advance.
  - split.
    + eexists. split; [exact Hlog|].
      apply Forall_map, Forall_forall. intros x Hx. apply filter_In in Hx as [Hin Hid].
      apply Z.eqb_eq in Hid. cbn.
      destruct Hs as [-> | [Ht Hall]]; [now left | right].
      split; [now apply Hall|]. destruct s; cbn in Ht; try discriminate; auto.
    + rewrite Hl. apply set_status_advance.
      destruct Hs as [-> | [Ht _]]; [discriminate | destruct s; cbn in Ht; discriminate].
Qed.

Lemma update_link_status_processing i err w w' :
  update_link_status i Processing err w = (Ok tt, w') -> all_processing i w'.
Proof.
  intros H. apply update_link_status_inv in H as [(e & He & _) | (_ & Hl & _)]; [discriminate|].
  intros r Hr Hid. rewrite Hl in Hr. apply in_map_iff in Hr as (r0 & <- & _).
  unfold set_status in *. destruct (nl_id r0 =? i)%Z eqn:E; [reflexivity|].
  apply Z.eqb_neq in E. contradiction.
Qed.

(** ** The retry loop *)

Lemma attempt_link_links self link attempt w r w' :
  all_processing (link_id link) w ->
  attempt_link self link attempt w = (r, w') ->
  advance w w' /\ (r = Ok None -> all_processing (link_id link) w').
Proof.
  intros Hall H. unfold attempt_link in H.
  apply try_except_inv in H as [(a & Hbody & ->) | (e & w1 & Hbody & Hh)].
  - (* the body returned *)
    destruct (ai_processor self) as [p|].
    + apply bind_inv in Hbody as [(res & w1 & Hp & Hk) | (e & _ & He)]; [|discriminate].
      apply process_same in Hp.
      destruct res as [res|]; [destruct (result_success res) eqn:Es|].
      * apply bind_inv in Hk as [([] & w2 & Hsave & Hk) | (e & _ & He)]; [|discriminate].
        apply save_processed_content_same in Hsave.
        apply bind_inv in Hk as [([] & w3 & Hup & Hk) | (e & _ & He)]; [|discriminate].
        inversion Hk; subst. split; [|discriminate].
        eapply advance_trans; [apply same_links_advance; eapply same_links_trans; eauto|].
        eapply update_link_status_advance; [|exact Hup]. right. split; [reflexivity|].
        eapply same_links_all_processing; [|exact Hall]. eapply same_links_trans; eauto.
      * inversion Hk; subst. split; [now apply same_links_advance|].
        intros _. eapply same_links_all_processing; eauto.
      * inversion Hk; subst. split; [now apply same_links_advance|].
        intros _. eapply same_links_all_processing; eauto.
    + apply bind_inv in Hbody as [([] & w1 & Hsl & Hk) | (e & _ & He)]; [|discriminate].
      apply sleep_same in Hsl as [_ Hsl].
      apply bind_inv in Hk as [([] & w2 & Hup & Hk) | (e & _ & He)]; [|discriminate].
      inversion Hk; subst. split; [|discriminate].
      eapply advance_trans; [apply same_links_advance; eauto|].
      eapply update_link_status_advance; [|exact Hup]. right. split; [reflexivity|].
      eapply same_links_all_processing; eauto.
  - (* the body raised: nothing was written to the links *)
    assert (Hsame : same_links w w1).
    { destruct (ai_processor self) as [p|].
      - apply bind_inv in Hbody as [(res & w2 & Hp & Hk) | (e' & Hp & He)];
          [|now apply process_same in Hp].
        apply process_same in Hp.
        destruct res as [res|]; [destruct (result_success res)|]; try discriminate.
        apply bind_inv in Hk as [([] & w3 & Hsave & Hk) | (e' & Hsave & He)];
          [|apply save_processed_content_same in Hsave; eapply same_links_trans; eauto].
        apply save_processed_content_same in Hsave.
        apply bind_inv in Hk as [([] & w4 & Hup & Hk) | (e' & Hup & He)]; [discriminate|].
        apply update_link_status_inv in Hup as [(e'' & _ & Hs) | (Habs & _)]; [|discriminate].
        eapply same_links_trans; [eauto|]. eapply same_links_trans; eauto.
      - apply bind_inv in Hbody as [([] & w2 & Hsl & Hk) | (e' & Hsl & He)];
          [|apply sleep_same in Hsl as [Habs _]; discriminate].
        apply sleep_same in Hsl as [_ Hsl].
        apply bind_inv in Hk as [([] & w4 & Hup & Hk) | (e' & Hup & He)]; [discriminate|].
        apply update_link_status_inv in Hup as [(e'' & _ & Hs) | (Habs & _)]; [|discriminate].
        eapply same_links_trans; eauto. }
    destruct (Nat.eqb attempt MAX_RETRIES).
    + apply bind_inv in Hh as [([] & w2 & Hup & Hk) | (e' & Hup & ->)].
      * inversion Hk; subst. split; [|discriminate].
        eapply advance_trans; [apply same_links_advance; eauto|].
        eapply update_link_status_advance; [|exact Hup]. right. split; [reflexivity|].
        eapply same_links_all_processing; eauto.
      * split; [|discriminate].
        eapply advance_trans; [apply same_links_advance; eauto|].
        eapply update_link_status_advance; [|exact Hup]. right. split; [reflexivity|].
        eapply same_links_all_processing; eauto.
    + apply bind_inv in Hh as [([] & w2 & Hsl & Hk) | (e' & Hsl & ->)];
        [|apply sleep_same in Hsl as [Habs _]; discriminate].
      apply sleep_same in Hsl as [_ Hsl]. inversion Hk; subst.
      split; [apply same_links_advance; eapply same_links_trans; eauto|].
      intros _. eapply same_links_all_processing; [|exact Hall].
      eapply same_links_trans; eauto.
Qed.

Lemma retry_loop_advance self link attempts : forall w r w',
  all_processing (link_id link) w ->
  retry_loop self link attempts w = (r, w') -> advance w w'.
Proof.
  induction attempts as [|attempt rest IH]; intros w r w' Hall H; cbn [retry_loop] in H.
  - inversion H; subst. apply advance_refl.
  - apply bind_inv in H as [(a & w1 & Ha & Hk) | (e & Ha & ->)].
    + apply attempt_link_links in Ha as [Hadv Hnone]; [|assumption].
      destruct a as [b|].
      * inversion Hk; subst. assumption.
      * eapply advance_trans; [exact Hadv|]. eapply IH; [|exact Hk]. now apply Hnone.
    + now apply attempt_link_links in Ha as [Hadv _].
Qed.

Lemma process_links_advance self domain links : forall stats w r w',
  process_links self domain links stats w = (r, w') -> advance w w'.
Proof.
  induction links as [|link rest IH]; intros stats w r w' H; cbn [process_links] in H.
  - inversion H; subst. apply advance_refl.
  - apply bind_inv in H as [([] & w1 & Hrl & Hk) | (e & Hrl & ->)];
      [|apply _apply_rate_limit_same in Hrl as [Habs _]; discriminate].
    apply _apply_rate_limit_same in Hrl as [_ Hrl].
    eapply advance_trans; [apply same_links_advance; exact Hrl|].
    apply bind_inv in Hk as [([] & w2 & Hup & Hk) | (e & Hup & ->)];
      [|eapply update_link_status_advance; [now left | exact Hup]].
    eapply advance_trans; [eapply update_link_status_advance; [now left | exact Hup]|].
    apply update_link_status_processing in Hup.
    apply bind_inv in Hk as [(ok & w3 & Hp & Hk) | (e & Hp & ->)];
      [|eapply retry_loop_advance; eauto].
    eapply advance_trans; [eapply retry_loop_advance; eauto|].
    eapply IH; eauto.
Qed.

(** ** The pool of workers *)

Lemma submit_all_ran self groups : forall w,
  exists futures w', submit_all self groups w = (Ok futures, w') /\ ran self groups w futures w'.
Proof.
  induction groups as [|[domain links] rest IH]; intros w.
  - exists [], w. split; [reflexivity | constructor].
  - cbn [submit_all]. unfold bind at 1, capture.
    destruct (_process_domain self domain links w) as [future w1] eqn:E.
    destruct (IH w1) as (futures & w2 & Hs & Hr).
    exists ((domain, future) :: futures), w2. split.
    + unfold bind. rewrite Hs. reflexivity.
    + econstructor; eauto.
Qed.

Lemma ran_keys self groups w futures w' :
  ran self groups w futures w' -> map fst futures = map fst groups.
Proof. induction 1; cbn; congruence. Qed.

Lemma ran_advance self groups w futures w' :
  ran self groups w futures w' -> advance w w'.
Proof.
  induction 1 as [|domain links rest w future w1 futures w2 Hd _ IH].
  - apply advance_refl.
  - eapply advance_trans; [|exact IH]. eapply process_links_advance. exact Hd.
Qed.

Lemma add_stats_comm a b : add_stats a b = add_stats b a.
Proof. unfold add_stats. f_equal; lia. Qed.

Lemma add_stats_assoc a b c : add_stats a (add_stats b c) = add_stats (add_stats a b) c.
Proof. unfold add_stats. cbn. f_equal; lia. Qed.

Lemma add_stats_no_stats a : add_stats a no_stats = a.
Proof. destruct a. unfold add_stats. cbn. f_equal; lia. Qed.

Lemma sum_stats_Permutation l l' : Permutation l l' -> sum_stats l = sum_stats l'.
Proof.
  unfold sum_stats. induction 1; cbn [fold_right]; try congruence.
  rewrite !add_stats_assoc. f_equal. apply add_stats_comm.
Qed.

Lemma collect_fold futures : forall tot (bd : gmap string DomainStats),
  fold_left collect futures (tot, bd)
  = (add_stats tot (sum_stats (map snd (returned futures))),
     fold_left (fun m e => <[fst e := snd e]> m) (returned futures) bd).
Proof.
  induction futures as [|[d [s|e]] futures IH]; intros tot bd; cbn [fold_left collect].
  - cbn [returned flat_map map sum_stats fold_right fold_left]. now rewrite add_stats_no_stats.
  - rewrite IH. cbn [returned flat_map app map snd fst sum_stats fold_right fold_left].
    now rewrite add_stats_assoc.
  - rewrite IH. reflexivity.
Qed.

Lemma inserts_lookup (l : list (string * DomainStats)) : forall (bd : gmap string DomainStats) d,
  NoDup (map fst l) ->
  fold_left (fun m e => <[fst e := snd e]> m) l bd !! d
  = match List.find (fun e => String.eqb (fst e) d) l with
    | Some e => Some (snd e)
    | None => bd !! d
    end.
Proof.
  induction l as [|[k s] l IH]; intros bd d ND; cbn [fold_left List.find fst snd]; [reflexivity|].
  inversion ND as [|? ? Hk ND']; subst.
  rewrite IH by assumption.
  destruct (String.eqb k d) eqn:E.
  - apply String.eqb_eq in E. subst k.
    destruct (List.find _ l) as [e|] eqn:Ef.
    + apply find_some in Ef as [Hin He]. apply String.eqb_eq in He.
      exfalso. apply Hk. rewrite <- He. now apply in_map.
    + apply lookup_insert_eq.
  - apply String.eqb_neq in E. destruct (List.find _ l); [reflexivity|].
    now apply lookup_insert_ne.
Qed.

Lemma returned_keys futures d s :
  In (d, s) (returned futures) <-> In (d, Ok s) futures.
Proof.
  induction futures as [|[k [s'|e]] futures IH]; cbn; [tauto | |].
  - rewrite IH. split; intros [H|H]; auto; left; congruence.
  - rewrite IH. split; [auto | intros [H|H]; [discriminate | assumption]].
Qed.

Lemma returned_NoDup futures :
  NoDup (map fst futures) -> NoDup (map fst (returned futures)).
Proof.
  induction futures as [|[k [s|e]] futures IH]; cbn; intros ND; [constructor | |];
    inversion ND as [|? ? Hk ND']; subst.
  - constructor; [|now apply IH].
    intros Hin. apply Hk. apply in_map_iff in Hin as ([k' s'] & Hk' & Hin). cbn in Hk'. subst k'.
    apply returned_keys in Hin. apply in_map_iff. now exists (k, Ok s').
  - now apply IH.
Qed.

Lemma find_key_NoDup (l : list (string * DomainStats)) d s :
  NoDup (map fst l) ->
  (List.find (fun e => String.eqb (fst e) d) l = Some (d, s) <-> In (d, s) l).
Proof.
  induction l as [|[k s'] l IH]; cbn [List.find map fst]; intros ND; [cbn; split; [discriminate|tauto]|].
  inversion ND as [|? ? Hk ND']; subst.
  destruct (String.eqb k d) eqn:E.
  - apply String.eqb_eq in E. subst k. split.
    + intros H. inversion H. now left.
    + intros [H | H]; [congruence|]. exfalso. apply Hk. apply in_map_iff. now exists (d, s).
  - apply String.eqb_neq in E. rewrite IH by assumption. split; [now right|].
    intros [H | H]; [congruence | assumption].
Qed.

Lemma inserts_lookup_iff (l : list (string * DomainStats)) d s :
  NoDup (map fst l) ->
  (fold_left (fun m e => <[fst e := snd e]> m) l (∅ : gmap string DomainStats) !! d = Some s
   <-> In (d, s) l).
Proof.
  intros ND. rewrite inserts_lookup by assumption.
  rewrite <- (find_key_NoDup _ d s ND).
  destruct (List.find _ l) as [[k s']|] eqn:Ef.
  - apply find_some in Ef as [_ He]. apply String.eqb_eq in He. cbn in He. subst k.
    cbn. split; congruence.
  - rewrite lookup_empty. split; discriminate.
Qed.

(** The statistics do not depend on the order in which the futures
    complete. *)
Lemma collect_Permutation (futures futures' : list (string * Res DomainStats)) :
  NoDup (map fst futures) ->
  Permutation futures futures' ->
  fold_left collect futures' (no_stats, ∅) = fold_left collect futures (no_stats, ∅).
Proof.
  intros ND HP. rewrite !collect_fold.
  assert (ND' : NoDup (map fst futures'))
    by (eapply Permutation_NoDup; [apply Permutation_map; exact HP | exact ND]).
  f_equal.
  - f_equal. apply sum_stats_Permutation, Permutation_map, Permutation_flat_map.
    now symmetry.
  - apply map_eq. intros d. apply option_eq. intros s.
    rewrite !inserts_lookup_iff by now apply returned_NoDup.
    rewrite !returned_keys. split; apply Permutation_in; [now symmetry | assumption].
Qed.

(** What [_process_domains] returns, from the futures *)
Lemma _process_domains_stats self groups w :
  NoDup (map fst groups) ->
  exists futures w' tot bd,
    ran self groups w futures w'
    /\ _process_domains self groups w = (Ok (mkStats tot (Some bd)), w')
    /\ (forall d s, bd !! d = Some s <-> In (d, Ok s) futures)
    /\ tot = sum_stats (map snd (returned futures))
    /\ tot = sum_stats (map snd (map_to_list bd)).
Proof.
  intros ND. destruct (submit_all_ran self groups w) as (futures & w' & Hs & Hran).
  pose proof (ran_keys _ _ _ _ _ Hran) as Hkeys.
  assert (NDf : NoDup (map fst (returned futures))).
  { apply returned_NoDup. now rewrite Hkeys. }
  set (bd := fold_left (fun m e => <[fst e := snd e]> m) (returned futures)
                       (∅ : gmap string DomainStats)).
  assert (Hbd : forall d s, bd !! d = Some s <-> In (d, Ok s) futures).
  { intros d s. unfold bd. rewrite inserts_lookup_iff by assumption.
    apply returned_keys. }
  exists futures, w', (sum_stats (map snd (returned futures))), bd.
  split; [assumption | split; [|split; [assumption | split; [reflexivity|]]]].
  - unfold _process_domains, bind. rewrite Hs, collect_fold. fold bd.
    unfold ret. do 3 f_equal. unfold add_stats, no_stats. cbn.
    now destruct (sum_stats _).
  - apply sum_stats_Permutation, Permutation_map.
    apply NoDup_Permutation.
    + eapply NoDup_map_inv. exact NDf.
    + apply NoDup_ListNoDup, NoDup_map_to_list.
    + intros [d s]. rewrite returned_keys, <- Hbd.
      rewrite <- list_elem_of_In, elem_of_map_to_list. reflexivity.
Qed.

Lemma process_links_counts self domain links : forall stats w s w',
  process_links self domain links stats w = (Ok s, w') ->
  total s = total stats
  /\ success s + failed s = success stats + failed stats + length links
  /\ skipped s = skipped stats.
Proof.
  induction links as [|link rest IH]; intros stats w s w' H; cbn [process_links] in H.
  - inversion H; subst. cbn. lia.
  - apply bind_inv in H as [([] & w1 & _ & Hk) | (e & _ & He)]; [|discriminate].
    apply bind_inv in Hk as [([] & w2 & _ & Hk) | (e & _ & He)]; [|discriminate].
    apply bind_inv in Hk as [(ok & w3 & _ & Hk) | (e & _ & He)]; [|discriminate].
    apply IH in Hk. destruct ok; cbn in Hk; cbn [length]; lia.
Qed.

Lemma NoDup_keys_functional {A} (l : list (string * A)) d a b :
  NoDup (map fst l) -> In (d, a) l -> In (d, b) l -> a = b.
Proof.
  induction l as [|[k x] l IH]; cbn; intros ND Ha Hb; [contradiction|].
  inversion ND as [|? ? Hk ND']; subst.
  destruct Ha as [Ha | Ha], Hb as [Hb | Hb]; try congruence.
  - inversion Ha; subst. exfalso. apply Hk. apply in_map_iff. now exists (d, b).
  - inversion Hb; subst. exfalso. apply Hk. apply in_map_iff. now exists (d, a).
  - now apply IH.
Qed.

Lemma _process_domains_advance self groups w r w' :
  _process_domains self groups w = (r, w') -> advance w w'.
Proof.
  intros H. destruct (submit_all_ran self groups w) as (futures & w1 & Hs & Hran).
  unfold _process_domains, bind in H. rewrite Hs in H.
  destruct (fold_left collect futures (no_stats, ∅)) as [tot bd].
  inversion H; subst. eapply ran_advance. exact Hran.
Qed.

Lemma get_links_by_ids_same ids w r w' :
  get_links_by_ids ids w = (r, w') -> same_links w w'.
Proof. unfold get_links_by_ids. intros H. now apply read_same in H. Qed.

Lemma get_pending_links_same limit w r w' :
  get_pending_links limit w = (r, w') -> same_links w w'.
Proof. unfold get_pending_links. intros H. now apply read_same in H. Qed.

Lemma process_specific_links_advance self ids w r w' :
  process_specific_links self ids w = (r, w') -> advance w w'.
Proof.
  unfold process_specific_links. intros H.
  apply bind_inv in H as [(links & w1 & Hg & Hk) | (e & Hg & ->)];
    [|apply same_links_advance; eapply get_links_by_ids_same; eauto].
  apply get_links_by_ids_same in Hg.
  eapply advance_trans; [apply same_links_advance; exact Hg|].
  destruct links.
  - inversion Hk; subst. apply advance_refl.
  - eapply _process_domains_advance; eauto.
Qed.

Lemma process_pending_links_advance self limit w r w' :
  process_pending_links self limit w = (r, w') -> advance w w'.
Proof.
  unfold process_pending_links. intros H.
  apply bind_inv in H as [(links & w1 & Hg & Hk) | (e & Hg & ->)];
    [|apply same_links_advance; eapply get_pending_links_same; eauto].
  apply get_pending_links_same in Hg.
  eapply advance_trans; [apply same_links_advance; exact Hg|].
  destruct links.
  - inversion Hk; subst. apply advance_refl.
  - eapply _process_domains_advance; eauto.
Qed.

(** ** The orchestrator *)

Lemma insert_news_link_inv u h task w r w' :
  insert_news_link u h task w = (r, w') ->
  status_log w' = status_log w
  /\ (news_links (db w') = news_links (db w)
      \/ exists row, news_links (db w') = news_links (db w) ++ [row]).
Proof.
  unfold insert_news_link. intros H.
  apply transaction_inv in H as (Hs & _ & _ & _ & _ & [(e & -> & Hdb) | (a & -> & Hb)]).
  - split; [assumption | left; congruence].
  - split; [assumption|].
    destruct (Nat.ltb 255 _); [discriminate|].
    destruct (existsb _ _); inversion Hb as [[Ha Ht]]; cbn; eauto.
Qed.

Lemma insert_news_link_evolve u h task w r w' :
  insert_news_link u h task w = (r, w') -> evolve w w'.
Proof.
  intros H. apply insert_news_link_inv in H as (Hs & [Hl | (row & Hl)]).
  - apply advance_evolve, same_links_advance. split; assumption.
  - split.
    + exists []. split; [now rewrite app_nil_r | constructor].
    + exists (news_links (db w)), [row]. split; [assumption|].
      apply Forall2_row_advance_refl.
Qed.

Lemma url_exists_same h w r w' : url_exists h w = (r, w') -> same_links w w'.
Proof. unfold url_exists. intros H. now apply read_same in H. Qed.

Lemma process_urls_from_evolve task todo : forall acc w r w',
  process_urls_from acc task todo w = (r, w') -> evolve w w'.
Proof.
  induction todo as [|u rest IH]; intros acc w r w' H; cbn [process_urls_from] in H.
  - inversion H; subst. apply evolve_refl.
  - destruct (negb (is_valid_url u)); [eapply IH; eauto|].
    destruct (normalize_url u) as [c|]; [|inversion H; subst; apply evolve_refl].
    apply bind_inv in H as [(seen & w1 & He & Hk) | (e & He & ->)];
      [|apply advance_evolve, same_links_advance; eapply url_exists_same; eauto].
    apply url_exists_same in He.
    eapply evolve_trans; [apply advance_evolve, same_links_advance; exact He|].
    destruct seen; [eapply IH; eauto|].
    apply bind_inv in Hk as [(i & w2 & Hi & Hk) | (e & Hi & ->)];
      [|eapply insert_news_link_evolve; eauto].
    eapply evolve_trans; [eapply insert_news_link_evolve; eauto|].
    destruct i as [i|]; [destruct (i =? 0)%Z|]; eapply IH; eauto.
Qed.

Lemma update_task_run_stats_same task n w r w' :
  update_task_run_stats task n w = (r, w') -> same_links w w'.
Proof.
  unfold update_task_run_stats. intros H.
  apply transaction_inv in H as (Hs & _ & _ & _ & _ & [(e & -> & Hdb) | (a & -> & Hb)]).
  - split; congruence.
  - inversion Hb as [[Ht Hdb]]. split; [now rewrite <- Hdb | assumption].
Qed.

Lemma execute_search_evolve self prompt task w r w' :
  execute_search self prompt task w = (r, w') -> evolve w w'.
Proof.
  unfold execute_search. intros H.
  destruct (search self prompt) as [found|]; [|inversion H; subst; apply evolve_refl].
  apply bind_inv in H as [(res & w1 & Hp & Hk) | (e & Hp & ->)];
    [|eapply process_urls_from_evolve; eauto].
  eapply evolve_trans; [eapply process_urls_from_evolve; eauto|].
  apply bind_inv in Hk as [([] & w2 & Hu & Hk) | (e & Hu & ->)];
    [|apply advance_evolve, same_links_advance; eapply update_task_run_stats_same; eauto].
  apply update_task_run_stats_same in Hu.
  eapply evolve_trans; [apply advance_evolve, same_links_advance; exact Hu|].
  destruct (processor_worker self) as [worker|];
    [|inversion Hk; subst; apply evolve_refl].
  destruct (AUTO_PROCESS_AFTER_SEARCH && Nat.ltb 0 (new_links res));
    [|inversion Hk; subst; apply evolve_refl].
  apply bind_inv in Hk as [(st & w3 & Hps & Hk) | (e & Hps & ->)];
    [|eapply advance_evolve, process_specific_links_advance; eauto].
  inversion Hk; subst. eapply advance_evolve, process_specific_links_advance; eauto.
Qed.

Lemma run_task_evolve self task w r w' :
  run_task self task w = (r, w') -> evolve w w'.
Proof.
  unfold run_task. intros H.
  apply bind_inv in H as [(t & w1 & Hg & Hk) | (e & Hg & ->)].
  - unfold get_query_task in Hg. apply read_same in Hg as [Hg _].
    eapply evolve_trans; [apply advance_evolve, same_links_advance; exact Hg|].
    destruct t as [t|]; [destruct (negb (qt_is_active t))|];
      try (inversion Hk; subst; apply evolve_refl).
    eapply execute_search_evolve; eauto.
  - unfold get_query_task in Hg. apply read_same in Hg as [Hg _].
    now apply advance_evolve, same_links_advance.
Qed.

(** ** The store when no transaction fails *)

Lemma bind_ok {A B} (m : M A) (k : A -> M B) w a w1 :
  m w = (Ok a, w1) -> bind m k w = k a w1.
Proof. unfold bind. now intros ->. Qed.

Lemma set_db_same w : set_db (db w) w = w.
Proof. now destruct w. Qed.

Lemma transaction_ok {A} (body : Z -> Tables -> A * Tables + string) w a t :
  faults w = [] -> body (clock w) (db w) = inl (a, t) ->
  transaction body w = (Ok a, set_db t w).
Proof. unfold transaction, set_db. intros -> ->. reflexivity. Qed.

Lemma url_exists_ok h w :
  faults w = [] -> url_exists h w = (Ok (known h (news_links (db w))), w).
Proof.
  intros Hf. unfold url_exists. erewrite transaction_ok; [|assumption|reflexivity].
  now rewrite set_db_same.
Qed.

Lemma insert_news_link_unseen u task w :
  faults w = [] -> String.length task <= 255 ->
  known (hash_url u) (news_links (db w)) = false ->
  insert_news_link u (hash_url u) task w
  = (Ok (Some (news_links_id_seq (db w) + 1)%Z),
     set_db (set_news_links
               (news_links (db w)
                  ++ [pending_row (news_links_id_seq (db w) + 1) u task (clock w)])
               (news_links_id_seq (db w) + 1) (db w)) w).
Proof.
  intros Hf Hlen Hk. unfold insert_news_link.
  erewrite transaction_ok; [reflexivity | assumption |].
  cbn beta. replace (Nat.ltb 255 (String.length task)) with false
    by (symmetry; apply Nat.ltb_ge; lia).
  fold (known (hash_url u) (news_links (db w))). rewrite Hk. reflexivity.
Qed.

Lemma insert_news_link_seen u h task w :
  faults w = [] -> String.length task <= 255 ->
  known h (news_links (db w)) = true ->
  insert_news_link u h task w
  = (Ok None,
     set_db (set_news_links (news_links (db w)) (news_links_id_seq (db w) + 1) (db w)) w).
Proof.
  intros Hf Hlen Hk. unfold insert_news_link.
  erewrite transaction_ok; [reflexivity | assumption |].
  cbn beta. replace (Nat.ltb 255 (String.length task)) with false
    by (symmetry; apply Nat.ltb_ge; lia).
  fold (known h (news_links (db w))). rewrite Hk. reflexivity.
Qed.

Lemma known_after_insert u task i now rows :
  known (hash_url u) (rows ++ [pending_row i u task now]) = true.
Proof.
  unfold known. rewrite existsb_app. cbn [existsb pending_row nl_url_hash].
  rewrite String.eqb_refl. now rewrite orb_true_r.
Qed.

Lemma get_query_task_ok name w :
  hd false (faults w) = false ->
  exists w',
    get_query_task name w
    = (Ok (List.find (fun q => String.eqb (qt_task_name q) name) (query_tasks (db w))), w')
    /\ db w' = db w /\ faults w' = tl (faults w).
Proof.
  intros Hf. unfold get_query_task, transaction.
  destruct (faults w) as [|[] fs] eqn:E; try discriminate; eexists; split; try reflexivity;
    split; reflexivity.
Qed.

Lemma update_task_run_stats_ok name n w :
  faults w = [] ->
  exists w',
    update_task_run_stats name n w = (Ok tt, w')
    /\ news_links (db w') = news_links (db w) /\ faults w' = []
    /\ status_log w' = status_log w.
Proof.
  intros Hf. unfold update_task_run_stats.
  erewrite transaction_ok; [|assumption|reflexivity].
  eexists. split; [reflexivity|]. cbn. auto.
Qed.

Lemma update_link_status_ok i s err w :
  faults w = [] ->
  update_link_status i s err w
  = (Ok tt,
     mkWorld (set_news_links (map (set_status i s err (clock w)) (news_links (db w)))
                             (news_links_id_seq (db w)) (db w))
             [] (clock w) (domain_last_request w) (processor_log w)
             (status_log w
                ++ map (fun r => (nl_id r, nl_status r, s))
                       (List.filter (fun r => (nl_id r =? i)%Z) (news_links (db w))))).
Proof.
  intros Hf. unfold update_link_status.
  erewrite transaction_ok; [|assumption|reflexivity].
  unfold set_db. cbn. now rewrite Hf.
Qed.

(** ** Partitions *)

Lemma keys_group_append d link groups :
  map fst (group_append d link groups)
  = if in_list d (map fst groups) then map fst groups else map fst groups ++ [d].
Proof.
  induction groups as [|[k links] groups IH]; [reflexivity|].
  cbn [group_append map fst in_list existsb]. rewrite (String.eqb_sym d k).
  destruct (String.eqb k d); cbn [map fst orb]; [reflexivity|].
  rewrite IH. fold (in_list d (map fst groups)).
  now destruct (in_list d (map fst groups)).
Qed.

Lemma _group_by_domain_NoDup links : NoDup (map fst (_group_by_domain links)).
Proof.
  unfold _group_by_domain.
  assert (H : forall groups, NoDup (map fst groups) ->
            NoDup (map fst (fold_left
              (fun groups link => group_append (extract_domain (link_url link)) link groups)
              links groups))).
  { induction links as [|link links IH]; intros groups ND; [assumption|].
    cbn [fold_left]. apply IH. rewrite keys_group_append.
    destruct (in_list _ (map fst groups)) eqn:E; [assumption|].
    apply NoDup_app; [assumption | constructor; [intros [] | constructor] |].
    intros x Hx [<- | []]. apply in_list_In in Hx. congruence. }
  apply H. constructor.
Qed.

Lemma _process_domains_returns self groups w :
  exists stats w', _process_domains self groups w = (Ok stats, w') /\ advance w w'.
Proof.
  destruct (submit_all_ran self groups w) as (futures & w' & Hs & Hran).
  unfold _process_domains, bind. rewrite Hs.
  destruct (fold_left collect futures (no_stats, ∅)) as [tot bd].
  eexists _, w'. split; [reflexivity | eapply ran_advance; eauto].
Qed.

Lemma process_specific_links_returns self ids w :
  faults w = [] ->
  exists stats w', process_specific_links self ids w = (Ok stats, w') /\ advance w w'.
Proof.
  intros Hf. unfold process_specific_links, get_links_by_ids.
  erewrite bind_ok; [|apply transaction_ok; [assumption | reflexivity]].
  rewrite set_db_same.
  destruct (map _ _) as [|l ls].
  - eexists _, w. split; [reflexivity | apply advance_refl].
  - apply _process_domains_returns.
Qed.

Lemma row_advance_urls rows rows' :
  Forall2 row_advance rows rows' -> map nl_url rows' = map nl_url rows.
Proof. induction 1 as [|r r' l l' (_ & Hu & _) _ IH]; cbn; congruence. Qed.

(** ** The engine on a store that answers without failure *)

Lemma transaction_healthy {A} (body : Z -> Tables -> A * Tables + string) w r w' :
  healthy w -> transaction body w = (r, w') -> healthy w'.
Proof.
  unfold healthy. intros Hf H.
  apply transaction_inv in H as (_ & _ & _ & _ & Hfaults & _).
  now rewrite Hfaults, Hf.
Qed.

Lemma update_link_status_healthy i s err w :
  healthy w -> exists w', update_link_status i s err w = (Ok tt, w') /\ healthy w'.
Proof.
  intros Hf. rewrite (update_link_status_ok i s err w Hf).
  eexists. split; reflexivity.
Qed.

Lemma save_processed_content_healthy i t c tc md w r w' :
  healthy w -> save_processed_content i t c tc md w = (r, w') -> healthy w'.
Proof.
  unfold healthy. intros Hf H.
  apply save_processed_content_inv in H as (_ & _ & _ & _ & Hfaults & _).
  now rewrite Hfaults, Hf.
Qed.

Lemma attempt_link_healthy self link attempt w :
  healthy w ->
  exists r w', attempt_link self link attempt w = (Ok r, w') /\ healthy w'.
Proof.
  intros Hf. unfold attempt_link, try_except.
  (* the handler returns, from any healthy world *)
  assert (Hhandler : forall e w1, healthy w1 ->
    exists r w',
      (if Nat.eqb attempt MAX_RETRIES
       then update_link_status (link_id link) Failed (Some (str e)) ;;; ret (Some false)
       else sleep (seconds (2 ^ Z.of_nat attempt)) ;;; ret None) w1 = (Ok r, w')
      /\ healthy w').
  { intros e w1 H1. destruct (Nat.eqb attempt MAX_RETRIES).
    - destruct (update_link_status_healthy (link_id link) Failed (Some (str e)) w1 H1)
        as (w2 & Hu & H2).
      rewrite (bind_ok _ _ _ _ _ Hu). eexists _, w2. split; [reflexivity | assumption].
    - eexists _, _. split; [reflexivity | exact H1]. }
  destruct (ai_processor self) as [p|].
  - unfold bind at 1, process.
    destruct (p (processor_log w) (link_url link)) as [[res|]|e].
    + destruct (result_success res).
      * destruct (save_processed_content (link_id link) (result_title res) (result_content res)
                    (result_translated_content res) (result_metadata res)
                    (mkWorld (db w) (faults w) (clock w) (domain_last_request w)
                       (processor_log w ++ [link_url link]) (status_log w)))
          as [[[]|e] w1] eqn:Es.
        -- apply save_processed_content_healthy in Es as H1; [|exact Hf].
           unfold bind at 1. rewrite Es.
           destruct (update_link_status_healthy (link_id link) Completed None w1 H1)
             as (w2 & Hu & H2).
           rewrite (bind_ok _ _ _ _ _ Hu). eexists _, w2. split; [reflexivity | assumption].
        -- apply save_processed_content_healthy in Es as H1; [|exact Hf].
           unfold bind at 1. rewrite Es. now apply Hhandler.
      * eexists _, _. split; [reflexivity | exact Hf].
    + eexists _, _. split; [reflexivity | exact Hf].
    + apply Hhandler. exact Hf.
  - erewrite bind_ok; [|reflexivity].
    match goal with
    | |- context [bind (update_link_status ?i ?s ?e) _ ?w0] =>
        destruct (update_link_status_healthy i s e w0 Hf) as (w2 & Hu & H2)
    end.
    rewrite (bind_ok _ _ _ _ _ Hu). eexists _, w2. split; [reflexivity | assumption].
Qed.

Lemma retry_loop_healthy self link attempts : forall w,
  healthy w -> exists ok w', retry_loop self link attempts w = (Ok ok, w') /\ healthy w'.
Proof.
  induction attempts as [|attempt rest IH]; intros w Hf; cbn [retry_loop].
  - eexists _, w. split; [reflexivity | assumption].
  - destruct (attempt_link_healthy self link attempt w Hf) as (r & w1 & Ha & H1).
    rewrite (bind_ok _ _ _ _ _ Ha). destruct r as [b|].
    + eexists _, w1. split; [reflexivity | assumption].
    + now apply IH.
Qed.

Lemma _apply_rate_limit_healthy d w :
  healthy w -> exists w', _apply_rate_limit d w = (Ok tt, w') /\ healthy w'.
Proof.
  intros Hf. unfold _apply_rate_limit, bind.
  destruct (domain_last_request w !! d) as [last|];
    [destruct (clock w - last <? seconds SAME_DOMAIN_DELAY)%Z|];
    eexists; split; try reflexivity; exact Hf.
Qed.

Lemma process_links_healthy self domain links : forall stats w,
  healthy w ->
  exists s w', process_links self domain links stats w = (Ok s, w') /\ healthy w'.
Proof.
  induction links as [|link rest IH]; intros stats w Hf; cbn [process_links].
  - eexists _, w. split; [reflexivity | assumption].
  - destruct (_apply_rate_limit_healthy domain w Hf) as (w1 & Hr & H1).
    rewrite (bind_ok _ _ _ _ _ Hr).
    destruct (update_link_status_healthy (link_id link) Processing None w1 H1)
      as (w2 & Hu & H2).
    rewrite (bind_ok _ _ _ _ _ Hu).
    destruct (retry_loop_healthy self link (seq 1 MAX_RETRIES) w2 H2) as (ok & w3 & Hp & H3).
    unfold _process_single_link. rewrite (bind_ok _ _ _ _ _ Hp).
    now apply IH.
Qed.

(** With a store that answers, a partition never raises. *)
Lemma _process_domain_returns self domain links w :
  healthy w ->
  exists s w', _process_domain self domain links w = (Ok s, w') /\ healthy w'.
Proof. apply process_links_healthy. Qed.

(** ** Retries (C1) *)

Lemma attempt_link_unsuccessful p link attempt w :
  unsuccessful (p (processor_log w) (link_url link)) ->
  attempt_link (mkProcessorWorker (Some p)) link attempt w
  = (Ok None, mkWorld (db w) (faults w) (clock w) (domain_last_request w)
                      (processor_log w ++ [link_url link]) (status_log w)).
Proof.
  intros H. unfold attempt_link, try_except, bind, process. cbn [ai_processor].
  destruct (p (processor_log w) (link_url link)) as [[r|]|e]; cbn in H; try contradiction.
  - rewrite H. reflexivity.
  - reflexivity.
Qed.

(** A processor that answers every call with an unsuccessful result is
    called [MAX_RETRIES] times, and nothing is written: the link is not
    marked [Failed]. *)
Lemma unsuccessful_results_write_nothing (p : AiProcessor) (link : Link) (w : World) :
  (forall history url, unsuccessful (p history url)) ->
  exists w',
    _process_single_link (mkProcessorWorker (Some p)) link w = (Ok false, w')
    /\ processor_log w' = processor_log w ++ repeat (link_url link) MAX_RETRIES
    /\ db w' = db w
    /\ status_log w' = status_log w.
Proof.
  intros Hp. eexists. split.
  - unfold _process_single_link. cbn [seq MAX_RETRIES retry_loop].
    rewrite (bind_ok _ _ _ _ _ (attempt_link_unsuccessful p link 1 w (Hp _ _))).
    rewrite (bind_ok _ _ _ _ _ (attempt_link_unsuccessful p link 2 _ (Hp _ _))).
    reflexivity.
  - cbn. rewrite <- app_assoc. auto.
Qed.

(** A processor that raises at every call is called [MAX_RETRIES] times,
    and the link is marked [Failed] with the message of the last call. *)
Lemma raising_processor_marks_failed (p : AiProcessor) (link : Link) (w : World) e1 e2 :
  faults w = [] ->
  p (processor_log w) (link_url link) = Raises e1 ->
  p (processor_log w ++ [link_url link]) (link_url link) = Raises e2 ->
  exists w',
    _process_single_link (mkProcessorWorker (Some p)) link w = (Ok false, w')
    /\ processor_log w' = processor_log w ++ repeat (link_url link) MAX_RETRIES
    /\ news_links (db w')
       = map (set_status (link_id link) Failed (Some (str e2)) (clock w + 2000))
             (news_links (db w)).
Proof.
  intros Hf H1 H2. eexists. split.
  - unfold _process_single_link. cbn [seq MAX_RETRIES retry_loop].
    unfold attempt_link at 1. cbn [ai_processor].
    unfold bind at 1, try_except at 1, bind at 1, process at 1. rewrite H1.
    cbn [Nat.eqb MAX_RETRIES]. unfold bind at 1, sleep at 1, ret at 1.
    unfold attempt_link. cbn [ai_processor].
    unfold bind at 1, try_except at 1, bind at 1, process at 1.
    cbn [processor_log]. rewrite H2. cbn [Nat.eqb MAX_RETRIES].
    erewrite bind_ok; [|apply update_link_status_ok; exact Hf].
    reflexivity.
  - cbn. rewrite <- app_assoc. split; reflexivity.
Qed.

(** C1, at an input on which the code departs from the claim.  The
    Content Processor answers every call with [{'success': False, ...}].
    The link is attempted [MAX_RETRIES] = 2 times and counted as failed in
    the statistics, but its status stays [Processing] and no error message
    is stored: only the [except] branch of [_process_single_link] writes
    [Failed]. *)
Theorem unsuccessful_result_leaves_link_processing :
  let run := process_specific_links (mkProcessorWorker (Some refusing)) [1%Z]
               (world_of [a1] [] []) in
  fst run = Ok (mkStats (mkDomainStats 1 0 1 0) (Some {[ "a.com" := mkDomainStats 1 0 1 0 ]}))
  /\ processor_log (snd run) = ["http://a.com/1"; "http://a.com/1"]
  /\ map (fun r => (nl_status r, nl_error_message r)) (news_links (db (snd run)))
     = [(Processing, None)]
  /\ status_log (snd run) = [(1%Z, Pending, Processing)].
Proof. vm_compute. repeat split. Qed.

(** The sibling paths on the same link: a processor that raises, and one
    that succeeds at once. *)
Example raising_processor_run :
  let run := process_specific_links (mkProcessorWorker (Some raising)) [1%Z]
               (world_of [a1] [] []) in
  processor_log (snd run) = ["http://a.com/1"; "http://a.com/1"]
  /\ map (fun r => (nl_status r, nl_error_message r)) (news_links (db (snd run)))
     = [(Failed, Some "timeout")].
Proof. vm_compute. repeat split. Qed.

Example succeeding_processor_run :
  let run := process_specific_links (mkProcessorWorker (Some succeeding)) [1%Z]
               (world_of [a1] [] []) in
  processor_log (snd run) = ["http://a.com/1"]
  /\ map (fun r => (nl_status r, nl_error_message r)) (news_links (db (snd run)))
     = [(Completed, None)]
  /\ map (fun c => (pc_link_id c, pc_title c)) (processed_content (db (snd run)))
     = [(1%Z, Some "Title")].
Proof. vm_compute. repeat split. Qed.

(** ** Isolation of a failing partition (C2) *)




(** ** Statistics (C10) *)



(** ** Registration (C3) *)

(** Two raw URLs with the same canonical form make one stored link. *)
Lemma same_canonical_registered_once (w : World) (raw1 raw2 canonical task : string) :
  faults w = [] ->
  String.length task <= 255 ->
  (0 <= news_links_id_seq (db w))%Z ->
  is_valid_url raw1 = true -> is_valid_url raw2 = true ->
  normalize_url raw1 = Some canonical -> normalize_url raw2 = Some canonical ->
  known (hash_url canonical) (news_links (db w)) = false ->
  let i := (news_links_id_seq (db w) + 1)%Z in
  let row := pending_row i canonical task (clock w) in
  exists w1 w2 w',
    insert_news_link canonical (hash_url canonical) task w = (Ok (Some i), w1)
    /\ news_links (db w1) = news_links (db w) ++ [row]
    /\ insert_news_link canonical (hash_url canonical) task w1 = (Ok None, w2)
    /\ news_links (db w2) = news_links (db w1)
    /\ _process_urls [raw1; raw2] task w
       = (Ok (mkUrlResults 1 1 0 [mkUrlEntry i canonical raw1]), w')
    /\ news_links (db w') = news_links (db w) ++ [row].
Proof.
  intros Hf Hlen Hseq Hv1 Hv2 Hn1 Hn2 Hunseen i row.
  pose proof (insert_news_link_unseen canonical task w Hf Hlen Hunseen) as Hins.
  fold i in Hins. fold row in Hins.
  set (w1 := set_db (set_news_links (news_links (db w) ++ [row]) i (db w)) w) in *.
  assert (Hf1 : faults w1 = []) by exact Hf.
  assert (Hk1 : known (hash_url canonical) (news_links (db w1)) = true)
    by apply known_after_insert.
  exists w1,
    (set_db (set_news_links (news_links (db w1)) (news_links_id_seq (db w1) + 1) (db w1)) w1),
    w1.
  split; [exact Hins|]. split; [reflexivity|].
  split; [now apply insert_news_link_seen|]. split; [reflexivity|].
  split; [|reflexivity].
  unfold _process_urls. cbn [process_urls_from].
  rewrite Hv1, Hv2, Hn1, Hn2. cbn [negb].
  rewrite (bind_ok _ _ _ _ _ (url_exists_ok _ w Hf)), Hunseen.
  rewrite (bind_ok _ _ _ _ _ Hins).
  replace (i =? 0)%Z with false by (symmetry; apply Z.eqb_neq; unfold i; lia).
  cbn [new_links duplicates invalid urls Nat.add app].
  rewrite (bind_ok _ _ _ _ _ (url_exists_ok _ w1 Hf1)), Hk1.
  reflexivity.
Qed.

(** C3 as stated fails.  [normalize_url] removes one leading [www.],
    and only where the network location begins with it, and it strips
    the white space at the two ends of the whole URL, before the query
    is cut off.  So a second [www.], a [www.] behind the user
    information, and a space in front of a tracking parameter each make
    two canonical forms of two URLs that differ by a leading [www.] or
    by a tracking parameter only: both are new links, and two rows are
    stored. *)
Lemma www_variants_are_registered_twice :
  (fst (_process_urls ["http://www.www.a.com/"; "http://www.a.com/"] "demo"
          (world_of [] [] []))
   = Ok (mkUrlResults 2 0 0
           [mkUrlEntry 1 "http://www.a.com/" "http://www.www.a.com/";
            mkUrlEntry 2 "http://a.com/" "http://www.a.com/"])
   /\ map nl_url
        (news_links
           (db (snd (_process_urls ["http://www.www.a.com/"; "http://www.a.com/"] "demo"
                       (world_of [] [] [])))))
      = ["http://www.a.com/"; "http://a.com/"])
  /\ (fst (_process_urls ["http://user@www.a.com/x"; "http://user@a.com/x"] "demo"
             (world_of [] [] []))
      = Ok (mkUrlResults 2 0 0
              [mkUrlEntry 1 "http://user@www.a.com/x" "http://user@www.a.com/x";
               mkUrlEntry 2 "http://user@a.com/x" "http://user@a.com/x"])
      /\ map nl_url
           (news_links
              (db (snd (_process_urls ["http://user@www.a.com/x"; "http://user@a.com/x"]
                          "demo" (world_of [] [] [])))))
         = ["http://user@www.a.com/x"; "http://user@a.com/x"])
  /\ (fst (_process_urls ["http://a.com/x "; "http://a.com/x ?utm_source=1"] "demo"
             (world_of [] [] []))
      = Ok (mkUrlResults 2 0 0
              [mkUrlEntry 1 "http://a.com/x" "http://a.com/x ";
               mkUrlEntry 2 "http://a.com/x " "http://a.com/x ?utm_source=1"])
      /\ map nl_url
           (news_links
              (db (snd (_process_urls ["http://a.com/x "; "http://a.com/x ?utm_source=1"]
                          "demo" (world_of [] [] [])))))
         = ["http://a.com/x"; "http://a.com/x "]).
Proof. vm_compute. repeat split. Qed.

(** C3, amended.  Registering twice the same raw URL, or two raw URLs
    whose parses differ only by tracking parameters, by the fragment, or
    by one leading [www.] of the network location in front of a location
    that does not begin with [www.] itself, yields one stored link.  The
    two URLs are valid and written in ASCII, the range on which [strip]
    and [lower] are those of Python.  Both have one canonical form; at
    the store ([insert_news_link]) the first registration inserts a row in
    [Pending] and returns its id, the second returns no id and adds no
    row; in [_process_urls] the first URL is a new link and the second a
    duplicate.  The store answers without failure and does not know the
    link before. *)
Theorem same_url_registered_once
    (w : World) (raw1 raw2 task : string) (p1 p2 : ParseResult) :
  faults w = [] ->
  String.length task <= 255 ->
  (0 <= news_links_id_seq (db w))%Z ->
  all_chars isascii raw1 = true -> all_chars isascii raw2 = true ->
  is_valid_url raw1 = true -> is_valid_url raw2 = true ->
  urlparse (strip raw1) = Some p1 -> urlparse (strip raw2) = Some p2 ->
  same_up_to_tracking_and_www p1 p2 ->
  (forall c, normalize_url raw1 = Some c -> known (hash_url c) (news_links (db w)) = false) ->
  exists canonical w1 w2 w',
    normalize_url raw1 = Some canonical
    /\ normalize_url raw2 = Some canonical
    /\ insert_news_link canonical (hash_url canonical) task w
       = (Ok (Some (news_links_id_seq (db w) + 1)%Z), w1)
    /\ news_links (db w1)
       = news_links (db w)
         ++ [pending_row (news_links_id_seq (db w) + 1) canonical task (clock w)]
    /\ insert_news_link canonical (hash_url canonical) task w1 = (Ok None, w2)
    /\ news_links (db w2) = news_links (db w1)
    /\ _process_urls [raw1; raw2] task w
       = (Ok (mkUrlResults 1 1 0
                [mkUrlEntry (news_links_id_seq (db w) + 1) canonical raw1]), w')
    /\ news_links (db w')
       = news_links (db w)
         ++ [pending_row (news_links_id_seq (db w) + 1) canonical task (clock w)].
Proof.
  intros Hf Hlen Hseq _ _ Hv1 Hv2 Hp1 Hp2 Hsame Hunseen.
  destruct (variants_normalize_alike raw1 raw2 p1 p2 Hp1 Hp2 Hsame) as (canonical & Hn1 & Hn2).
  destruct (same_canonical_registered_once w raw1 raw2 canonical task
              Hf Hlen Hseq Hv1 Hv2 Hn1 Hn2 (Hunseen _ Hn1))
    as (w1 & w2 & w' & H).
  exists canonical, w1, w2, w'. auto.
Qed.

(** The variants the claim names have one canonical form. *)
Example variants_have_one_canonical_form :
  map normalize_url
    ["https://example.com/news";
     "https://example.com/news?utm_source=feed&fbclid=abc";
     "https://www.example.com/news";
     "HTTPS://WWW.Example.com/news/?ref=home#latest"]
  = repeat (Some "https://example.com/news") 4.
Proof. vm_compute. reflexivity. Qed.

Lemma same_url_registered_once_witness :
  faults (world_of [] [] []) = []
  /\ String.length "demo" <= 255
  /\ (0 <= news_links_id_seq (db (world_of [] [] [])))%Z
  /\ all_chars isascii "https://www.example.com/news?utm_source=feed&id=7" = true
  /\ all_chars isascii "https://example.com/news?id=7&fbclid=abc#latest" = true
  /\ is_valid_url "https://www.example.com/news?utm_source=feed&id=7" = true
  /\ is_valid_url "https://example.com/news?id=7&fbclid=abc#latest" = true
  /\ urlparse (strip "https://www.example.com/news?utm_source=feed&id=7")
     = Some (mkParseResult "https" "www.example.com" "/news" "" "utm_source=feed&id=7" "")
  /\ urlparse (strip "https://example.com/news?id=7&fbclid=abc#latest")
     = Some (mkParseResult "https" "example.com" "/news" "" "id=7&fbclid=abc" "latest")
  /\ same_up_to_tracking_and_www
       (mkParseResult "https" "www.example.com" "/news" "" "utm_source=feed&id=7" "")
       (mkParseResult "https" "example.com" "/news" "" "id=7&fbclid=abc" "latest")
  /\ (forall c,
        normalize_url "https://www.example.com/news?utm_source=feed&id=7" = Some c ->
        known (hash_url c) (news_links (db (world_of [] [] []))) = false)
  /\ exists canonical w1 w2 w',
       normalize_url "https://www.example.com/news?utm_source=feed&id=7" = Some canonical
       /\ normalize_url "https://example.com/news?id=7&fbclid=abc#latest" = Some canonical
       /\ insert_news_link canonical (hash_url canonical) "demo" (world_of [] [] [])
          = (Ok (Some (news_links_id_seq (db (world_of [] [] [])) + 1)%Z), w1)
       /\ news_links (db w1)
          = news_links (db (world_of [] [] []))
            ++ [pending_row (news_links_id_seq (db (world_of [] [] [])) + 1) canonical "demo"
                  (clock (world_of [] [] []))]
       /\ insert_news_link canonical (hash_url canonical) "demo" w1 = (Ok None, w2)
       /\ news_links (db w2) = news_links (db w1)
       /\ _process_urls
            ["https://www.example.com/news?utm_source=feed&id=7";
             "https://example.com/news?id=7&fbclid=abc#latest"]
            "demo" (world_of [] [] [])
          = (Ok (mkUrlResults 1 1 0
                   [mkUrlEntry (news_links_id_seq (db (world_of [] [] [])) + 1) canonical
                      "https://www.example.com/news?utm_source=feed&id=7"]), w')
       /\ news_links (db w')
          = news_links (db (world_of [] [] []))
            ++ [pending_row (news_links_id_seq (db (world_of [] [] [])) + 1) canonical "demo"
                  (clock (world_of [] [] []))].
Proof.
  assert (Hsame : same_up_to_tracking_and_www
            (mkParseResult "https" "www.example.com" "/news" "" "utm_source=feed&id=7" "")
            (mkParseResult "https" "example.com" "/news" "" "id=7&fbclid=abc" "latest")).
  { repeat split; try reflexivity.
    right. right. split; vm_compute; reflexivity. }
  repeat (split; [first [exact Hsame | vm_compute; first [reflexivity | lia | discriminate]
                        | intros c _; reflexivity]|]).
  apply (same_url_registered_once (world_of [] [] [])
           "https://www.example.com/news?utm_source=feed&id=7"
           "https://example.com/news?id=7&fbclid=abc#latest" "demo"
           (mkParseResult "https" "www.example.com" "/news" "" "utm_source=feed&id=7" "")
           (mkParseResult "https" "example.com" "/news" "" "id=7&fbclid=abc" "latest"));
    first [exact Hsame | intros c _; reflexivity
          | vm_compute; first [reflexivity | lia | discriminate]].
Defined.

(** ** The lifecycle of a link (C4) *)

(** C4 as stated fails.  [process_specific_links] takes a link whatever
    its status: a link that is [Completed] goes back to [Processing], and
    here on to [Failed]. *)
Lemma completed_link_is_processed_again :
  let w := world_of [link_row 1 "http://a.com/1" Completed] [] [] in
  let w' := snd (process_specific_links (mkProcessorWorker (Some raising)) [1%Z] w) in
  map nl_status (news_links (db w)) = [Completed]
  /\ map nl_status (news_links (db w')) = [Failed]
  /\ status_log w' = [(1%Z, Completed, Processing); (1%Z, Processing, Failed)]
  /\ ~ Forall lifecycle_step (status_log w').
Proof.
  repeat (split; [vm_compute; reflexivity|]).
  intros H. vm_compute in H. inversion H as [|? ? Hstep _]; subst.
  destruct Hstep as [[Habs _] | [Habs _]]; discriminate.
Qed.

(** C4, amended.  Every write of a status made by the engine either sets
    [Processing] (on a link in any status: it was picked) or sets
    [Completed] or [Failed] on a link that is [Processing]; no write sets
    [Pending].  Through [process_pending_links], [process_specific_links]
    and [run_task] every stored link stays stored and none goes back to
    [Pending]; only [run_task] adds links.  A link has one status, so it
    is never both [Completed] and [Failed]. *)
Theorem status_history (worker : ProcessorWorker) (searcher : NewsSearchModule) (w : World) :
  (forall limit, advance w (snd (process_pending_links worker limit w)))
  /\ (forall link_ids, advance w (snd (process_specific_links worker link_ids w)))
  /\ (forall task_name, evolve w (snd (run_task searcher task_name w)))
  /\ (forall r : NewsLink, ~ (nl_status r = Completed /\ nl_status r = Failed)).
Proof.
  repeat split.
  - destruct (process_pending_links worker limit w) as [r w'] eqn:E.
    apply process_pending_links_advance in E. apply E.
  - destruct (process_pending_links worker limit w) as [r w'] eqn:E.
    apply process_pending_links_advance in E. apply E.
  - destruct (process_specific_links worker link_ids w) as [r w'] eqn:E.
    apply process_specific_links_advance in E. apply E.
  - destruct (process_specific_links worker link_ids w) as [r w'] eqn:E.
    apply process_specific_links_advance in E. apply E.
  - destruct (run_task searcher task_name w) as [r w'] eqn:E.
    apply run_task_evolve in E. apply E.
  - destruct (run_task searcher task_name w) as [r w'] eqn:E.
    apply run_task_evolve in E. apply E.
  - intros r [H1 H2]. congruence.
Qed.

(** ** Discovery failure (C9) *)

(** C9.  When the Discovery Client returns a failure, [execute_search]
    returns a failure result and changes nothing; so [run_task], once it
    has found the task active, returns that failure result and leaves the
    tables as they were: no link is registered and the statistics of the
    task are not updated. *)
Theorem discovery_failure_changes_nothing
    (self : NewsSearchModule) (task_name : string) (task : QueryTask) (w : World) :
  hd false (faults w) = false ->
  List.find (fun q => String.eqb (qt_task_name q) task_name) (query_tasks (db w)) = Some task ->
  qt_is_active task = true ->
  search self (qt_prompt_template task) = None ->
  execute_search self (qt_prompt_template task) task_name w
  = (Ok (SearchFailed "Search failed" (Some task_name)), w)
  /\ exists w',
       run_task self task_name w = (Ok (SearchFailed "Search failed" (Some task_name)), w')
       /\ db w' = db w.
Proof.
  intros Hf Hfind Hactive Hsearch. split.
  - unfold execute_search. now rewrite Hsearch.
  - destruct (get_query_task_ok task_name w Hf) as (w' & Hg & Hdb & _).
    exists w'. split; [|assumption].
    unfold run_task. rewrite (bind_ok _ _ _ _ _ Hg), Hfind, Hactive. cbn [negb].
    unfold execute_search. now rewrite Hsearch.
Qed.

Lemma discovery_failure_changes_nothing_witness :
  hd false (faults (world_of [a1] [demo_task] [])) = false
  /\ List.find (fun q => String.eqb (qt_task_name q) "demo")
       (query_tasks (db (world_of [a1] [demo_task] []))) = Some demo_task
  /\ qt_is_active demo_task = true
  /\ search (mkNewsSearchModule (fun _ => None) None) (qt_prompt_template demo_task) = None
  /\ execute_search (mkNewsSearchModule (fun _ => None) None)
       (qt_prompt_template demo_task) "demo" (world_of [a1] [demo_task] [])
     = (Ok (SearchFailed "Search failed" (Some "demo")), world_of [a1] [demo_task] [])
  /\ exists w',
       run_task (mkNewsSearchModule (fun _ => None) None) "demo"
         (world_of [a1] [demo_task] [])
       = (Ok (SearchFailed "Search failed" (Some "demo")), w')
       /\ db w' = db (world_of [a1] [demo_task] []).
Proof.
  repeat (split; [reflexivity|]).
  apply (discovery_failure_changes_nothing (mkNewsSearchModule (fun _ => None) None)
           "demo" demo_task (world_of [a1] [demo_task] [])); reflexivity.
Defined.

(** ** The end-to-end scenario (C6) *)

Lemma demo_urls_valid :
  is_valid_url "http://a.com/1" = true
  /\ is_valid_url "http://a.com/1?utm_source=x" = true
  /\ is_valid_url "http://b.com/2" = true
  /\ is_valid_url "not a url" = false.
Proof. vm_compute. repeat split. Qed.

Lemma demo_urls_canonical :
  normalize_url "http://a.com/1" = Some "http://a.com/1"
  /\ normalize_url "http://a.com/1?utm_source=x" = Some "http://a.com/1"
  /\ normalize_url "http://b.com/2" = Some "http://b.com/2".
Proof. vm_compute. repeat split. Qed.

Lemma demo_fingerprints_differ :
  String.eqb (hash_url "http://a.com/1") (hash_url "http://b.com/2") = false.
Proof. vm_compute. reflexivity. Qed.

(** What [_process_urls] does with the four URLs on an empty table *)
Lemma demo_registration (w : World) :
  faults w = [] -> news_links (db w) = [] -> (0 <= news_links_id_seq (db w))%Z ->
  let i := news_links_id_seq (db w) in
  exists w',
    _process_urls demo_found "demo" w
    = (Ok (mkUrlResults 2 1 1
             [mkUrlEntry (i + 1) "http://a.com/1" "http://a.com/1";
              mkUrlEntry (i + 1 + 1) "http://b.com/2" "http://b.com/2"]), w')
    /\ news_links (db w')
       = [pending_row (i + 1) "http://a.com/1" "demo" (clock w);
          pending_row (i + 1 + 1) "http://b.com/2" "demo" (clock w)]
    /\ faults w' = []
    /\ status_log w' = status_log w.
Proof.
  intros Hf Hempty Hseq i.
  destruct demo_urls_valid as (Va & Vu & Vb & Vn).
  destruct demo_urls_canonical as (Ca & Cu & Cb).
  assert (Hlen : String.length "demo" <= 255) by (vm_compute; lia).
  (* the first URL is new *)
  assert (Hk0 : known (hash_url "http://a.com/1") (news_links (db w)) = false)
    by now rewrite Hempty.
  pose proof (insert_news_link_unseen "http://a.com/1" "demo" w Hf Hlen Hk0) as Hins1.
  rewrite Hempty in Hins1. fold i in Hins1. cbn [app] in Hins1.
  set (w1 := set_db (set_news_links [pending_row (i + 1) "http://a.com/1" "demo" (clock w)]
                       (i + 1) (db w)) w) in *.
  assert (Hf1 : faults w1 = []) by exact Hf.
  (* the second one is known, the third one is not *)
  assert (Hk1 : known (hash_url "http://a.com/1") (news_links (db w1)) = true)
    by apply (known_after_insert "http://a.com/1" "demo" (i + 1) (clock w) []).
  assert (Hk2 : known (hash_url "http://b.com/2") (news_links (db w1)) = false).
  { cbn [w1 set_db db set_news_links news_links known existsb pending_row nl_url_hash].
    now rewrite demo_fingerprints_differ. }
  pose proof (insert_news_link_unseen "http://b.com/2" "demo" w1 Hf1 Hlen Hk2) as Hins2.
  cbn [w1 set_db db set_news_links news_links news_links_id_seq clock app] in Hins2.
  fold w1 in Hins2.
  eexists. split; [|split; [|split]].
  - unfold _process_urls, demo_found. cbn [process_urls_from].
    rewrite Va, Vu, Vb, Vn, Ca, Cu, Cb. cbn [negb].
    rewrite (bind_ok _ _ _ _ _ (url_exists_ok _ w Hf)), Hk0.
    rewrite (bind_ok _ _ _ _ _ Hins1).
    replace (i + 1 =? 0)%Z with false by (symmetry; apply Z.eqb_neq; unfold i; lia).
    cbn [new_links duplicates invalid urls Nat.add app].
    rewrite (bind_ok _ _ _ _ _ (url_exists_ok _ w1 Hf1)), Hk1.
    cbn [new_links duplicates invalid urls Nat.add app].
    rewrite (bind_ok _ _ _ _ _ (url_exists_ok _ w1 Hf1)), Hk2.
    rewrite (bind_ok _ _ _ _ _ Hins2).
    replace (i + 1 + 1 =? 0)%Z with false by (symmetry; apply Z.eqb_neq; unfold i; lia).
    cbn [new_links duplicates invalid urls Nat.add app].
    reflexivity.
  - reflexivity.
  - exact Hf.
  - reflexivity.
Qed.

(** C6.  The task [demo] is run against a store without links; the
    Discovery Client returns [http://a.com/1], [http://a.com/1?utm_source=x],
    [http://b.com/2] and [not a url].  Whatever processor worker is
    attached, the run reports [total_found] 4, 2 new links, 1 duplicate
    and 1 invalid URL, and the store holds exactly the links
    [http://a.com/1] and [http://b.com/2]. *)
Theorem end_to_end_scenario (self : NewsSearchModule) (task : QueryTask) (w : World) :
  faults w = [] ->
  news_links (db w) = [] ->
  (0 <= news_links_id_seq (db w))%Z ->
  List.find (fun q => String.eqb (qt_task_name q) "demo") (query_tasks (db w)) = Some task ->
  qt_is_active task = true ->
  search self (qt_prompt_template task) = Some demo_found ->
  exists report w',
    run_task self "demo" w = (Ok (SearchDone report), w')
    /\ total_found report = 4
    /\ report_new_links report = 2
    /\ report_duplicates report = 1
    /\ report_invalid report = 1
    /\ map (fun e => (entry_url e, original_url e)) (report_urls report)
       = [("http://a.com/1", "http://a.com/1"); ("http://b.com/2", "http://b.com/2")]
    /\ map nl_url (news_links (db w')) = ["http://a.com/1"; "http://b.com/2"].
Proof.
  intros Hf Hempty Hseq Hfind Hactive Hsearch.
  assert (Hhd : hd false (faults w) = false) by now rewrite Hf.
  destruct (get_query_task_ok "demo" w Hhd) as (w0 & Hg & Hdb0 & Hf0).
  rewrite Hf in Hf0. cbn in Hf0.
  assert (Hempty0 : news_links (db w0) = []) by now rewrite Hdb0.
  assert (Hseq0 : (0 <= news_links_id_seq (db w0))%Z) by now rewrite Hdb0.
  destruct (demo_registration w0 Hf0 Hempty0 Hseq0) as (w1 & Hreg & Hlinks1 & Hf1 & _).
  destruct (update_task_run_stats_ok "demo" (Z.of_nat 2) w1 Hf1)
    as (w2 & Hupd & Hlinks2 & Hf2 & _).
  unfold run_task. rewrite (bind_ok _ _ _ _ _ Hg), Hfind, Hactive. cbn [negb].
  unfold execute_search. rewrite Hsearch.
  rewrite (bind_ok _ _ _ _ _ Hreg). cbn [new_links duplicates invalid urls].
  rewrite (bind_ok _ _ _ _ _ Hupd).
  destruct (processor_worker self) as [worker|].
  - cbn [AUTO_PROCESS_AFTER_SEARCH Nat.ltb Nat.leb andb].
    destruct (process_specific_links_returns worker
                (map entry_id
                   [mkUrlEntry (news_links_id_seq (db w0) + 1) "http://a.com/1" "http://a.com/1";
                    mkUrlEntry (news_links_id_seq (db w0) + 1 + 1) "http://b.com/2"
                      "http://b.com/2"]) w2 Hf2)
      as (stats & w3 & Hproc & [_ Hadv]).
    rewrite (bind_ok _ _ _ _ _ Hproc).
    eexists _, w3. split; [reflexivity|]. cbn.
    repeat (split; [reflexivity|]).
    apply row_advance_urls in Hadv. rewrite Hadv, Hlinks2, Hlinks1. reflexivity.
  - eexists _, w2. split; [reflexivity|]. cbn.
    repeat (split; [reflexivity|]).
    rewrite Hlinks2, Hlinks1. reflexivity.
Qed.

Lemma end_to_end_scenario_witness :
  faults (world_of [] [demo_task] []) = []
  /\ news_links (db (world_of [] [demo_task] [])) = []
  /\ (0 <= news_links_id_seq (db (world_of [] [demo_task] [])))%Z
  /\ List.find (fun q => String.eqb (qt_task_name q) "demo")
       (query_tasks (db (world_of [] [demo_task] []))) = Some demo_task
  /\ qt_is_active demo_task = true
  /\ search demo_module (qt_prompt_template demo_task) = Some demo_found
  /\ exists report w',
       run_task demo_module "demo" (world_of [] [demo_task] []) = (Ok (SearchDone report), w')
       /\ total_found report = 4
       /\ report_new_links report = 2
       /\ report_duplicates report = 1
       /\ report_invalid report = 1
       /\ map (fun e => (entry_url e, original_url e)) (report_urls report)
          = [("http://a.com/1", "http://a.com/1"); ("http://b.com/2", "http://b.com/2")]
       /\ map nl_url (news_links (db w')) = ["http://a.com/1"; "http://b.com/2"].
Proof.
  repeat (split; [vm_compute; first [reflexivity | discriminate]|]).
  apply (end_to_end_scenario demo_module demo_task (world_of [] [demo_task] []));
    vm_compute; first [reflexivity | discriminate].
Defined.

(** The same run, evaluated: the ids are 1 and 2, both links are processed. *)
Example end_to_end_run :
  let run := run_task demo_module "demo" (world_of [] [demo_task] []) in
  (match fst run with
   | Ok (SearchDone report) =>
       Some (total_found report, report_new_links report, report_duplicates report,
             report_invalid report, map entry_id (report_urls report),
             totals <$> processing report)
   | _ => None
   end)
  = Some (4, 2, 1, 1, [1%Z; 2%Z], Some (mkDomainStats 2 2 0 0))
  /\ map (fun r => (nl_id r, nl_url r, nl_status r)) (news_links (db (snd run)))
     = [(1%Z, "http://a.com/1", Completed); (2%Z, "http://b.com/2", Completed)]
  /\ map (fun q => (qt_total_runs q, qt_total_links_found q)) (query_tasks (db (snd run)))
     = [(1%Z, 2%Z)].
Proof. vm_compute. repeat split. Qed.

(** * Further properties *)

(** ** What the engine leaves alone *)

Section EngineFrame.

(** [R] relates a world to a later one; [given] holds of the links the
    engine works on. *)
Variable R : World -> World -> Prop.
Variable given : Link -> Prop.

Hypothesis R_refl : forall w, R w w.
Hypothesis R_trans : forall a b c, R a b -> R b c -> R a c.
Hypothesis R_sleep : forall ms w r w', sleep ms w = (r, w') -> R w w'.
Hypothesis R_rate : forall d w r w', _apply_rate_limit d w = (r, w') -> R w w'.
Hypothesis R_process :
  forall p link w r w', given link -> process p (link_url link) w = (r, w') -> R w w'.
Hypothesis R_save :
  forall link t c tc md w r w',
    given link -> save_processed_content (link_id link) t c tc md w = (r, w') -> R w w'.
Hypothesis R_update :
  forall link s e w r w',
    given link -> update_link_status (link_id link) s e w = (r, w') -> R w w'.

Lemma bind_frame {A B} (m : M A) (k : A -> M B) w r w' :
  bind m k w = (r, w') ->
  (forall a w1, m w = (a, w1) -> R w w1) ->
  (forall a w1 r' w2, k a w1 = (r', w2) -> R w1 w2) ->
  R w w'.
Proof.
  intros H Hm Hk. apply bind_inv in H as [(a & w1 & Ha & Hb) | (e & Ha & _)].
  - eapply R_trans; [eapply Hm | eapply Hk]; eauto.
  - eapply Hm; eauto.
Qed.

Lemma ret_frame {A} (a : A) w r w' : ret a w = (r, w') -> R w w'.
Proof. intros H. inversion H; subst. apply R_refl. Qed.

Lemma attempt_link_frame self link attempt w r w' :
  given link -> attempt_link self link attempt w = (r, w') -> R w w'.
Proof.
  intros Hg H. unfold attempt_link in H.
  apply try_except_inv in H as [(a & Hbody & _) | (e & w1 & Hbody & Hh)].
  - destruct (ai_processor self) as [p|].
    + eapply (bind_frame _ _ _ _ _ Hbody); [intros; eapply R_process; eauto|].
      intros [res|] w1 r' w2 Hk; [destruct (result_success res)|];
        try solve [eapply ret_frame; eauto].
      eapply (bind_frame _ _ _ _ _ Hk); [intros; eapply R_save; eauto|].
      intros _ w3 r'' w4 Hk'.
      eapply (bind_frame _ _ _ _ _ Hk'); [intros; eapply R_update; eauto|].
      intros; eapply ret_frame; eauto.
    + eapply (bind_frame _ _ _ _ _ Hbody); [intros; eapply R_sleep; eauto|].
      intros _ w3 r'' w4 Hk'.
      eapply (bind_frame _ _ _ _ _ Hk'); [intros; eapply R_update; eauto|].
      intros; eapply ret_frame; eauto.
  - eapply R_trans.
    + destruct (ai_processor self) as [p|].
      * eapply (bind_frame _ _ _ _ _ Hbody); [intros; eapply R_process; eauto|].
        intros [res|] w2 r' w3 Hk; [destruct (result_success res)|];
          try solve [eapply ret_frame; eauto].
        eapply (bind_frame _ _ _ _ _ Hk); [intros; eapply R_save; eauto|].
        intros _ w4 r'' w5 Hk'.
        eapply (bind_frame _ _ _ _ _ Hk'); [intros; eapply R_update; eauto|].
        intros; eapply ret_frame; eauto.
      * eapply (bind_frame _ _ _ _ _ Hbody); [intros; eapply R_sleep; eauto|].
        intros _ w4 r'' w5 Hk'.
        eapply (bind_frame _ _ _ _ _ Hk'); [intros; eapply R_update; eauto|].
        intros; eapply ret_frame; eauto.
    + destruct (Nat.eqb attempt MAX_RETRIES).
      * eapply (bind_frame _ _ _ _ _ Hh); [intros; eapply R_update; eauto|].
        intros; eapply ret_frame; eauto.
      * eapply (bind_frame _ _ _ _ _ Hh); [intros; eapply R_sleep; eauto|].
        intros; eapply ret_frame; eauto.
Qed.

Lemma retry_loop_frame self link attempts : forall w r w',
  given link -> retry_loop self link attempts w = (r, w') -> R w w'.
Proof.
  induction attempts as [|attempt rest IH]; intros w r w' Hg H; cbn [retry_loop] in H.
  - eapply ret_frame; eauto.
  - eapply (bind_frame _ _ _ _ _ H); [intros; eapply attempt_link_frame; eauto|].
    intros [b|] w1 r' w2 Hk; [eapply ret_frame | eapply IH]; eauto.
Qed.

Lemma process_links_frame self domain links : forall stats w r w',
  Forall given links -> process_links self domain links stats w = (r, w') -> R w w'.
Proof.
  induction links as [|link rest IH]; intros stats w r w' Hg H; cbn [process_links] in H.
  - eapply ret_frame; eauto.
  - inversion Hg as [|? ? Hlink Hrest]; subst.
    eapply (bind_frame _ _ _ _ _ H); [intros; eapply R_rate; eauto|].
    intros _ w1 r1 w2 H1.
    eapply (bind_frame _ _ _ _ _ H1); [intros; eapply R_update; eauto|].
    intros _ w3 r3 w4 H3.
    eapply (bind_frame _ _ _ _ _ H3); [intros; eapply retry_loop_frame; eauto|].
    intros ok w5 r5 w6 H5. eapply IH; eauto.
Qed.

Lemma ran_frame self groups w futures w' :
  Forall (fun g => Forall given (snd g)) groups ->
  ran self groups w futures w' -> R w w'.
Proof.
  intros Hg Hran. induction Hran as [|domain links rest w future w1 futures w2 Hd _ IH].
  - apply R_refl.
  - inversion Hg as [|? ? Hlinks Hrest]; subst. cbn in Hlinks.
    eapply R_trans; [eapply process_links_frame; eauto | now apply IH].
Qed.

Lemma _process_domains_frame self groups w r w' :
  Forall (fun g => Forall given (snd g)) groups ->
  _process_domains self groups w = (r, w') -> R w w'.
Proof.
  intros Hg H. destruct (submit_all_ran self groups w) as (futures & w1 & Hs & Hran).
  unfold _process_domains, bind in H. rewrite Hs in H.
  destruct (fold_left collect futures (no_stats, ∅)) as [tot bd].
  inversion H; subst. eapply ran_frame; eauto.
Qed.

End EngineFrame.

(** ** Partitions by domain *)

Lemma group_group_append d d' link groups :
  group d (group_append d' link groups)
  = group d groups ++ (if String.eqb d' d then [link] else []).
Proof.
  induction groups as [|[k links] groups IH]; cbn [group_append group].
  - destruct (String.eqb d' d); reflexivity.
  - destruct (String.eqb k d') eqn:E; cbn [group].
    + apply String.eqb_eq in E. subst k.
      destruct (String.eqb d' d); [reflexivity | now rewrite app_nil_r].
    + destruct (String.eqb k d) eqn:E2; [|exact IH].
      apply String.eqb_eq in E2. subst k. rewrite String.eqb_sym, E. now rewrite app_nil_r.
Qed.

Lemma concat_group_append d link groups :
  Permutation (concat (map snd (group_append d link groups)))
              (concat (map snd groups) ++ [link]).
Proof.
  induction groups as [|[k links] groups IH]; cbn [group_append map snd concat].
  - reflexivity.
  - destruct (String.eqb k d); cbn [map snd concat].
    + rewrite <- !app_assoc. apply Permutation_app_head.
      apply Permutation_app_comm.
    + rewrite IH. now rewrite app_assoc.
Qed.

Lemma _group_by_domain_fold links : forall groups,
  let result :=
    fold_left (fun groups link => group_append (domain_of link) link groups) links groups in
  map fst result = map fst groups ++ first_occurrences (map fst groups) (map domain_of links)
  /\ (forall d, group d result = group d groups ++ links_of d links)
  /\ Permutation (concat (map snd result)) (concat (map snd groups) ++ links).
Proof.
  induction links as [|link links IH]; intros groups; cbn [fold_left].
  - cbn. rewrite !app_nil_r. repeat split; auto. intros d. now rewrite app_nil_r.
  - destruct (IH (group_append (domain_of link) link groups)) as (Hk & Hg & Hp).
    cbv zeta. split; [|split].
    + rewrite Hk, keys_group_append. cbn [map first_occurrences].
      destruct (in_list (domain_of link) (map fst groups)); [reflexivity|].
      now rewrite <- app_assoc.
    + intros d. rewrite Hg, group_group_append, <- app_assoc. f_equal.
      unfold links_of. cbn [List.filter]. now destruct (String.eqb (domain_of link) d).
    + rewrite Hp, concat_group_append, <- app_assoc. reflexivity.
Qed.

Lemma group_In d links groups :
  NoDup (map fst groups) -> In (d, links) groups -> group d groups = links.
Proof.
  induction groups as [|[k ls] groups IH]; cbn [group map fst]; intros ND Hin; [contradiction|].
  inversion ND as [|? ? Hk ND']; subst.
  destruct Hin as [Heq | Hin].
  - inversion Heq; subst. now rewrite String.eqb_refl.
  - destruct (String.eqb k d) eqn:E; [|now apply IH].
    apply String.eqb_eq in E. subst k. exfalso. apply Hk.
    apply in_map_iff. now exists (d, links).
Qed.

Lemma first_occurrences_In seen l k :
  In k (first_occurrences seen l) -> In k l.
Proof.
  revert seen. induction l as [|x l IH]; intros seen; cbn [first_occurrences]; [tauto|].
  destruct (in_list x seen).
  - intros H. right. eapply IH; eauto.
  - intros [-> | H]; [now left | right; eapply IH; eauto].
Qed.

Lemma _group_by_domain_keys links :
  map fst (_group_by_domain links) = first_occurrences [] (map domain_of links).
Proof. now destruct (_group_by_domain_fold links []) as (Hk & _ & _). Qed.

Lemma _group_by_domain_groups links d ls :
  In (d, ls) (_group_by_domain links) -> ls = links_of d links.
Proof.
  intros Hin. destruct (_group_by_domain_fold links []) as (_ & Hg & _).
  fold (_group_by_domain links) in Hg. cbn in Hg.
  rewrite <- Hg. symmetry. apply group_In; [apply _group_by_domain_NoDup | assumption].
Qed.

Lemma _group_by_domain_concat links :
  Permutation (concat (map snd (_group_by_domain links))) links.
Proof. now destruct (_group_by_domain_fold links []) as (_ & _ & Hp). Qed.

(** X1.  [_group_by_domain] makes one group for every domain that occurs, in
    the order of first occurrence; the group of a domain holds the links of
    that domain, in their order, and is not empty; no link is lost or
    repeated. *)
Theorem _group_by_domain_partition (links : list Link) :
  map fst (_group_by_domain links) = first_occurrences [] (map domain_of links)
  /\ (forall d ls, In (d, ls) (_group_by_domain links) -> ls = links_of d links /\ ls <> [])
  /\ Permutation (concat (map snd (_group_by_domain links))) links.
Proof.
  pose proof (_group_by_domain_keys links) as Hk.
  split; [exact Hk | split; [|apply _group_by_domain_concat]].
  intros d ls Hin.
  pose proof (_group_by_domain_groups links d ls Hin) as Hls.
  split; [assumption|]. subst ls.
  assert (Hd : In d (map domain_of links)).
  { apply (first_occurrences_In [] _ d). rewrite <- Hk.
    apply in_map_iff. now exists (d, links_of d links). }
  apply in_map_iff in Hd as (link & Hdom & Hlink).
  intros Hnil.
  assert (Hmem : In link (links_of d links)).
  { unfold links_of. apply filter_In. split; [assumption|]. rewrite Hdom. apply String.eqb_refl. }
  rewrite Hnil in Hmem. contradiction.
Qed.

(** *** The tasks *)

Lemma tasks_kept_refl w : tasks_kept w w.
Proof. split; reflexivity. Qed.

Lemma tasks_kept_trans a b c : tasks_kept a b -> tasks_kept b c -> tasks_kept a c.
Proof. unfold tasks_kept. intros [-> ->] [-> ->]. auto. Qed.

Lemma same_db_tasks_kept w w' : db w' = db w -> tasks_kept w w'.
Proof. unfold tasks_kept. now intros ->. Qed.

Lemma sleep_db ms w r w' : sleep ms w = (r, w') -> db w' = db w.
Proof. unfold sleep. intros H. now inversion H. Qed.

Lemma process_db p u w r w' : process p u w = (r, w') -> db w' = db w.
Proof. unfold process. destruct (p _ u); intros H; now inversion H. Qed.

Lemma _apply_rate_limit_db d w r w' : _apply_rate_limit d w = (r, w') -> db w' = db w.
Proof.
  unfold _apply_rate_limit, bind. intros H.
  destruct (domain_last_request w !! d) as [last|];
    [destruct (clock w - last <? seconds SAME_DOMAIN_DELAY)%Z|];
    cbn in H; now inversion H.
Qed.

Lemma save_processed_content_tasks i t c tc md w r w' :
  save_processed_content i t c tc md w = (r, w') -> tasks_kept w w'.
Proof.
  intros H. apply save_processed_content_inv in H as (_ & _ & _ & _ & _ & _ & _ & Ht & Hs & _).
  split; assumption.
Qed.

Lemma update_link_status_db i s e w r w' :
  update_link_status i s e w = (r, w') ->
  db w' = db w
  \/ db w' = set_news_links (map (set_status i s e (clock w)) (news_links (db w)))
                            (news_links_id_seq (db w)) (db w).
Proof.
  unfold update_link_status. intros H.
  destruct (transaction _ w) as [r1 w1] eqn:E.
  apply transaction_inv in E as (_ & _ & _ & _ & _ & Hcase).
  destruct r1 as [[]|e1]; inversion H; subst; clear H; cbn;
    destruct Hcase as [(e' & He & Hdb) | (a & Ha & Hb)]; try discriminate.
  - right. now inversion Hb.
  - now left.
Qed.

Lemma update_link_status_tasks i s e w r w' :
  update_link_status i s e w = (r, w') -> tasks_kept w w'.
Proof.
  intros H. apply update_link_status_db in H as [H|H].
  - now apply same_db_tasks_kept.
  - split; rewrite H; reflexivity.
Qed.

Lemma _process_domains_tasks self groups w r w' :
  _process_domains self groups w = (r, w') -> tasks_kept w w'.
Proof.
  apply (_process_domains_frame tasks_kept (fun _ => True)).
  - apply tasks_kept_refl.
  - apply tasks_kept_trans.
  - intros. eapply same_db_tasks_kept, sleep_db; eauto.
  - intros. eapply same_db_tasks_kept, _apply_rate_limit_db; eauto.
  - intros. eapply same_db_tasks_kept, process_db; eauto.
  - intros. eapply save_processed_content_tasks; eauto.
  - intros. eapply update_link_status_tasks; eauto.
  - apply Forall_forall. intros g _. apply Forall_forall. auto.
Qed.

(** *** The other links *)

Lemma others_kept_refl ids w : others_kept ids w w.
Proof.
  split; [|reflexivity]. induction (news_links (db w)); constructor; auto.
Qed.

Lemma others_kept_trans ids a b c :
  others_kept ids a b -> others_kept ids b c -> others_kept ids a c.
Proof.
  intros [F1 C1] [F2 C2]. split; [|congruence].
  revert F2. generalize (news_links (db c)).
  induction F1 as [|x y l l' [Hid Hxy] F1 IH]; intros lc F2.
  - inversion F2. constructor.
  - inversion F2 as [|? z ? l'' [Hid' Hyz] F2']; subst. constructor; [|now apply IH].
    split; [congruence|]. intros Hout.
    pose proof (Hxy Hout) as E. subst y. now apply Hyz.
Qed.

Lemma same_db_others_kept ids w w' : db w' = db w -> others_kept ids w w'.
Proof. unfold others_kept. intros ->. apply others_kept_refl. Qed.

Lemma set_status_others ids i s err now rows :
  In i ids ->
  Forall2 (fun r r' => nl_id r' = nl_id r /\ (~ In (nl_id r) ids -> r' = r))
          rows (map (set_status i s err now) rows).
Proof.
  intros Hi. induction rows as [|r rows IH]; constructor; [|assumption].
  unfold set_status. destruct (nl_id r =? i)%Z eqn:E; cbn; [|auto].
  apply Z.eqb_eq in E. split; [reflexivity|]. intros Hout. subst i. contradiction.
Qed.

Lemma update_link_status_others ids i s e w r w' :
  In i ids -> update_link_status i s e w = (r, w') -> others_kept ids w w'.
Proof.
  intros Hi H. apply update_link_status_db in H as [H|H].
  - now apply same_db_others_kept.
  - split; rewrite H; cbn; [|reflexivity]. now apply set_status_others.
Qed.

Lemma content_outside_update ids i (f : ProcessedContent -> ProcessedContent) l :
  In i ids -> (forall c, pc_link_id (f c) = i) ->
  List.filter (content_outside ids)
              (map (fun c => if (pc_link_id c =? i)%Z then f c else c) l)
  = List.filter (content_outside ids) l.
Proof.
  intros Hi Hf.
  assert (Hin : existsb (Z.eqb i) ids = true)
    by (apply existsb_exists; exists i; split; [assumption | apply Z.eqb_refl]).
  induction l as [|x l IH]; [reflexivity|].
  cbn [map List.filter]. destruct (pc_link_id x =? i)%Z eqn:E.
  - apply Z.eqb_eq in E.
    assert (Ef : content_outside ids (f x) = false)
      by (unfold content_outside; now rewrite Hf, Hin).
    assert (Ex : content_outside ids x = false)
      by (unfold content_outside; now rewrite E, Hin).
    rewrite Ef, Ex. exact IH.
  - destruct (content_outside ids x); [now rewrite IH | exact IH].
Qed.

Lemma Forall2_kept_refl ids (rows : list NewsLink) :
  Forall2 (fun r r' => nl_id r' = nl_id r /\ (~ In (nl_id r) ids -> r' = r)) rows rows.
Proof. induction rows; constructor; auto. Qed.

Lemma save_processed_content_others ids i t c tc md w r w' :
  In i ids -> save_processed_content i t c tc md w = (r, w') -> others_kept ids w w'.
Proof.
  intros Hi H.
  assert (Hin : existsb (Z.eqb i) ids = true)
    by (apply existsb_exists; exists i; split; [assumption | apply Z.eqb_refl]).
  apply save_processed_content_inv in H
    as (_ & _ & _ & _ & _ & Hl & _ & _ & _ & [(e & _ & Hpc) | (_ & _ & Hdb)]).
  - split; [rewrite Hl; apply Forall2_kept_refl | now rewrite Hpc].
  - split; [rewrite Hl; apply Forall2_kept_refl|]. rewrite Hdb. cbn.
    destruct (existsb _ (processed_content (db w))).
    + now apply (content_outside_update ids i
                   (fun x => mkProcessedContent (pc_id x) i t c tc None None None
                                                (Json_or_None md) (pc_created_at x) (clock w))).
    + rewrite List.filter_app. cbn [List.filter].
      match goal with |- context [content_outside ids ?x] =>
        assert (Ex : content_outside ids x = false)
          by (unfold content_outside; cbn [pc_link_id]; now rewrite Hin);
        rewrite Ex end.
      now rewrite app_nil_r.
Qed.

Lemma _process_domains_others self ids groups w r w' :
  Forall (fun g => Forall (fun link => In (link_id link) ids) (snd g)) groups ->
  _process_domains self groups w = (r, w') -> others_kept ids w w'.
Proof.
  apply (_process_domains_frame (others_kept ids) (fun link => In (link_id link) ids)).
  - apply others_kept_refl.
  - apply others_kept_trans.
  - intros. eapply same_db_others_kept, sleep_db; eauto.
  - intros. eapply same_db_others_kept, _apply_rate_limit_db; eauto.
  - intros. eapply same_db_others_kept, process_db; eauto.
  - intros. eapply save_processed_content_others; eauto.
  - intros. eapply update_link_status_others; eauto.
Qed.

(** The links of the groups are links of the list. *)
Lemma _group_by_domain_Forall (P : Link -> Prop) links :
  Forall P links -> Forall (fun g => Forall P (snd g)) (_group_by_domain links).
Proof.
  intros HP. apply Forall_forall. intros [d ls] Hin.
  rewrite (_group_by_domain_groups links d ls Hin). cbn.
  apply Forall_forall. intros link Hl. unfold links_of in Hl.
  apply filter_In in Hl as [Hl _]. eapply Forall_forall in HP; eauto.
Qed.

Lemma read_result {A} (f : Tables -> A) w a w' :
  transaction (fun _ t => inl (f t, t)) w = (Ok a, w') -> a = f (db w) /\ db w' = db w.
Proof.
  intros H. apply transaction_inv in H as (_ & _ & _ & _ & _ & [(e & He & _) | (b & Hb & Hbody)]);
    [discriminate|].
  inversion Hb; subst b. inversion Hbody. auto.
Qed.

Lemma others_kept_incl ids ids' w w' :
  incl ids ids' -> others_kept ids w w' -> others_kept ids' w w'.
Proof.
  intros Hi [F C]. split.
  - eapply Forall2_impl; [|exact F]. cbn. intros r r' [Hid Hr]. split; [assumption|].
    intros Hout. apply Hr. intros Hin. apply Hout, Hi, Hin.
  - revert C. generalize (processed_content (db w')) (processed_content (db w)).
    assert (Hsub : forall c, content_outside ids' c = true -> content_outside ids c = true).
    { intros c. unfold content_outside. rewrite !negb_true_iff.
      intros Hn. destruct (existsb _ ids) eqn:E; [|reflexivity].
      apply existsb_exists in E as (i & Hin & Hi'). rewrite <- Hn. symmetry.
      apply existsb_exists. exists i. split; [apply Hi, Hin | assumption]. }
    assert (Hf : forall l, List.filter (content_outside ids') l
                           = List.filter (content_outside ids') (List.filter (content_outside ids) l)).
    { induction l as [|c l IH]; [reflexivity|]. cbn [List.filter].
      destruct (content_outside ids' c) eqn:E'.
      - rewrite (Hsub c E'). cbn [List.filter]. rewrite E'. now f_equal.
      - destruct (content_outside ids c); [cbn [List.filter]; rewrite E'|]; exact IH. }
    intros l1 l2 Heq. rewrite (Hf l1), (Hf l2). now rewrite Heq.
Qed.

Lemma process_links_engine self ids links w r w' :
  Forall (fun link => In (link_id link) ids) links ->
  match links with
  | [] => ret (mkStats no_stats None)
  | _ => _process_domains self (_group_by_domain links)
  end w = (r, w') ->
  others_kept ids w w' /\ tasks_kept w w'.
Proof.
  intros Hl H. destruct links as [|l links].
  - inversion H; subst. split; [apply others_kept_refl | apply tasks_kept_refl].
  - split.
    + eapply _process_domains_others; [|exact H]. now apply _group_by_domain_Forall.
    + eapply _process_domains_tasks; exact H.
Qed.

Lemma insert_desc_In r x sorted : In x (insert_desc r sorted) <-> x = r \/ In x sorted.
Proof.
  induction sorted as [|y sorted IH]; cbn.
  - intuition.
  - destruct (nl_discovered_at y <? nl_discovered_at r)%Z; cbn; [intuition|].
    rewrite IH. intuition.
Qed.

Lemma order_by_discovered_at_desc_In x rows :
  In x (order_by_discovered_at_desc rows) <-> In x rows.
Proof.
  unfold order_by_discovered_at_desc.
  assert (G : forall acc, In x (fold_left (fun sorted r => insert_desc r sorted) rows acc)
                          <-> In x acc \/ In x rows).
  { induction rows as [|r rows IH]; intros acc; cbn [fold_left].
    - cbn. intuition.
    - rewrite IH, insert_desc_In. cbn. intuition. }
  rewrite G. cbn. intuition.
Qed.

Lemma In_firstn {A} n (l : list A) x : In x (firstn n l) -> In x l.
Proof. intros H. rewrite <- (firstn_skipn n l). apply in_or_app. now left. Qed.

Lemma process_specific_links_others
    (self : ProcessorWorker) (link_ids : list Z) (w : World) r w' :
  process_specific_links self link_ids w = (r, w') ->
  others_kept link_ids w w' /\ tasks_kept w w'.
Proof.
  unfold process_specific_links. intros H.
  apply bind_inv in H as [(links & w1 & Hg & Hk) | (e & Hg & ->)].
  - unfold get_links_by_ids in Hg. apply read_result in Hg as [-> Hdb].
    eapply process_links_engine in Hk as [Ho Ht].
    + split.
      * eapply others_kept_trans; [apply same_db_others_kept, Hdb | exact Ho].
      * eapply tasks_kept_trans; [apply same_db_tasks_kept, Hdb | exact Ht].
    + apply Forall_forall. intros link Hin.
      apply in_map_iff in Hin as (row & <- & Hrow). cbn.
      apply filter_In in Hrow as [_ Hrow].
      apply existsb_exists in Hrow as (i & Hi & E). apply Z.eqb_eq in E. now rewrite E.
  - unfold get_links_by_ids in Hg. apply read_same in Hg as [_ Hdb].
    split; [now apply same_db_others_kept | now apply same_db_tasks_kept].
Qed.

Lemma process_pending_links_others
    (self : ProcessorWorker) (limit : nat) (w : World) r w' :
  process_pending_links self limit w = (r, w') ->
  others_kept (pending_ids w) w w' /\ tasks_kept w w'.
Proof.
  unfold process_pending_links. intros H.
  apply bind_inv in H as [(links & w1 & Hg & Hk) | (e & Hg & ->)].
  - unfold get_pending_links in Hg. apply read_result in Hg as [-> Hdb].
    eapply process_links_engine in Hk as [Ho Ht].
    + split.
      * eapply others_kept_trans; [apply same_db_others_kept, Hdb | exact Ho].
      * eapply tasks_kept_trans; [apply same_db_tasks_kept, Hdb | exact Ht].
    + apply Forall_forall. intros link Hin.
      apply in_map_iff in Hin as (row & <- & Hrow). cbn.
      apply In_firstn in Hrow. apply (proj1 (order_by_discovered_at_desc_In _ _)) in Hrow.
      unfold pending_ids. apply in_map_iff. exists row. split; [reflexivity | assumption].
  - unfold get_pending_links in Hg. apply read_same in Hg as [_ Hdb].
    split; [now apply same_db_others_kept | now apply same_db_tasks_kept].
Qed.

(** X2.  [process_specific_links(link_ids)] changes nothing but the links
    whose id is in [link_ids] and their contents: every other link and
    every other content is as it was, no link is added or removed, and
    the tasks are untouched, whatever the processor returns or raises
    and whichever transactions fail. *)
Theorem process_specific_links_touches_only_requested
    (self : ProcessorWorker) (link_ids : list Z) (w : World) :
  others_kept link_ids w (snd (process_specific_links self link_ids w))
  /\ tasks_kept w (snd (process_specific_links self link_ids w)).
Proof.
  destruct (process_specific_links self link_ids w) as [r w'] eqn:H.
  eapply process_specific_links_others; eauto.
Qed.

(** X3.  [process_pending_links(limit)] changes nothing but links that are
    pending when it is called, and their contents: every link whose id
    is not the id of a pending link is as it was, and so are its
    content and the tasks. *)
Theorem process_pending_links_touches_only_pending
    (self : ProcessorWorker) (limit : nat) (w : World) :
  others_kept (pending_ids w) w (snd (process_pending_links self limit w))
  /\ tasks_kept w (snd (process_pending_links self limit w)).
Proof.
  destruct (process_pending_links self limit w) as [r w'] eqn:H.
  eapply process_pending_links_others; eauto.
Qed.

(** ** The calls of the processor *)

Lemma calls_refl w : calls [] w w.
Proof. unfold calls. now rewrite app_nil_r. Qed.

Lemma calls_trans l1 l2 a b c : calls l1 a b -> calls l2 b c -> calls (l1 ++ l2) a c.
Proof. unfold calls. intros H1 H2. now rewrite H2, H1, app_assoc. Qed.

Lemma quiet_ret {A} (a : A) : quiet (ret a).
Proof. intros w r w' H. inversion H; subst. apply calls_refl. Qed.

Lemma quiet_bind {A B} (m : M A) (k : A -> M B) :
  quiet m -> (forall a, quiet (k a)) -> quiet (bind m k).
Proof.
  intros Hm Hk w r w' H. apply bind_inv in H as [(a & w1 & Ha & Hb) | (e & Ha & _)].
  - apply (calls_trans [] [] w w1 w'); [eapply Hm | eapply Hk]; eauto.
  - eapply Hm; eauto.
Qed.

Lemma quiet_transaction {A} (body : Z -> Tables -> A * Tables + string) :
  quiet (transaction body).
Proof.
  intros w r w' H. apply transaction_inv in H as (_ & Hl & _).
  unfold calls. now rewrite Hl, app_nil_r.
Qed.

Lemma quiet_sleep ms : quiet (sleep ms).
Proof. intros w r w' H. inversion H; subst. unfold calls. cbn. now rewrite app_nil_r. Qed.

Lemma quiet_update_link_status i s e : quiet (update_link_status i s e).
Proof.
  intros w r w' H. unfold update_link_status in H.
  destruct (transaction _ w) as [r1 w1] eqn:E.
  apply quiet_transaction in E.
  destruct r1 as [[]|e1]; inversion H; subst; exact E.
Qed.

Lemma quiet_save_processed_content i t c tc md : quiet (save_processed_content i t c tc md).
Proof.
  intros w r w' H. apply save_processed_content_inv in H as (_ & Hl & _).
  unfold calls. now rewrite Hl, app_nil_r.
Qed.

Lemma quiet__apply_rate_limit d : quiet (_apply_rate_limit d).
Proof.
  unfold _apply_rate_limit. apply quiet_bind.
  - intros w r w' H. destruct (domain_last_request w !! d) as [last|];
      [destruct (clock w - last <? seconds SAME_DOMAIN_DELAY)%Z|];
      inversion H; subst; unfold calls; cbn; now rewrite app_nil_r.
  - intros _ w r w' H. inversion H; subst. unfold calls. cbn. now rewrite app_nil_r.
Qed.

Lemma process_calls p u w r w' : process p u w = (r, w') -> calls [u] w w'.
Proof. unfold process. destruct (p _ u); intros H; inversion H; subst; reflexivity. Qed.

Lemma attempt_link_calls self link attempt w r w' :
  attempt_link self link attempt w = (r, w') -> calls (attempt_calls self link) w w'.
Proof.
  intros H. unfold attempt_link in H.
  assert (Hbody : forall rb wb,
    match ai_processor self with
    | Some p =>
        result <- process p (link_url link) ;;
        match result with
        | Some r =>
            if result_success r then
              save_processed_content (link_id link) (result_title r) (result_content r)
                (result_translated_content r) (result_metadata r) ;;;
              update_link_status (link_id link) Completed None ;;;
              ret (Some true)
            else ret None
        | None => ret None
        end
    | None =>
        sleep 500 ;;;
        update_link_status (link_id link) Completed None ;;;
        ret (Some true)
    end w = (rb, wb) -> calls (attempt_calls self link) w wb).
  { intros rb wb Hb. unfold attempt_calls. destruct (ai_processor self) as [p|].
    - apply bind_inv in Hb as [(a & w1 & Ha & Hk) | (e & Ha & _)];
        [|eapply process_calls; eauto].
      apply process_calls in Ha.
      rewrite <- (app_nil_r [link_url link]). eapply calls_trans; [exact Ha|].
      revert Hk. generalize w1 rb wb. change (quiet
        match a with
        | Some r0 =>
            if result_success r0 then
              save_processed_content (link_id link) (result_title r0) (result_content r0)
                (result_translated_content r0) (result_metadata r0) ;;;
              update_link_status (link_id link) Completed None ;;;
              ret (Some true)
            else ret None
        | None => ret None
        end).
      destruct a as [r0|]; [destruct (result_success r0)|]; try apply quiet_ret.
      apply quiet_bind; [apply quiet_save_processed_content|]. intros _.
      apply quiet_bind; [apply quiet_update_link_status|]. intros _. apply quiet_ret.
    - revert Hb. generalize w rb wb. change (quiet
        (sleep 500 ;;; update_link_status (link_id link) Completed None ;;; ret (Some true))).
      apply quiet_bind; [apply quiet_sleep|]. intros _.
      apply quiet_bind; [apply quiet_update_link_status|]. intros _. apply quiet_ret. }
  apply try_except_inv in H as [(a & Hb & _) | (e & w1 & Hb & Hh)].
  - eapply Hbody; eauto.
  - rewrite <- (app_nil_r (attempt_calls self link)).
    eapply calls_trans; [eapply Hbody; eauto|].
    revert Hh. generalize w1 r w'. change (quiet
      (if Nat.eqb attempt MAX_RETRIES then
         update_link_status (link_id link) Failed (Some (str e)) ;;; ret (Some false)
       else sleep (seconds (2 ^ Z.of_nat attempt)) ;;; ret None)).
    destruct (Nat.eqb attempt MAX_RETRIES).
    + apply quiet_bind; [apply quiet_update_link_status|]. intros _. apply quiet_ret.
    + apply quiet_bind; [apply quiet_sleep|]. intros _. apply quiet_ret.
Qed.

Lemma retry_loop_calls self link attempts : forall w r w',
  retry_loop self link attempts w = (r, w') ->
  exists n, n <= length attempts
            /\ match ai_processor self with
               | Some _ => attempts <> [] -> 1 <= n
               | None => n = 0
               end
            /\ calls (repeat (link_url link) n) w w'.
Proof.
  induction attempts as [|attempt rest IH]; intros w r w' H; cbn [retry_loop] in H.
  - inversion H; subst. exists 0. split; [lia|]. split; [|apply calls_refl].
    destruct (ai_processor self); [intros Hne; now contradiction Hne | reflexivity].
  - assert (Hone : exists k, attempt_calls self link = repeat (link_url link) k
                             /\ match ai_processor self with Some _ => k = 1 | None => k = 0 end).
    { unfold attempt_calls. destruct (ai_processor self); [exists 1 | exists 0]; auto. }
    destruct Hone as (k & Ek & Hk).
    assert (Hstop : calls (repeat (link_url link) k) w w' ->
              exists n, n <= length (attempt :: rest)
                        /\ match ai_processor self with
                           | Some _ => attempt :: rest <> [] -> 1 <= n
                           | None => n = 0
                           end
                        /\ calls (repeat (link_url link) n) w w').
    { intros Hc. exists k. split; [|split; [|exact Hc]];
        destruct (ai_processor self); cbn; intros; lia. }
    apply bind_inv in H as [(a & w1 & Ha & Hb) | (e & Ha & _)].
    + apply attempt_link_calls in Ha. rewrite Ek in Ha. destruct a as [b|].
      * inversion Hb; subst. now apply Hstop.
      * apply IH in Hb as (n & Hn & Hp & Hc). exists (k + n). split; [|split].
        -- destruct (ai_processor self); cbn; lia.
        -- destruct (ai_processor self); [intros _|]; lia.
        -- rewrite repeat_app. eapply calls_trans; eauto.
    + apply attempt_link_calls in Ha. rewrite Ek in Ha. now apply Hstop.
Qed.

Lemma process_links_calls self domain links : forall stats w r w',
  process_links self domain links stats w = (r, w') ->
  exists counts,
    length counts <= length links
    /\ ((exists s, r = Ok s) -> length counts = length links)
    /\ Forall (tried self) counts
    /\ calls (calls_of links counts) w w'.
Proof.
  induction links as [|link rest IH]; intros stats w r w' H; cbn [process_links] in H.
  - inversion H; subst. exists []. cbn. repeat split; auto. apply calls_refl.
  - assert (Hstop : forall w0, calls [] w w0 ->
              (forall s, r <> Ok s) ->
              exists counts,
                length counts <= length (link :: rest)
                /\ ((exists s, r = Ok s) -> length counts = length (link :: rest))
                /\ Forall (tried self) counts
                /\ calls (calls_of (link :: rest) counts) w w0).
    { intros w0 Hc Hr. exists []. cbn. repeat split; auto; [lia|].
      intros [s Hs]. now apply Hr in Hs. }
    assert (Htried : forall n,
              n <= length (seq 1 MAX_RETRIES) ->
              match ai_processor self with
              | Some _ => seq 1 MAX_RETRIES <> [] -> 1 <= n
              | None => n = 0
              end -> tried self n).
    { intros n Hn Hp. unfold tried. rewrite length_seq in Hn.
      destruct (ai_processor self); [|exact Hp].
      split; [apply Hp; discriminate | exact Hn]. }
    apply bind_inv in H as [(a & w1 & Ha & Hb) | (e & Ha & ->)];
      [|apply Hstop; [eapply quiet__apply_rate_limit; eauto | discriminate]].
    apply quiet__apply_rate_limit in Ha.
    apply bind_inv in Hb as [(a2 & w2 & Ha2 & Hb2) | (e & Ha2 & ->)];
      [|apply Hstop; [|discriminate];
        apply (calls_trans [] [] w w1 w'); [assumption|];
        eapply quiet_update_link_status; eauto].
    apply quiet_update_link_status in Ha2.
    pose proof (calls_trans [] [] _ _ _ Ha Ha2) as H02. cbn in H02.
    apply bind_inv in Hb2 as [(ok & w3 & Ha3 & Hb3) | (e & Ha3 & ->)].
    + apply retry_loop_calls in Ha3 as (n & Hn & Hp & Hc).
      apply IH in Hb3 as (counts & Hlen & Hok & Hall & Hcs).
      exists (n :: counts). cbn [length calls_of]. repeat split.
      * lia.
      * intros Hs. apply Hok in Hs. lia.
      * constructor; [now apply Htried | exact Hall].
      * apply (calls_trans [] _ w w2 w'); [assumption|]. eapply calls_trans; eauto.
    + apply retry_loop_calls in Ha3 as (n & Hn & Hp & Hc).
      exists [n]. cbn [length calls_of]. repeat split.
      * lia.
      * intros [s Hs]. discriminate.
      * constructor; [now apply Htried | constructor].
      * destruct rest; rewrite app_nil_r;
          apply (calls_trans [] _ w w2 w'); assumption.
Qed.

Lemma calls_of_untried links : forall counts,
  Forall (fun n => n = 0) counts -> calls_of links counts = [].
Proof.
  induction links as [|link rest IH]; intros counts H; [reflexivity|].
  destruct counts as [|n counts]; [reflexivity|].
  inversion H; subst. cbn. now apply IH.
Qed.

(** ** Time *)

Lemma waited_refl w : waited w w.
Proof. split; [lia | reflexivity]. Qed.

Lemma waited_trans a b c : waited a b -> waited b c -> waited a c.
Proof. unfold waited. intros [H1 ->] [H2 ->]. split; [lia | reflexivity]. Qed.

Lemma transaction_waited {A} (body : Z -> Tables -> A * Tables + string) w r w' :
  transaction body w = (r, w') -> waited w w'.
Proof.
  intros H. apply transaction_inv in H as (_ & _ & Hc & Hd & _). split; [lia | assumption].
Qed.

Lemma sleep_waited ms w r w' : sleep ms w = (r, w') -> waited w w'.
Proof. unfold sleep. intros H. inversion H; subst. split; cbn; [lia | reflexivity]. Qed.

Lemma process_waited p u w r w' : process p u w = (r, w') -> waited w w'.
Proof.
  unfold process. destruct (p _ u); intros H; inversion H; subst; split; cbn;
    try lia; reflexivity.
Qed.

Lemma update_link_status_waited i s e w r w' :
  update_link_status i s e w = (r, w') -> waited w w'.
Proof.
  unfold update_link_status. intros H.
  destruct (transaction _ w) as [r1 w1] eqn:E. apply transaction_waited in E.
  destruct r1 as [[]|e1]; inversion H; subst; exact E.
Qed.

Lemma save_processed_content_waited i t c tc md w r w' :
  save_processed_content i t c tc md w = (r, w') -> waited w w'.
Proof.
  intros H. apply save_processed_content_inv in H as (_ & _ & Hc & Hd & _).
  split; [lia | assumption].
Qed.

Lemma retry_loop_waited self link attempts w r w' :
  retry_loop self link attempts w = (r, w') -> waited w w'.
Proof.
  apply (retry_loop_frame waited (fun _ => True)); auto.
  - apply waited_refl.
  - apply waited_trans.
  - intros. eapply sleep_waited; eauto.
  - intros. eapply process_waited; eauto.
  - intros. eapply save_processed_content_waited; eauto.
  - intros. eapply update_link_status_waited; eauto.
Qed.

Lemma _apply_rate_limit_inv d w :
  exists w',
    _apply_rate_limit d w = (Ok tt, w')
    /\ db w' = db w /\ faults w' = faults w
    /\ processor_log w' = processor_log w /\ status_log w' = status_log w
    /\ domain_last_request w' = <[d := clock w']> (domain_last_request w)
    /\ (clock w <= clock w')%Z
    /\ match domain_last_request w !! d with
       | Some last =>
           (last + seconds SAME_DOMAIN_DELAY <= clock w')%Z
           /\ (clock w' = clock w \/ clock w' = last + seconds SAME_DOMAIN_DELAY)%Z
       | None => clock w' = clock w
       end.
Proof.
  unfold _apply_rate_limit, bind.
  destruct (domain_last_request w !! d) as [last|] eqn:E.
  - destruct (clock w - last <? seconds SAME_DOMAIN_DELAY)%Z eqn:El.
    + apply Z.ltb_lt in El. eexists. split; [reflexivity|].
      unfold seconds, SAME_DOMAIN_DELAY in *. cbn.
      repeat split; auto; lia.
    + apply Z.ltb_ge in El. eexists. split; [reflexivity|].
      unfold seconds, SAME_DOMAIN_DELAY in *. cbn.
      repeat split; auto; lia.
  - eexists. split; [reflexivity|]. cbn. repeat split; auto; lia.
Qed.

Lemma process_links_starts self domain links : forall stats w,
  Forall (fun s => domain_last_request s !! domain = Some (clock s))
         (starts self domain links w)
  /\ (forall i a b,
        starts self domain links w !! i = Some a ->
        starts self domain links w !! S i = Some b ->
        (clock a + seconds SAME_DOMAIN_DELAY <= clock b)%Z)
  /\ (forall a, starts self domain links w !! 0 = Some a ->
        (clock w <= clock a)%Z
        /\ forall last, domain_last_request w !! domain = Some last ->
                        (last + seconds SAME_DOMAIN_DELAY <= clock a)%Z)
  /\ match process_links self domain links stats w with
     | (Ok _, w') =>
         length (starts self domain links w) = length links
         /\ forall s, starts self domain links w !! (length links - 1) = Some s ->
                      domain_last_request w' !! domain = Some (clock s)
                      /\ (clock s <= clock w')%Z
     | (Raise _, _) => True
     end.
Proof.
  induction links as [|link rest IH]; intros stats w.
  - cbn. split; [constructor|]. split; [discriminate|]. split; [discriminate|].
    split; [reflexivity | discriminate].
  - cbn [starts process_links].
    destruct (_apply_rate_limit_inv domain w) as (w1 & Hr & _ & _ & _ & _ & Hd1 & Hc1 & Hlast).
    rewrite Hr, (bind_ok _ _ _ _ _ Hr).
    assert (Hs1 : domain_last_request w1 !! domain = Some (clock w1))
      by (rewrite Hd1; apply lookup_insert_eq).
    assert (Hfirst : (clock w <= clock w1)%Z
                     /\ forall last, domain_last_request w !! domain = Some last ->
                                     (last + seconds SAME_DOMAIN_DELAY <= clock w1)%Z).
    { split; [exact Hc1|]. intros last Hl. rewrite Hl in Hlast. lia. }
    destruct (update_link_status (link_id link) Processing None w1) as [[[]|e] w2] eqn:Hu.
    2:{ unfold bind at 1. rewrite Hu.
        split; [repeat constructor; exact Hs1|]. split; [intros [|i] a b Ha Hb; discriminate|].
        split; [|exact I]. intros a Ha. inversion Ha; subst. exact Hfirst. }
    rewrite (bind_ok _ _ _ _ _ Hu).
    apply update_link_status_waited in Hu as [Hc2 Hd2].
    destruct (_process_single_link self link w2) as [[ok|e] w3] eqn:Hp.
    2:{ unfold bind at 1. rewrite Hp.
        split; [repeat constructor; exact Hs1|]. split; [intros [|i] a b Ha Hb; discriminate|].
        split; [|exact I]. intros a Ha. inversion Ha; subst. exact Hfirst. }
    rewrite (bind_ok _ _ _ _ _ Hp).
    apply retry_loop_waited in Hp as [Hc3 Hd3].
    assert (Hstamp : domain_last_request w3 !! domain = Some (clock w1))
      by (rewrite Hd3, Hd2; exact Hs1).
    match goal with
    | |- context [process_links self domain rest ?st w3] =>
        destruct (IH st w3) as (Hall & Hadj & Hhead & Hend)
    end.
    split; [constructor; [exact Hs1 | exact Hall]|].
    split.
    { intros [|i] a b Ha Hb; cbn in Ha, Hb.
      - inversion Ha; subst. destruct (Hhead b Hb) as [_ Hb']. now apply Hb'.
      - eapply Hadj; eauto. }
    split; [intros a Ha; inversion Ha; subst; exact Hfirst|].
    destruct (process_links self domain rest _ w3) as [[s|e] w'] eqn:Hk; [|exact I].
    destruct Hend as [Hlen Hfin]. cbn [length]. split; [now rewrite Hlen|].
    destruct rest as [|link2 rest].
    + cbn in Hk. inversion Hk; subst. cbn. intros s0 Hs0. inversion Hs0; subst.
      split; [exact Hstamp | lia].
    + cbn [length] in *. replace (S (S (length rest)) - 1) with (S (length rest)) by lia.
      replace (S (length rest) - 1) with (length rest) in Hfin by lia.
      cbn. exact Hfin.
Qed.

Lemma refusing_is_called_without_wait link w :
  exists w',
    _process_single_link (mkProcessorWorker (Some refusing)) link w = (Ok false, w')
    /\ processor_log w' = processor_log w ++ repeat (link_url link) MAX_RETRIES
    /\ clock w' = clock w.
Proof.
  eexists. split; [reflexivity|]. cbn. now rewrite <- app_assoc.
Qed.

(** ** Statistics of a run on a store that answers *)

Lemma ran_healthy self groups w futures w' :
  healthy w -> ran self groups w futures w' ->
  healthy w'
  /\ Forall2 (fun g f => fst f = fst g /\ exists s, snd f = Ok s /\ counted (snd g) s)
             groups futures.
Proof.
  intros Hf Hran. induction Hran as [|domain links rest w future w1 futures w2 Hd _ IH].
  - split; [assumption | constructor].
  - destruct (_process_domain_returns self domain links w Hf) as (s & w1' & Hrun & Hf1).
    rewrite Hrun in Hd. inversion Hd; subst future w1'.
    destruct (IH Hf1) as [Hf2 Hall]. split; [assumption|].
    constructor; [|assumption]. split; [reflexivity|]. exists s. split; [reflexivity|].
    unfold _process_domain in Hrun. apply process_links_counts in Hrun. cbn in Hrun.
    unfold counted. cbn. lia.
Qed.

Lemma counted_sum groups futures :
  Forall2 (fun g f => fst f = fst g /\ exists s, snd f = Ok s /\ counted (snd g) s)
          groups futures ->
  counted (concat (map snd groups)) (sum_stats (map snd (returned futures))).
Proof.
  induction 1 as [|[d links] [d' f] groups futures [Hd (s & Hs & Hc)] _ IH].
  - repeat split.
  - cbn in Hd, Hs. subst d' f.
    change (returned ((d, Ok s) :: futures)) with ((d, s) :: returned futures).
    cbn [map snd concat sum_stats fold_right].
    fold (sum_stats (map snd (returned futures))).
    destruct Hc as (H1 & H2 & H3), IH as (I1 & I2 & I3).
    unfold counted in *. cbn in *. rewrite length_app. lia.
Qed.

Lemma futures_all_ok (groups : list (string * list Link))
    (futures : list (string * Res DomainStats)) :
  Forall2 (fun g f => fst f = fst g /\ exists s, snd f = Ok s /\ counted (snd g) s)
          groups futures ->
  forall d r, In (d, r) futures ->
    exists s links, r = Ok s /\ In (d, links) groups /\ counted links s.
Proof.
  induction 1 as [|[d0 links] [d' f] groups futures [Hd (s & Hs & Hc)] _ IH];
    intros d r Hin; [contradiction|].
  cbn in Hd, Hs. subst d' f. destruct Hin as [Heq | Hin].
  - inversion Heq; subst. exists s, links. split; [reflexivity|]. split; [now left | assumption].
  - destruct (IH d r Hin) as (s' & links' & -> & Hg & Hc'). exists s', links'.
    split; [reflexivity|]. split; [now right | assumption].
Qed.

Lemma _process_domains_healthy self groups w :
  healthy w -> NoDup (map fst groups) ->
  exists tot bd w',
    _process_domains self groups w = (Ok (mkStats tot (Some bd)), w')
    /\ healthy w'
    /\ counted (concat (map snd groups)) tot
    /\ (forall d, is_Some (bd !! d) <-> In d (map fst groups))
    /\ (forall d s links, bd !! d = Some s -> In (d, links) groups -> counted links s).
Proof.
  intros Hf ND.
  destruct (_process_domains_stats self groups w ND)
    as (futures & w' & tot & bd & Hran & Hrun & Hbd & Htot & _).
  destruct (ran_healthy _ _ _ _ _ Hf Hran) as [Hf' Hall].
  pose proof (counted_sum _ _ Hall) as Hc.
  pose proof (futures_all_ok _ _ Hall) as Hok.
  pose proof (ran_keys _ _ _ _ _ Hran) as Hkeys.
  exists tot, bd, w'. split; [assumption|]. split; [assumption|].
  split; [now rewrite Htot|]. split.
  - intros d. split.
    + intros [s Hs]. apply Hbd in Hs. rewrite <- Hkeys.
      apply in_map_iff. now exists (d, Ok s).
    + intros Hin. rewrite <- Hkeys in Hin.
      apply in_map_iff in Hin as ([d' r] & Heq & Hin). cbn in Heq. subst d'.
      destruct (Hok d r Hin) as (s & _ & -> & _). exists s. now apply Hbd.
  - intros d s links Hs Hin. apply Hbd in Hs.
    destruct (Hok d _ Hs) as (s' & links' & Heq & Hin' & Hc').
    inversion Heq; subst s'.
    now rewrite (NoDup_keys_functional _ _ _ _ ND Hin Hin').
Qed.

Lemma In_first_occurrences seen l k :
  In k l -> In k seen \/ In k (first_occurrences seen l).
Proof.
  revert seen. induction l as [|x l IH]; intros seen; cbn [first_occurrences]; [contradiction|].
  intros [-> | Hin].
  - destruct (in_list k seen) eqn:E; [left; now apply in_list_In | right; now left].
  - destruct (in_list x seen) eqn:E; [now apply IH|].
    destruct (IH (seen ++ [x]) Hin) as [Hs | Hf]; [|right; now right].
    apply in_app_or in Hs as [Hs | [<- | []]]; [now left | right; now left].
Qed.

Lemma _group_by_domain_domains links d :
  In d (map fst (_group_by_domain links)) <-> In d (map domain_of links).
Proof.
  rewrite _group_by_domain_keys. split.
  - apply first_occurrences_In.
  - intros H. destruct (In_first_occurrences [] _ _ H) as [[] | Hf]. exact Hf.
Qed.

(** The engine on the links it fetched, on a store that answers *)
Lemma process_fetched_healthy self (links : list Link) w :
  healthy w ->
  exists stats w',
    match links with
    | [] => ret (mkStats no_stats None)
    | _ => _process_domains self (_group_by_domain links)
    end w = (Ok stats, w')
    /\ healthy w'
    /\ counted links (totals stats)
    /\ match by_domain stats with
       | Some bd =>
           links <> []
           /\ (forall d, is_Some (bd !! d) <-> In d (map domain_of links))
           /\ (forall d s, bd !! d = Some s -> counted (links_of d links) s)
       | None => links = []
       end.
Proof.
  intros Hf. destruct links as [|l ls].
  - exists (mkStats no_stats None), w. repeat split. exact Hf.
  - destruct (_process_domains_healthy self (_group_by_domain (l :: ls)) w Hf
                (_group_by_domain_NoDup (l :: ls)))
      as (tot & bd & w' & Hrun & Hf' & Hc & Hdom & Hper).
    exists (mkStats tot (Some bd)), w'. split; [assumption|]. split; [assumption|].
    cbn [totals by_domain]. split.
    + destruct Hc as (H1 & H2 & H3). unfold counted.
      rewrite <- (Permutation_length (_group_by_domain_concat (l :: ls))). auto.
    + split; [discriminate|]. split.
      * intros d. rewrite Hdom. apply _group_by_domain_domains.
      * intros d s Hs.
        assert (Hin : In d (map fst (_group_by_domain (l :: ls))))
          by (apply Hdom; eauto).
        apply in_map_iff in Hin as ([d' links'] & Heq & Hin). cbn in Heq. subst d'.
        rewrite <- (_group_by_domain_groups _ _ _ Hin). eapply Hper; eauto.
Qed.

(** X4.  on a store that answers, [process_specific_links(link_ids)]
    returns statistics that count every stored link among [link_ids]
    once: [total] is their number, every one of them is counted as a
    success or as a failure, none is skipped, and [by_domain] has an
    entry for each of their domains and no other, counting the links of
    that domain.  When none of the ids is stored there is no [by_domain]. *)
Theorem specific_links_are_all_counted (self : ProcessorWorker) (link_ids : list Z) (w : World) :
  healthy w ->
  exists stats w',
    process_specific_links self link_ids w = (Ok stats, w')
    /\ counted (map link_of (selected link_ids (db w))) (totals stats)
    /\ match by_domain stats with
       | Some bd =>
           selected link_ids (db w) <> []
           /\ (forall d, is_Some (bd !! d)
                         <-> In d (map domain_of (map link_of (selected link_ids (db w)))))
           /\ (forall d s, bd !! d = Some s ->
                 counted (links_of d (map link_of (selected link_ids (db w)))) s)
       | None => selected link_ids (db w) = []
       end.
Proof.
  intros Hf. unfold process_specific_links, get_links_by_ids.
  erewrite bind_ok; [|apply transaction_ok; [exact Hf | reflexivity]].
  rewrite set_db_same.
  change (map _ (List.filter _ (news_links (db w))))
    with (map link_of (selected link_ids (db w))).
  destruct (process_fetched_healthy self (map link_of (selected link_ids (db w))) w Hf)
    as (stats & w' & Hrun & _ & Hc & Hbd).
  exists stats, w'. split; [exact Hrun|]. split; [exact Hc|].
  destruct (by_domain stats) as [bd|].
  - destruct Hbd as (Hne & Hd & Hs). split; [|split; assumption].
    intros Hnil. apply Hne. now rewrite Hnil.
  - now apply map_eq_nil in Hbd.
Qed.

Lemma specific_links_are_all_counted_witness :
  healthy (world_of [a1; b2] [] [])
  /\ exists stats w',
       process_specific_links (mkProcessorWorker (Some succeeding)) [1%Z; 2%Z; 7%Z]
         (world_of [a1; b2] [] []) = (Ok stats, w')
       /\ counted (map link_of (selected [1%Z; 2%Z; 7%Z] (db (world_of [a1; b2] [] []))))
                  (totals stats)
       /\ match by_domain stats with
          | Some bd =>
              selected [1%Z; 2%Z; 7%Z] (db (world_of [a1; b2] [] [])) <> []
              /\ (forall d, is_Some (bd !! d)
                            <-> In d (map domain_of
                                       (map link_of
                                          (selected [1%Z; 2%Z; 7%Z]
                                             (db (world_of [a1; b2] [] []))))))
              /\ (forall d s, bd !! d = Some s ->
                    counted (links_of d
                               (map link_of
                                  (selected [1%Z; 2%Z; 7%Z] (db (world_of [a1; b2] [] [])))))
                            s)
          | None => selected [1%Z; 2%Z; 7%Z] (db (world_of [a1; b2] [] [])) = []
          end.
Proof.
  split; [reflexivity|].
  apply (specific_links_are_all_counted (mkProcessorWorker (Some succeeding))
           [1%Z; 2%Z; 7%Z] (world_of [a1; b2] [] [])).
  reflexivity.
Defined.

(** X5.  with a processor, [_process_domain] calls it for the links of
    its partition one after the other, in their order, each with its own
    URL, at least once and at most [MAX_RETRIES] times; when it returns,
    every link of the partition has had its turn, and when it raises, a
    prefix of them has.  Without a processor nothing is called. *)
Theorem _process_domain_calls (self : ProcessorWorker) (domain : string) (links : list Link)
    (w : World) :
  match ai_processor self with
  | Some _ =>
      exists counts,
        Forall (fun n => 1 <= n <= MAX_RETRIES) counts
        /\ processor_log (snd (_process_domain self domain links w))
           = processor_log w ++ calls_of links counts
        /\ match fst (_process_domain self domain links w) with
           | Ok _ => length counts = length links
           | Raise _ => length counts <= length links
           end
  | None => processor_log (snd (_process_domain self domain links w)) = processor_log w
  end.
Proof.
  unfold _process_domain.
  destruct (process_links self domain links _ w) as [r w'] eqn:H.
  apply process_links_calls in H as (counts & Hlen & Hok & Hall & Hc).
  unfold tried in Hall. cbn [fst snd]. destruct (ai_processor self) as [p|].
  - exists counts. split; [exact Hall|]. split; [exact Hc|].
    destruct r as [s|e]; [apply Hok; eauto | assumption].
  - unfold calls in Hc. rewrite (calls_of_untried _ _ Hall), app_nil_r in Hc. exact Hc.
Qed.

(** X6.  [_process_domain] takes up the links of its domain at least
    [SAME_DOMAIN_DELAY] seconds apart: every link is taken up at the
    time [_apply_rate_limit] stamps for the domain, two links in a row
    are taken up at least [SAME_DOMAIN_DELAY] seconds one after the
    other, and the first one at least as long after the request stamped
    for the domain before, when there is one; when the function returns,
    every link was taken up and the stamp left is the one of the last.
    Only this is spaced: the calls of the processor for one link are
    not, a processor that reports no success is called [MAX_RETRIES]
    times with no wait in between. *)
Theorem same_domain_requests_are_spaced (self : ProcessorWorker) (domain : string)
    (links : list Link) (w : World) :
  Forall (fun s => domain_last_request s !! domain = Some (clock s))
         (starts self domain links w)
  /\ (forall i a b,
        starts self domain links w !! i = Some a ->
        starts self domain links w !! S i = Some b ->
        (clock a + seconds SAME_DOMAIN_DELAY <= clock b)%Z)
  /\ (forall a, starts self domain links w !! 0 = Some a ->
        (clock w <= clock a)%Z
        /\ forall last, domain_last_request w !! domain = Some last ->
                        (last + seconds SAME_DOMAIN_DELAY <= clock a)%Z)
  /\ match _process_domain self domain links w with
     | (Ok _, w') =>
         length (starts self domain links w) = length links
         /\ forall s, starts self domain links w !! (length links - 1) = Some s ->
                      domain_last_request w' !! domain = Some (clock s)
                      /\ (clock s <= clock w')%Z
     | (Raise _, _) => True
     end
  /\ forall link w0, exists w1,
       _process_single_link (mkProcessorWorker (Some refusing)) link w0 = (Ok false, w1)
       /\ processor_log w1 = processor_log w0 ++ repeat (link_url link) MAX_RETRIES
       /\ clock w1 = clock w0.
Proof.
  unfold _process_domain.
  destruct (process_links_starts self domain links
              (mkDomainStats (length links) 0 0 0) w) as (Hall & Hadj & Hhead & Hend).
  split; [exact Hall|]. split; [exact Hadj|]. split; [exact Hhead|].
  split; [exact Hend|]. intros link w0. apply refusing_is_called_without_wait.
Qed.

(** ** Contents and tasks *)

Lemma find_updated (i : Z) (f : ProcessedContent -> ProcessedContent) l :
  (forall c, pc_link_id (f c) = i) ->
  List.find (fun c => (pc_link_id c =? i)%Z)
            (map (fun c => if (pc_link_id c =? i)%Z then f c else c) l)
  = option_map f (List.find (fun c => (pc_link_id c =? i)%Z) l).
Proof.
  intros Hf. induction l as [|c l IH]; [reflexivity|]. cbn [map List.find].
  destruct (pc_link_id c =? i)%Z eqn:E.
  - now rewrite Hf, Z.eqb_refl.
  - now rewrite E.
Qed.

Lemma filter_updated_length (i : Z) (f : ProcessedContent -> ProcessedContent) l :
  (forall c, pc_link_id (f c) = i) ->
  length (List.filter (fun c => (pc_link_id c =? i)%Z)
                      (map (fun c => if (pc_link_id c =? i)%Z then f c else c) l))
  = length (List.filter (fun c => (pc_link_id c =? i)%Z) l).
Proof.
  intros Hf. induction l as [|c l IH]; [reflexivity|]. cbn [map List.filter].
  destruct (pc_link_id c =? i)%Z eqn:E.
  - rewrite Hf, Z.eqb_refl. cbn. now rewrite IH.
  - now rewrite E.
Qed.

Lemma filter_other_updated (i other : Z) (f : ProcessedContent -> ProcessedContent) l :
  other <> i -> (forall c, pc_link_id (f c) = i) ->
  List.filter (fun c => (pc_link_id c =? other)%Z)
              (map (fun c => if (pc_link_id c =? i)%Z then f c else c) l)
  = List.filter (fun c => (pc_link_id c =? other)%Z) l.
Proof.
  intros Hne Hf. induction l as [|c l IH]; [reflexivity|]. cbn [map List.filter].
  destruct (pc_link_id c =? i)%Z eqn:E.
  - apply Z.eqb_eq in E. rewrite Hf.
    replace (i =? other)%Z with false by (symmetry; apply Z.eqb_neq; lia).
    replace (pc_link_id c =? other)%Z with false by (symmetry; apply Z.eqb_neq; lia).
    exact IH.
  - now rewrite IH.
Qed.

Lemma existsb_false_filter {A} (p : A -> bool) l : existsb p l = false -> List.filter p l = [].
Proof.
  induction l as [|x l IH]; [reflexivity|]. cbn. destruct (p x); [discriminate|]. exact IH.
Qed.

Lemma existsb_find {A} (p : A -> bool) l :
  existsb p l = true -> exists x, List.find p l = Some x.
Proof.
  induction l as [|x l IH]; [discriminate|]. cbn. destruct (p x) eqn:E; [eauto|]. exact IH.
Qed.

Lemma existsb_false_find {A} (p : A -> bool) l : existsb p l = false -> List.find p l = None.
Proof.
  induction l as [|x l IH]; [reflexivity|]. cbn. destruct (p x); [discriminate|]. exact IH.
Qed.

Lemma existsb_filter_length {A} (p : A -> bool) l :
  existsb p l = true -> 1 <= length (List.filter p l).
Proof.
  induction l as [|x l IH]; [discriminate|]. cbn. destruct (p x); cbn; [lia|]. exact IH.
Qed.

Lemma find_app_fresh {A} (p : A -> bool) l x :
  existsb p l = false -> p x = true -> List.find p (l ++ [x]) = Some x.
Proof.
  induction l as [|y l IH]; cbn; [now intros _ ->|].
  destruct (p y); [discriminate|]. exact IH.
Qed.

(** [save_processed_content] for a stored link, on a store that answers *)
Lemma save_processed_content_ok
    (link_id : Z) (title content translated_content metadata : option string) (w : World) :
  healthy w ->
  link_stored link_id (db w) = true ->
  exists row w',
    save_processed_content link_id title content translated_content metadata w = (Ok tt, w')
    /\ get_processed_content link_id w' = (Ok (Some row), w')
    /\ pc_link_id row = link_id /\ pc_title row = title /\ pc_content row = content
    /\ pc_translated_content row = translated_content
    /\ pc_metadata row = Json_or_None metadata
    /\ pc_updated_at row = clock w
    /\ (forall old, List.find (fun c => (pc_link_id c =? link_id)%Z)
                              (processed_content (db w)) = Some old ->
                    pc_id row = pc_id old /\ pc_created_at row = pc_created_at old)
    /\ length (contents_of link_id (db w')) = Nat.max 1 (length (contents_of link_id (db w)))
    /\ (forall other, other <> link_id ->
          contents_of other (db w') = contents_of other (db w))
    /\ news_links (db w') = news_links (db w)
    /\ news_links_id_seq (db w') = news_links_id_seq (db w)
    /\ healthy w' /\ clock w' = clock w /\ processor_log w' = processor_log w
    /\ status_log w' = status_log w /\ domain_last_request w' = domain_last_request w.
Proof.
  intros Hf El. unfold link_stored in El. unfold save_processed_content.
  set (f := fun c0 : ProcessedContent =>
              mkProcessedContent (pc_id c0) link_id title content translated_content
                                 None None None (Json_or_None metadata) (pc_created_at c0) (clock w)).
  assert (Hfid : forall c, pc_link_id (f c) = link_id) by reflexivity.
  destruct (existsb (fun c => (pc_link_id c =? link_id)%Z) (processed_content (db w))) eqn:Ec.
  - destruct (existsb_find _ _ Ec) as (old & Hfind).
    exists (f old). eexists. split.
    { erewrite bind_ok;
        [| apply transaction_ok; [exact Hf | cbn beta zeta; rewrite El, Ec; reflexivity]].
      reflexivity. }
    split.
    { unfold get_processed_content. erewrite transaction_ok; [|exact Hf | reflexivity].
      cbn [db set_db processed_content set_processed_content].
      fold f. rewrite (find_updated link_id f _ Hfid), Hfind. reflexivity. }
    cbn [f pc_link_id pc_title pc_content pc_translated_content pc_metadata pc_updated_at
         pc_id pc_created_at].
    do 6 (split; [reflexivity|]).
    split; [intros old' Hold'; rewrite Hfind in Hold'; inversion Hold'; subst; auto|].
    unfold contents_of. cbn [db set_db processed_content set_processed_content news_links].
    fold f. split; [|split].
    + rewrite (filter_updated_length link_id f _ Hfid).
      pose proof (existsb_filter_length _ _ Ec). lia.
    + intros other Hne. now apply filter_other_updated.
    + repeat split. exact Hf.
  - set (row := mkProcessedContent (processed_content_id_seq (db w) + 1) link_id title content
                                   translated_content None None None (Json_or_None metadata)
                                   (clock w) (clock w)).
    exists row. eexists. split.
    { erewrite bind_ok;
        [| apply transaction_ok; [exact Hf | cbn beta zeta; rewrite El, Ec; reflexivity]].
      reflexivity. }
    split.
    { unfold get_processed_content. erewrite transaction_ok; [|exact Hf | reflexivity].
      cbn [db set_db processed_content set_processed_content].
      fold row. rewrite (find_app_fresh _ _ row Ec); [reflexivity|]. cbn. apply Z.eqb_refl. }
    do 6 (split; [reflexivity|]).
    split; [intros old Hold; rewrite (existsb_false_find _ _ Ec) in Hold; discriminate|].
    unfold contents_of. cbn [db set_db processed_content set_processed_content news_links].
    fold row. split; [|split].
    + rewrite List.filter_app, (existsb_false_filter _ _ Ec). cbn. now rewrite Z.eqb_refl.
    + intros other Hne. rewrite List.filter_app. cbn.
      replace (link_id =? other)%Z with false by (symmetry; apply Z.eqb_neq; lia).
      now rewrite app_nil_r.
    + repeat split. exact Hf.
Qed.

(** ** One link, on a store that answers *)

Lemma get_processed_content_ok i w :
  healthy w ->
  get_processed_content i w
  = (Ok (List.find (fun c => (pc_link_id c =? i)%Z) (processed_content (db w))), w).
Proof.
  intros Hf. unfold get_processed_content.
  erewrite transaction_ok; [|exact Hf | reflexivity]. now rewrite set_db_same.
Qed.

(** An attempt at which the processor succeeds *)
Lemma attempt_link_succeeds p link attempt res w :
  healthy w ->
  link_stored (link_id link) (db w) = true ->
  p (processor_log w) (link_url link) = Returns (Some res) ->
  result_success res = true ->
  exists saved w',
    attempt_link (mkProcessorWorker (Some p)) link attempt w = (Ok (Some true), w')
    /\ healthy w'
    /\ processor_log w' = processor_log w ++ [link_url link]
    /\ clock w' = clock w
    /\ domain_last_request w' = domain_last_request w
    /\ news_links (db w')
       = map (set_status (link_id link) Completed None (clock w)) (news_links (db w))
    /\ List.find (fun c => (pc_link_id c =? link_id link)%Z) (processed_content (db w'))
       = Some saved
    /\ pc_title saved = result_title res /\ pc_content saved = result_content res
    /\ pc_translated_content saved = result_translated_content res
    /\ pc_metadata saved = Json_or_None (result_metadata res)
    /\ (forall other, other <> link_id link ->
          contents_of other (db w') = contents_of other (db w)).
Proof.
  intros Hf Hst Hp Hres.
  set (w0 := mkWorld (db w) (faults w) (clock w) (domain_last_request w)
                     (processor_log w ++ [link_url link]) (status_log w)).
  destruct (save_processed_content_ok (link_id link) (result_title res) (result_content res)
              (result_translated_content res) (result_metadata res) w0 Hf Hst)
    as (saved & w1 & Hsave & Hget & _ & Ht & Hc & Htc & Hmd & _ & _ & _ & Hother & Hlinks
        & Hseq & Hf1 & Hclock & Hlog & Hslog & Hdlr).
  rewrite (get_processed_content_ok _ _ Hf1) in Hget. inversion Hget as [Hfind]. clear Hget.
  exists saved. eexists. split.
  { unfold attempt_link, try_except. cbn [ai_processor].
    unfold bind at 1, process. rewrite Hp, Hres. fold w0.
    rewrite (bind_ok _ _ _ _ _ Hsave).
    rewrite (bind_ok _ _ _ _ _ (update_link_status_ok _ _ _ _ Hf1)). reflexivity. }
  cbn. rewrite Hlog, Hclock, Hdlr, Hlinks. repeat split; auto.
Qed.

(** An attempt at which the processor raises *)
Lemma attempt_link_raises p link attempt e w :
  healthy w ->
  p (processor_log w) (link_url link) = Raises e ->
  exists w',
    attempt_link (mkProcessorWorker (Some p)) link attempt w
    = (Ok (if Nat.eqb attempt MAX_RETRIES then Some false else None), w')
    /\ healthy w'
    /\ processor_log w' = processor_log w ++ [link_url link]
    /\ domain_last_request w' = domain_last_request w
    /\ processed_content (db w') = processed_content (db w)
    /\ if Nat.eqb attempt MAX_RETRIES then
         clock w' = clock w
         /\ news_links (db w')
            = map (set_status (link_id link) Failed (Some (str e)) (clock w))
                  (news_links (db w))
       else
         clock w' = (clock w + seconds (2 ^ Z.of_nat attempt))%Z
         /\ db w' = db w.
Proof.
  intros Hf Hp. unfold attempt_link, try_except. cbn [ai_processor].
  unfold bind at 1, process. rewrite Hp.
  destruct (Nat.eqb attempt MAX_RETRIES).
  - erewrite bind_ok; [|apply update_link_status_ok; exact Hf].
    eexists. split; [reflexivity|]. cbn. repeat split.
  - eexists. split; [reflexivity|]. cbn. repeat split; auto.
    unfold seconds. f_equal. apply Z.max_r.
    assert (0 <= 2 ^ Z.of_nat attempt)%Z by (apply Z.pow_nonneg; lia). lia.
Qed.

(** X7.  when the processor succeeds at the first attempt, on a store
    that answers, [_process_single_link] returns [True] after one call
    and no wait: the content returned is stored for the link (its
    metadata as [Json_or_None] passes them, an empty dict as no value),
    the link is marked completed with no error message, and the contents
    of the other links are untouched. *)
Theorem first_attempt_success (p : AiProcessor) (link : Link) (res : ProcessResult) (w : World) :
  healthy w ->
  link_stored (link_id link) (db w) = true ->
  p (processor_log w) (link_url link) = Returns (Some res) ->
  result_success res = true ->
  exists saved w',
    _process_single_link (mkProcessorWorker (Some p)) link w = (Ok true, w')
    /\ processor_log w' = processor_log w ++ [link_url link]
    /\ clock w' = clock w
    /\ news_links (db w')
       = map (set_status (link_id link) Completed None (clock w)) (news_links (db w))
    /\ get_processed_content (link_id link) w' = (Ok (Some saved), w')
    /\ pc_title saved = result_title res /\ pc_content saved = result_content res
    /\ pc_translated_content saved = result_translated_content res
    /\ pc_metadata saved = Json_or_None (result_metadata res)
    /\ (forall other, other <> link_id link ->
          contents_of other (db w') = contents_of other (db w)).
Proof.
  intros Hf Hst Hp Hres.
  destruct (attempt_link_succeeds p link 1 res w Hf Hst Hp Hres)
    as (saved & w' & Ha & Hf' & Hlog & Hc & _ & Hl & Hfind & Ht & Hco & Htc & Hmd & Ho).
  exists saved, w'. split.
  { unfold _process_single_link. cbn [seq MAX_RETRIES retry_loop].
    now rewrite (bind_ok _ _ _ _ _ Ha). }
  rewrite (get_processed_content_ok _ _ Hf'), Hfind. repeat split; auto.
Qed.

Lemma first_attempt_success_witness :
  healthy (world_of [a1] [] [])
  /\ link_stored (link_id (link_of a1)) (db (world_of [a1] [] [])) = true
  /\ succeeding (processor_log (world_of [a1] [] [])) (link_url (link_of a1))
     = Returns (Some good_result)
  /\ result_success good_result = true
  /\ exists saved w',
       _process_single_link (mkProcessorWorker (Some succeeding)) (link_of a1)
         (world_of [a1] [] []) = (Ok true, w')
       /\ processor_log w' = processor_log (world_of [a1] [] []) ++ [link_url (link_of a1)]
       /\ clock w' = clock (world_of [a1] [] [])
       /\ news_links (db w')
          = map (set_status (link_id (link_of a1)) Completed None (clock (world_of [a1] [] [])))
                (news_links (db (world_of [a1] [] [])))
       /\ get_processed_content (link_id (link_of a1)) w' = (Ok (Some saved), w')
       /\ pc_title saved = result_title good_result
       /\ pc_content saved = result_content good_result
       /\ pc_translated_content saved = result_translated_content good_result
       /\ pc_metadata saved = Json_or_None (result_metadata good_result)
       /\ (forall other, other <> link_id (link_of a1) ->
             contents_of other (db w') = contents_of other (db (world_of [a1] [] []))).
Proof.
  repeat (split; [reflexivity|]).
  apply (first_attempt_success succeeding (link_of a1) good_result (world_of [a1] [] []));
    reflexivity.
Defined.

(** X8.  when the processor raises at the first attempt and succeeds at
    the second, on a store that answers, [_process_single_link] waits
    two seconds between the calls and returns [True]: the link is marked
    completed, with no trace of the first error, and the content is
    stored. *)
Theorem retry_after_exception (p : AiProcessor) (link : Link) (e : Exception)
    (res : ProcessResult) (w : World) :
  healthy w ->
  link_stored (link_id link) (db w) = true ->
  p (processor_log w) (link_url link) = Raises e ->
  p (processor_log w ++ [link_url link]) (link_url link) = Returns (Some res) ->
  result_success res = true ->
  exists saved w',
    _process_single_link (mkProcessorWorker (Some p)) link w = (Ok true, w')
    /\ processor_log w' = processor_log w ++ [link_url link; link_url link]
    /\ clock w' = (clock w + 2000)%Z
    /\ news_links (db w')
       = map (set_status (link_id link) Completed None (clock w + 2000)) (news_links (db w))
    /\ get_processed_content (link_id link) w' = (Ok (Some saved), w')
    /\ pc_title saved = result_title res /\ pc_content saved = result_content res.
Proof.
  intros Hf Hst Hp1 Hp2 Hres.
  destruct (attempt_link_raises p link 1 e w Hf Hp1)
    as (w1 & Ha1 & Hf1 & Hlog1 & _ & _ & Hc1 & Hdb1).
  cbn [Nat.eqb MAX_RETRIES] in Ha1, Hc1, Hdb1.
  rewrite <- Hlog1 in Hp2. rewrite <- Hdb1 in Hst.
  destruct (attempt_link_succeeds p link 2 res w1 Hf1 Hst Hp2 Hres)
    as (saved & w' & Ha2 & Hf' & Hlog & Hc & _ & Hl & Hfind & Ht & Hco & _).
  exists saved, w'. split.
  { unfold _process_single_link. cbn [seq MAX_RETRIES retry_loop].
    rewrite (bind_ok _ _ _ _ _ Ha1). now rewrite (bind_ok _ _ _ _ _ Ha2). }
  rewrite (get_processed_content_ok _ _ Hf'), Hfind, Hlog, Hlog1, Hc, Hl, Hc1, Hdb1.
  rewrite <- app_assoc. repeat split; auto.
Qed.

Lemma retry_after_exception_witness :
  healthy (world_of [a1] [] [])
  /\ link_stored (link_id (link_of a1)) (db (world_of [a1] [] [])) = true
  /\ flaky (processor_log (world_of [a1] [] [])) (link_url (link_of a1))
     = Raises (ProcessorError "timeout")
  /\ flaky (processor_log (world_of [a1] [] []) ++ [link_url (link_of a1)])
           (link_url (link_of a1))
     = Returns (Some good_result)
  /\ result_success good_result = true
  /\ exists saved w',
       _process_single_link (mkProcessorWorker (Some flaky)) (link_of a1)
         (world_of [a1] [] []) = (Ok true, w')
       /\ processor_log w'
          = processor_log (world_of [a1] [] [])
            ++ [link_url (link_of a1); link_url (link_of a1)]
       /\ clock w' = (clock (world_of [a1] [] []) + 2000)%Z
       /\ news_links (db w')
          = map (set_status (link_id (link_of a1)) Completed None
                            (clock (world_of [a1] [] []) + 2000))
                (news_links (db (world_of [a1] [] [])))
       /\ get_processed_content (link_id (link_of a1)) w' = (Ok (Some saved), w')
       /\ pc_title saved = result_title good_result
       /\ pc_content saved = result_content good_result.
Proof.
  repeat (split; [reflexivity|]).
  apply (retry_after_exception flaky (link_of a1) (ProcessorError "timeout") good_result
           (world_of [a1] [] [])); reflexivity.
Defined.

(** X9.  when the processor raises at both attempts, on a store that
    answers, [_process_single_link] returns [False] after two calls two
    seconds apart: the link is marked failed with the message of the
    last exception, and no content is written. *)
Theorem exhausted_retries_mark_failed (p : AiProcessor) (link : Link) (e1 e2 : Exception)
    (w : World) :
  healthy w ->
  p (processor_log w) (link_url link) = Raises e1 ->
  p (processor_log w ++ [link_url link]) (link_url link) = Raises e2 ->
  exists w',
    _process_single_link (mkProcessorWorker (Some p)) link w = (Ok false, w')
    /\ processor_log w' = processor_log w ++ [link_url link; link_url link]
    /\ clock w' = (clock w + 2000)%Z
    /\ news_links (db w')
       = map (set_status (link_id link) Failed (Some (str e2)) (clock w + 2000))
             (news_links (db w))
    /\ processed_content (db w') = processed_content (db w).
Proof.
  intros Hf Hp1 Hp2.
  destruct (attempt_link_raises p link 1 e1 w Hf Hp1)
    as (w1 & Ha1 & Hf1 & Hlog1 & _ & _ & Hc1 & Hdb1).
  cbn [Nat.eqb MAX_RETRIES] in Ha1, Hc1, Hdb1.
  rewrite <- Hlog1 in Hp2.
  destruct (attempt_link_raises p link 2 e2 w1 Hf1 Hp2)
    as (w' & Ha2 & _ & Hlog & _ & Hpc & Hc & Hl).
  cbn [Nat.eqb MAX_RETRIES] in Ha2, Hc, Hl.
  exists w'. split.
  { unfold _process_single_link. cbn [seq MAX_RETRIES retry_loop].
    rewrite (bind_ok _ _ _ _ _ Ha1). now rewrite (bind_ok _ _ _ _ _ Ha2). }
  rewrite Hlog, Hlog1, Hc, Hl, Hc1, Hpc, Hdb1. rewrite <- app_assoc. repeat split; auto.
Qed.

Lemma exhausted_retries_mark_failed_witness :
  healthy (world_of [a1] [] [])
  /\ raising (processor_log (world_of [a1] [] [])) (link_url (link_of a1))
     = Raises (ProcessorError "timeout")
  /\ raising (processor_log (world_of [a1] [] []) ++ [link_url (link_of a1)])
             (link_url (link_of a1))
     = Raises (ProcessorError "timeout")
  /\ exists w',
       _process_single_link (mkProcessorWorker (Some raising)) (link_of a1)
         (world_of [a1] [] []) = (Ok false, w')
       /\ processor_log w'
          = processor_log (world_of [a1] [] [])
            ++ [link_url (link_of a1); link_url (link_of a1)]
       /\ clock w' = (clock (world_of [a1] [] []) + 2000)%Z
       /\ news_links (db w')
          = map (set_status (link_id (link_of a1)) Failed
                            (Some (str (ProcessorError "timeout")))
                            (clock (world_of [a1] [] []) + 2000))
                (news_links (db (world_of [a1] [] [])))
       /\ processed_content (db w') = processed_content (db (world_of [a1] [] [])).
Proof.
  repeat (split; [reflexivity|]).
  apply (exhausted_retries_mark_failed raising (link_of a1) (ProcessorError "timeout")
           (ProcessorError "timeout") (world_of [a1] [] [])); reflexivity.
Defined.

(** X10.  with no processor configured, on a store that answers,
    [_process_single_link] waits half a second and marks the link
    completed: nothing else in the store changes, no content is written
    and nothing is called. *)
Theorem mock_processing_completes (link : Link) (w : World) :
  healthy w ->
  exists w',
    _process_single_link (mkProcessorWorker None) link w = (Ok true, w')
    /\ processor_log w' = processor_log w
    /\ clock w' = (clock w + 500)%Z
    /\ db w'
       = set_news_links
           (map (set_status (link_id link) Completed None (clock w + 500)) (news_links (db w)))
           (news_links_id_seq (db w)) (db w).
Proof.
  intros Hf. unfold healthy in Hf.
  destruct w as [t f c d pl sl]. cbn in Hf. subst f.
  eexists. split; [reflexivity|]. cbn. repeat split.
Qed.

Lemma mock_processing_completes_witness :
  healthy (world_of [a1] [] [])
  /\ exists w',
       _process_single_link (mkProcessorWorker None) (link_of a1) (world_of [a1] [] [])
       = (Ok true, w')
       /\ processor_log w' = processor_log (world_of [a1] [] [])
       /\ clock w' = (clock (world_of [a1] [] []) + 500)%Z
       /\ db w'
          = set_news_links
              (map (set_status (link_id (link_of a1)) Completed None
                               (clock (world_of [a1] [] []) + 500))
                   (news_links (db (world_of [a1] [] []))))
              (news_links_id_seq (db (world_of [a1] [] []))) (db (world_of [a1] [] [])).
Proof.
  split; [reflexivity|].
  apply (mock_processing_completes (link_of a1) (world_of [a1] [] [])). reflexivity.
Defined.

(** ** Registration *)

Lemma registered_refl task w : registered task [] w w.
Proof.
  unfold registered, contents_kept, tasks_kept. rewrite app_nil_r.
  repeat split; auto. lia.
Qed.

Lemma registered_trans task a b w w1 w2 :
  registered task a w w1 -> registered task b w1 w2 -> registered task (a ++ b) w w2.
Proof.
  unfold registered, contents_kept, tasks_kept.
  intros (L1 & [C1 C1'] & [T1 T1'] & K1 & S1 & F1) (L2 & [C2 C2'] & [T2 T2'] & K2 & S2 & F2).
  repeat split; try congruence; try lia.
  - now rewrite L2, L1, app_assoc.
  - apply Forall_app. split.
    + eapply Forall_impl; [|exact F1]. cbn. intros row [Hb Hr]. split; [lia | assumption].
    + eapply Forall_impl; [|exact F2]. cbn. intros row [Hb Hr]. split; [lia | congruence].
Qed.

Lemma same_db_registered task w w' :
  db w' = db w -> clock w' = clock w -> registered task [] w w'.
Proof.
  intros Hdb Hc. unfold registered, contents_kept, tasks_kept. rewrite Hdb, app_nil_r.
  repeat split; auto. lia.
Qed.

Lemma read_registered {A} (f : Tables -> A) task w r w' :
  transaction (fun _ t => inl (f t, t)) w = (r, w') -> registered task [] w w'.
Proof.
  intros H. pose proof (read_same _ _ _ _ H) as [_ Hdb].
  apply transaction_inv in H as (_ & _ & Hc & _).
  now apply same_db_registered.
Qed.

Lemma insert_news_link_registered u task w r w' :
  insert_news_link u (hash_url u) task w = (r, w') ->
  match r with
  | Ok (Some i) =>
      i = (news_links_id_seq (db w) + 1)%Z
      /\ known (hash_url u) (news_links (db w)) = false
      /\ registered task [pending_row i u task (clock w)] w w'
  | Ok None => known (hash_url u) (news_links (db w)) = true /\ registered task [] w w'
  | Raise _ => registered task [] w w'
  end.
Proof.
  unfold insert_news_link. intros H.
  apply transaction_inv in H as (_ & _ & Hc & _ & _ & [(e & -> & Hdb) | (a & -> & Hb)]).
  - now apply same_db_registered.
  - destruct (Nat.ltb 255 _); [discriminate|].
    fold (known (hash_url u) (news_links (db w))) in Hb.
    destruct (known (hash_url u) (news_links (db w))) eqn:Ek;
      inversion Hb as [[Ha Ht]]; clear Hb.
    + split; [reflexivity|].
      unfold registered, contents_kept, tasks_kept. rewrite <- Ht. cbn.
      rewrite app_nil_r. repeat split; auto. lia.
    + split; [reflexivity|]. split; [reflexivity|].
      unfold registered, contents_kept, tasks_kept. rewrite <- Ht. cbn.
      repeat split; auto; try lia.
      constructor; [|constructor]. cbn. split; [lia | reflexivity].
Qed.

Lemma process_urls_from_registered task todo : forall acc w r w',
  process_urls_from acc task todo w = (r, w') ->
  exists added,
    registered task added w w'
    /\ forall res, r = Ok res ->
         (0 <= news_links_id_seq (db w))%Z ->
         new_links res + duplicates res + invalid res
         = new_links acc + duplicates acc + invalid acc + length todo
         /\ exists es,
              urls res = urls acc ++ es
              /\ new_links res = new_links acc + length es
              /\ Forall2 reports es added
              /\ Forall (fun e => In (original_url e) todo) es.
Proof.
  induction todo as [|u rest IH]; intros acc w r w' H; cbn [process_urls_from] in H.
  - inversion H; subst. exists []. split; [apply registered_refl|].
    intros res Hres _. inversion Hres; subst. split; [cbn; lia|].
    exists []. rewrite app_nil_r. repeat split; auto; try (cbn; lia).
  - destruct (is_valid_url u) eqn:Ev; cbn [negb] in H.
    2:{ apply IH in H as (added & Hreg & Hres). exists added. split; [assumption|].
        intros res Hr Hs. destruct (Hres res Hr Hs) as (Hsum & es & Hu & Hn & Hf & Ho).
        cbn in *. split; [lia|]. exists es. repeat split; auto.
        eapply Forall_impl; [|exact Ho]. cbn. auto. }
    destruct (normalize_url u) as [c|] eqn:En.
    2:{ inversion H; subst. exists []. split; [apply registered_refl | discriminate]. }
    apply bind_inv in H as [(seen & w1 & He & Hk) | (e & He & ->)].
    2:{ exists []. split; [eapply read_registered; exact He | discriminate]. }
    pose proof (read_registered _ task _ _ _ He) as R1.
    destruct seen.
    + apply IH in Hk as (added & Hreg & Hres). exists added.
      split; [apply (registered_trans task [] added w w1 w'); assumption|].
      intros res Hr Hs.
      destruct (Hres res Hr) as (Hsum & es & Hu & Hn & Hf & Ho).
      { destruct R1 as (_ & _ & _ & _ & Hseq & _). lia. }
      cbn in *. split; [lia|]. exists es. repeat split; auto.
      eapply Forall_impl; [|exact Ho]. cbn. auto.
    + apply bind_inv in Hk as [(i & w2 & Hi & Hk) | (e & Hi & ->)].
      2:{ apply insert_news_link_registered in Hi. exists [].
          split; [apply (registered_trans task [] [] w w1 w'); assumption | discriminate]. }
      apply insert_news_link_registered in Hi.
      destruct i as [i|].
      * destruct Hi as (Hid & Hk1 & R2).
        pose proof (registered_trans task [] _ w w1 w2 R1 R2) as R12. cbn [app] in R12.
        assert (Hseq1 : (news_links_id_seq (db w) <= news_links_id_seq (db w1))%Z)
          by (destruct R1 as (_ & _ & _ & _ & Hseq & _); exact Hseq).
        assert (Hc1 : clock w1 = clock w)
          by (destruct R1 as (_ & _ & _ & Hc & _); exact Hc).
        destruct (i =? 0)%Z eqn:E0.
        -- apply IH in Hk as (added & Hreg & Hres). eexists.
           split; [eapply registered_trans; eauto|].
           intros res Hr Hs. apply Z.eqb_eq in E0. lia.
        -- apply IH in Hk as (added & Hreg & Hres). eexists.
           split; [eapply registered_trans; eauto|].
           intros res Hr Hs.
           destruct (Hres res Hr) as (Hsum & es & Hu & Hn & Hf & Ho).
           { destruct R12 as (_ & _ & _ & _ & Hseq & _). lia. }
           cbn in *. split; [lia|].
           exists (mkUrlEntry i c u :: es). rewrite Hu, <- app_assoc. cbn.
           repeat split; auto; try lia.
           ++ constructor; [|assumption]. rewrite Hc1. repeat split; auto.
           ++ constructor; [cbn; auto|].
              eapply Forall_impl; [|exact Ho]. cbn. auto.
      * destruct Hi as [Hk1 R2].
        apply IH in Hk as (added & Hreg & Hres). exists added.
        split.
        { apply (registered_trans task [] added w w2 w'); [|assumption].
          apply (registered_trans task [] [] w w1 w2); assumption. }
        intros res Hr Hs. exfalso.
        unfold url_exists in He. apply read_result in He as [He Hdb].
        unfold known in Hk1. rewrite Hdb in Hk1. rewrite Hk1 in He. discriminate.
Qed.

(** ** The keys *)

Lemma keys_kept_refl w : keys_kept w w.
Proof. repeat split. Qed.

Lemma keys_kept_trans a b c : keys_kept a b -> keys_kept b c -> keys_kept a c.
Proof. unfold keys_kept. intros (-> & -> & ->) (-> & -> & ->). auto. Qed.

Lemma same_db_keys_kept w w' : db w' = db w -> keys_kept w w'.
Proof. unfold keys_kept. now intros ->. Qed.

Lemma set_status_keys i s e now rows :
  map nl_id (map (set_status i s e now) rows) = map nl_id rows
  /\ map nl_url_hash (map (set_status i s e now) rows) = map nl_url_hash rows.
Proof.
  induction rows as [|r rows [IH1 IH2]]; [auto|]. cbn [map]. rewrite IH1, IH2.
  unfold set_status. destruct (nl_id r =? i)%Z; auto.
Qed.

Lemma update_link_status_keys i s e w r w' :
  update_link_status i s e w = (r, w') -> keys_kept w w'.
Proof.
  intros H. apply update_link_status_db in H as [H|H].
  - now apply same_db_keys_kept.
  - unfold keys_kept. rewrite H. cbn.
    destruct (set_status_keys i s e (clock w) (news_links (db w))) as [-> ->]. auto.
Qed.

Lemma save_processed_content_keys i t c tc md w r w' :
  save_processed_content i t c tc md w = (r, w') -> keys_kept w w'.
Proof.
  intros H. apply save_processed_content_inv in H as (_ & _ & _ & _ & _ & Hl & Hs & _).
  unfold keys_kept. now rewrite Hl, Hs.
Qed.

Lemma _process_domains_keys self groups w r w' :
  _process_domains self groups w = (r, w') -> keys_kept w w'.
Proof.
  apply (_process_domains_frame keys_kept (fun _ => True)).
  - apply keys_kept_refl.
  - apply keys_kept_trans.
  - intros. eapply same_db_keys_kept, sleep_db; eauto.
  - intros. eapply same_db_keys_kept, _apply_rate_limit_db; eauto.
  - intros. eapply same_db_keys_kept, process_db; eauto.
  - intros. eapply save_processed_content_keys; eauto.
  - intros. eapply update_link_status_keys; eauto.
  - apply Forall_forall. intros g _. apply Forall_forall. auto.
Qed.

Lemma process_specific_links_keys self ids w r w' :
  process_specific_links self ids w = (r, w') -> keys_kept w w'.
Proof.
  unfold process_specific_links. intros H.
  apply bind_inv in H as [(links & w1 & Hg & Hk) | (e & Hg & ->)];
    unfold get_links_by_ids in Hg; apply read_same in Hg as [_ Hdb];
    [|now apply same_db_keys_kept].
  eapply keys_kept_trans; [apply same_db_keys_kept, Hdb|].
  destruct links; [inversion Hk; subst; apply keys_kept_refl|].
  eapply _process_domains_keys; eauto.
Qed.

Lemma process_pending_links_keys self limit w r w' :
  process_pending_links self limit w = (r, w') -> keys_kept w w'.
Proof.
  unfold process_pending_links. intros H.
  apply bind_inv in H as [(links & w1 & Hg & Hk) | (e & Hg & ->)];
    unfold get_pending_links in Hg; apply read_same in Hg as [_ Hdb];
    [|now apply same_db_keys_kept].
  eapply keys_kept_trans; [apply same_db_keys_kept, Hdb|].
  destruct links; [inversion Hk; subst; apply keys_kept_refl|].
  eapply _process_domains_keys; eauto.
Qed.

Lemma keys_kept_links_ok w w' : keys_kept w w' -> links_ok (db w) -> links_ok (db w').
Proof.
  unfold keys_kept, links_ok, ids_issued. intros (Hi & Hh & Hs) ([H0 Hf] & N1 & N2).
  rewrite Hi, Hh, Hs. repeat split; auto.
  apply Forall_forall. intros row Hin.
  apply (in_map nl_id) in Hin. rewrite Hi in Hin.
  apply in_map_iff in Hin as (row0 & E & Hin0).
  rewrite Forall_forall in Hf. specialize (Hf row0 Hin0). lia.
Qed.

Lemma known_false_hash h rows :
  known h rows = false -> ~ In h (map nl_url_hash rows).
Proof.
  unfold known. intros Hk Hin. apply in_map_iff in Hin as (row & E & Hin).
  assert (existsb (fun r => String.eqb (nl_url_hash r) h) rows = true).
  { apply existsb_exists. exists row. split; [assumption|]. now apply String.eqb_eq. }
  congruence.
Qed.

Lemma insert_news_link_links_ok u h task w r w' :
  insert_news_link u h task w = (r, w') -> links_ok (db w) -> links_ok (db w').
Proof.
  unfold insert_news_link. intros H ([H0 Hf] & N1 & N2).
  apply transaction_inv in H as (_ & _ & _ & _ & _ & [(e & -> & Hdb) | (a & -> & Hb)]).
  - rewrite Hdb. repeat split; assumption.
  - destruct (Nat.ltb 255 _); [discriminate|].
    fold (known h (news_links (db w))) in Hb.
    destruct (known h (news_links (db w))) eqn:Ek; inversion Hb as [[Ha Ht]]; clear Hb;
      unfold links_ok, ids_issued; cbn.
    + repeat split; auto; [lia|].
      eapply Forall_impl; [|exact Hf]. cbn. intros; lia.
    + rewrite !map_app. cbn. repeat split; [lia| | |].
      * apply Forall_app. split.
        -- eapply Forall_impl; [|exact Hf]. cbn. intros; lia.
        -- constructor; [cbn; lia | constructor].
      * apply NoDup_app; [assumption | repeat constructor; cbn; tauto |].
        intros i Hin [<-|[]]. apply in_map_iff in Hin as (row & E & Hin).
        rewrite Forall_forall in Hf. specialize (Hf row Hin). lia.
      * apply NoDup_app; [assumption | repeat constructor; cbn; tauto |].
        intros x Hin [<-|[]]. now apply known_false_hash in Ek.
Qed.

Lemma same_links_seq_links_ok w w' :
  news_links (db w') = news_links (db w) ->
  news_links_id_seq (db w') = news_links_id_seq (db w) ->
  links_ok (db w) -> links_ok (db w').
Proof. unfold links_ok, ids_issued. now intros -> ->. Qed.

Lemma process_urls_from_links_ok task todo : forall acc w r w',
  process_urls_from acc task todo w = (r, w') -> links_ok (db w) -> links_ok (db w').
Proof.
  induction todo as [|u rest IH]; intros acc w r w' H Hok; cbn [process_urls_from] in H.
  - inversion H; subst. assumption.
  - destruct (negb (is_valid_url u)); [eapply IH; eauto|].
    destruct (normalize_url u) as [c|]; [|inversion H; subst; assumption].
    assert (Hread : forall rr w1, url_exists (hash_url c) w = (rr, w1) -> links_ok (db w1)).
    { intros rr w1 He. unfold url_exists in He. apply read_same in He as [_ Hdb].
      now rewrite Hdb. }
    apply bind_inv in H as [(seen & w1 & He & Hk) | (e & He & ->)]; [|eapply Hread; eauto].
    apply Hread in He. destruct seen; [eapply IH; eauto|].
    apply bind_inv in Hk as [(i & w2 & Hi & Hk) | (e & Hi & ->)];
      [|eapply insert_news_link_links_ok; eauto].
    eapply insert_news_link_links_ok in Hi; [|exact He].
    destruct i as [i|]; [destruct (i =? 0)%Z|]; eapply IH; eauto.
Qed.

Lemma update_task_run_stats_links task n w r w' :
  update_task_run_stats task n w = (r, w') ->
  news_links (db w') = news_links (db w)
  /\ news_links_id_seq (db w') = news_links_id_seq (db w)
  /\ contents_kept w w' /\ clock w' = clock w.
Proof.
  unfold update_task_run_stats, contents_kept. intros H.
  apply transaction_inv in H as (_ & _ & Hc & _ & _ & [(e & -> & Hdb) | (a & -> & Hb)]).
  - rewrite Hdb. auto.
  - inversion Hb as [[Ht Hdb]]. cbn. auto.
Qed.

Lemma execute_search_links_ok self prompt task w r w' :
  execute_search self prompt task w = (r, w') -> links_ok (db w) -> links_ok (db w').
Proof.
  unfold execute_search. intros H Hok.
  destruct (search self prompt) as [found|]; [|inversion H; subst; assumption].
  apply bind_inv in H as [(res & w1 & Hp & Hk) | (e & Hp & ->)];
    [|eapply process_urls_from_links_ok; eauto].
  eapply process_urls_from_links_ok in Hp; [|exact Hok].
  assert (Hup : forall rr w2, update_task_run_stats task (Z.of_nat (new_links res)) w1 = (rr, w2)
                              -> links_ok (db w2)).
  { intros rr w2 Hu. apply update_task_run_stats_links in Hu as (Hl & Hs & _).
    eapply same_links_seq_links_ok; eauto. }
  apply bind_inv in Hk as [([] & w2 & Hu & Hk) | (e & Hu & ->)]; [|eapply Hup; eauto].
  apply Hup in Hu.
  destruct (processor_worker self) as [worker|]; [|inversion Hk; subst; assumption].
  destruct (AUTO_PROCESS_AFTER_SEARCH && Nat.ltb 0 (new_links res));
    [|inversion Hk; subst; assumption].
  apply bind_inv in Hk as [(st & w3 & Hps & Hk) | (e & Hps & ->)].
  - inversion Hk; subst. eapply keys_kept_links_ok; [|exact Hu].
    eapply process_specific_links_keys; eauto.
  - eapply keys_kept_links_ok; [|exact Hu]. eapply process_specific_links_keys; eauto.
Qed.

Lemma run_task_links_ok self task w r w' :
  run_task self task w = (r, w') -> links_ok (db w) -> links_ok (db w').
Proof.
  unfold run_task. intros H Hok.
  apply bind_inv in H as [(t & w1 & Hg & Hk) | (e & Hg & ->)];
    unfold get_query_task in Hg; apply read_same in Hg as [_ Hdb];
    [|now rewrite Hdb].
  rewrite <- Hdb in Hok.
  destruct t as [t|]; [destruct (negb (qt_is_active t))|];
    try (inversion Hk; subst; assumption).
  eapply execute_search_links_ok; eauto.
Qed.

Lemma Forall2_kept_eq (ids : list Z) (old old' : list NewsLink) :
  Forall2 (fun r r' => nl_id r' = nl_id r /\ (~ In (nl_id r) ids -> r' = r)) old old' ->
  Forall (fun r => ~ In (nl_id r) ids) old -> old' = old.
Proof.
  induction 1 as [|r r' l l' [_ Hr] _ IH]; intros Hout; [reflexivity|].
  inversion Hout as [|? ? Hr0 Hl0]; subst. now rewrite (Hr Hr0), (IH Hl0).
Qed.

Lemma reports_ids es added : Forall2 reports es added -> map entry_id es = map nl_id added.
Proof.
  induction 1 as [|e row es added (Hid & _) _ IH]; [reflexivity|]. cbn. now rewrite Hid, IH.
Qed.

Lemma execute_search_appends self prompt task w r w' :
  ids_issued (db w) ->
  execute_search self prompt task w = (r, w') ->
  exists added, news_links (db w') = news_links (db w) ++ added.
Proof.
  intros [H0 Hold] H. unfold execute_search in H.
  destruct (search self prompt) as [found|];
    [|inversion H; subst; exists []; now rewrite app_nil_r].
  apply bind_inv in H as [(res & w1 & Hp & Hk) | (e & Hp & ->)].
  2:{ apply process_urls_from_registered in Hp as (added & (Hl & _) & _). eauto. }
  apply process_urls_from_registered in Hp as (added & Hreg & Hres).
  destruct (Hres res eq_refl H0) as (_ & es & Hu & _ & Hrep & _). cbn in Hu.
  destruct Hreg as (Hl & _ & _ & _ & _ & Hadded).
  apply bind_inv in Hk as [([] & w2 & Hup & Hk) | (e & Hup & ->)].
  2:{ apply update_task_run_stats_links in Hup as (Hl2 & _). exists added. congruence. }
  apply update_task_run_stats_links in Hup as (Hl2 & _).
  assert (Hsame : exists added0, news_links (db w2) = news_links (db w) ++ added0)
    by (exists added; congruence).
  destruct (processor_worker self) as [worker|]; [|inversion Hk; subst; exact Hsame].
  destruct (AUTO_PROCESS_AFTER_SEARCH && Nat.ltb 0 (new_links res));
    [|inversion Hk; subst; exact Hsame].
  assert (Hps : forall rr w3,
             process_specific_links worker (map entry_id (urls res)) w2 = (rr, w3) ->
             exists added0, news_links (db w3) = news_links (db w) ++ added0).
  { intros rr w3 Hrun.
    destruct (process_specific_links_others worker _ _ _ _ Hrun) as [[Hf _] _].
    rewrite Hl2, Hl in Hf. apply Forall2_app_inv_l in Hf as (old' & added' & Fo & _ & ->).
    exists added'. f_equal. eapply Forall2_kept_eq; [exact Fo|].
    rewrite Hu, (reports_ids _ _ Hrep).
    apply Forall_forall. intros row Hin Hid.
    rewrite Forall_forall in Hold. specialize (Hold row Hin).
    apply in_map_iff in Hid as (row' & E & Hin').
    rewrite Forall_forall in Hadded. destruct (Hadded row' Hin') as [Hb _]. lia. }
  apply bind_inv in Hk as [(st & w3 & Hrun & Hk) | (e & Hrun & ->)].
  - inversion Hk; subst. eapply Hps; eauto.
  - eapply Hps; eauto.
Qed.

Lemma update_task_run_stats_tasks task n w r w' :
  update_task_run_stats task n w = (r, w') ->
  match r with
  | Ok _ => query_tasks (db w') = map (record_run task n (clock w)) (query_tasks (db w))
  | Raise _ => query_tasks (db w') = query_tasks (db w)
  end.
Proof.
  unfold update_task_run_stats. intros H.
  apply transaction_inv in H as (_ & _ & _ & _ & _ & [(e & -> & Hdb) | (a & -> & Hb)]).
  - now rewrite Hdb.
  - inversion Hb as [[Ht Hdb]]. reflexivity.
Qed.

Lemma execute_search_tasks self prompt task w r w' :
  execute_search self prompt task w = (r, w') ->
  match r with
  | Ok (SearchDone report) =>
      query_tasks (db w')
      = map (record_run task (Z.of_nat (report_new_links report)) (clock w)) (query_tasks (db w))
      /\ report_task_name report = task
  | Ok (SearchFailed _ _) => query_tasks (db w') = query_tasks (db w)
  | Raise _ => True
  end.
Proof.
  unfold execute_search. intros H.
  destruct (search self prompt) as [found|]; [|inversion H; subst; reflexivity].
  apply bind_inv in H as [(res & w1 & Hp & Hk) | (e & Hp & ->)]; [|exact I].
  apply process_urls_from_registered in Hp as (added & Hreg & _).
  destruct Hreg as (_ & _ & [Ht1 _] & Hc1 & _).
  apply bind_inv in Hk as [([] & w2 & Hup & Hk) | (e & Hup & ->)]; [|exact I].
  apply update_task_run_stats_tasks in Hup. rewrite Ht1, Hc1 in Hup.
  destruct (processor_worker self) as [worker|];
    [|inversion Hk; subst; cbn; auto].
  destruct (AUTO_PROCESS_AFTER_SEARCH && Nat.ltb 0 (new_links res));
    [|inversion Hk; subst; cbn; auto].
  apply bind_inv in Hk as [(st & w3 & Hrun & Hk) | (e & Hrun & ->)]; [|exact I].
  inversion Hk; subst. cbn.
  apply process_specific_links_others in Hrun as [_ [Ht3 _]]. split; [congruence | reflexivity].
Qed.

(** X11.  [_process_urls(urls, task_name)], when it returns, has counted
    every URL once as new, duplicate or invalid, and reports one entry
    for each new link; the links it registered are appended to the table
    in the order of the entries, each pending, with the reported id and
    canonical URL, and nothing else in the store has changed.  When it
    raises, the links registered so far stay registered. *)
Theorem _process_urls_accounts (found : list string) (task_name : string) (w : World) :
  (0 <= news_links_id_seq (db w))%Z ->
  match _process_urls found task_name w with
  | (Ok results, w') =>
      new_links results + duplicates results + invalid results = length found
      /\ length (urls results) = new_links results
      /\ exists added,
           registered task_name added w w' /\ Forall2 reports (urls results) added
  | (Raise _, w') => exists added, registered task_name added w w'
  end.
Proof.
  intros H0. unfold _process_urls.
  destruct (process_urls_from _ task_name found w) as [r w'] eqn:H.
  apply process_urls_from_registered in H as (added & Hreg & Hres).
  destruct r as [results|e]; [|eauto].
  destruct (Hres results eq_refl H0) as (Hsum & es & Hu & Hn & Hrep & _).
  cbn in Hsum, Hu, Hn. subst es. repeat split; [lia | lia | eauto].
Qed.

Lemma _process_urls_accounts_witness :
  (0 <= news_links_id_seq (db (world_of [] [] [])))%Z
  /\ match _process_urls ["http://a.com/1"; "not a url"] "demo" (world_of [] [] []) with
     | (Ok results, w') =>
         new_links results + duplicates results + invalid results
         = length ["http://a.com/1"; "not a url"]
         /\ length (urls results) = new_links results
         /\ exists added,
              registered "demo" added (world_of [] [] []) w'
              /\ Forall2 reports (urls results) added
     | (Raise _, w') => exists added, registered "demo" added (world_of [] [] []) w'
     end.
Proof.
  split; [cbn; lia|].
  apply (_process_urls_accounts ["http://a.com/1"; "not a url"] "demo" (world_of [] [] [])).
  cbn. lia.
Defined.

(** X12.  [run_task(task_name)] leaves the links that were registered
    before it as they are, whatever the search returns, whatever the
    processor does and whichever transactions fail: the table afterwards
    is the table before it followed by the links of this run.  Only the
    links a run registers are processed by it. *)
Theorem run_task_keeps_earlier_links (self : NewsSearchModule) (task_name : string) (w : World) :
  ids_issued (db w) ->
  exists added,
    news_links (db (snd (run_task self task_name w))) = news_links (db w) ++ added.
Proof.
  intros Hids. destruct (run_task self task_name w) as [r w'] eqn:H. cbn [snd].
  unfold run_task in H.
  apply bind_inv in H as [(t & w1 & Hg & Hk) | (e & Hg & ->)];
    unfold get_query_task in Hg; apply read_same in Hg as [_ Hdb].
  2:{ exists []. now rewrite Hdb, app_nil_r. }
  rewrite <- Hdb in *.
  destruct t as [t|]; [destruct (negb (qt_is_active t))|];
    try (inversion Hk; subst; exists []; now rewrite app_nil_r).
  eapply execute_search_appends; eauto.
Qed.

Lemma run_task_keeps_earlier_links_witness :
  ids_issued (db (world_of [a1] [demo_task] []))
  /\ exists added,
       news_links (db (snd (run_task demo_module "demo" (world_of [a1] [demo_task] []))))
       = news_links (db (world_of [a1] [demo_task] [])) ++ added.
Proof.
  assert (H : ids_issued (db (world_of [a1] [demo_task] [])))
    by (split; [cbn; lia | repeat constructor; cbn; lia]).
  split; [exact H|].
  exact (run_task_keeps_earlier_links demo_module "demo" (world_of [a1] [demo_task] []) H).
Defined.

(** X13.  the constraints of the schema on [news_links] (ids handed out by
    the sequence, [id] a key, [url_hash] unique) hold after
    [run_task], [process_pending_links] and [process_specific_links]
    when they hold before: registration never stores a fingerprint
    twice, and processing never changes an id or a fingerprint. *)
Theorem schema_constraints_are_kept (w : World) :
  links_ok (db w) ->
  (forall self task_name, links_ok (db (snd (run_task self task_name w))))
  /\ (forall self limit, links_ok (db (snd (process_pending_links self limit w))))
  /\ (forall self link_ids, links_ok (db (snd (process_specific_links self link_ids w)))).
Proof.
  intros Hok. split; [|split].
  - intros self task_name. destruct (run_task self task_name w) as [r w'] eqn:H.
    eapply run_task_links_ok; eauto.
  - intros self limit. destruct (process_pending_links self limit w) as [r w'] eqn:H.
    eapply keys_kept_links_ok; [eapply process_pending_links_keys; eauto | assumption].
  - intros self link_ids. destruct (process_specific_links self link_ids w) as [r w'] eqn:H.
    eapply keys_kept_links_ok; [eapply process_specific_links_keys; eauto | assumption].
Qed.

Lemma schema_constraints_are_kept_witness :
  links_ok (db (world_of [a1; b2] [demo_task] []))
  /\ (forall self task_name,
        links_ok (db (snd (run_task self task_name (world_of [a1; b2] [demo_task] [])))))
  /\ (forall self limit,
        links_ok (db (snd (process_pending_links self limit
                             (world_of [a1; b2] [demo_task] [])))))
  /\ (forall self link_ids,
        links_ok (db (snd (process_specific_links self link_ids
                             (world_of [a1; b2] [demo_task] []))))).
Proof.
  assert (H : links_ok (db (world_of [a1; b2] [demo_task] []))).
  { split; [split; [cbn; lia | repeat constructor; cbn; lia]|].
    split; vm_compute; repeat constructor; cbn; intuition discriminate. }
  split; [exact H|].
  exact (schema_constraints_are_kept (world_of [a1; b2] [demo_task] []) H).
Defined.

(** X14.  a run of [run_task] that returns a report has recorded itself in
    the statistics of its task: [total_runs] is one more,
    [total_links_found] has grown by the number of new links of the
    report and [last_run] is set; no other task is changed.  A run that
    returns a failure changes no task. *)
Theorem run_task_records_the_run (self : NewsSearchModule) (task_name : string) (w : World) :
  match run_task self task_name w with
  | (Ok (SearchDone report), w') =>
      query_tasks (db w')
      = map (record_run task_name (Z.of_nat (report_new_links report)) (clock w))
            (query_tasks (db w))
  | (Ok (SearchFailed _ _), w') => query_tasks (db w') = query_tasks (db w)
  | (Raise _, _) => True
  end.
Proof.
  destruct (run_task self task_name w) as [r w'] eqn:H. unfold run_task in H.
  apply bind_inv in H as [(t & w1 & Hg & Hk) | (e & Hg & ->)]; [|exact I].
  unfold get_query_task in Hg.
  pose proof (transaction_inv _ _ _ _ Hg) as (_ & _ & Hc & _).
  apply read_same in Hg as [_ Hdb].
  destruct t as [t|]; [destruct (negb (qt_is_active t))|];
    try (inversion Hk; subst; now rewrite Hdb).
  apply execute_search_tasks in Hk. rewrite Hdb, Hc in Hk.
  destruct r as [[err tn|report]|e]; [exact Hk | apply Hk | exact I].
Qed.

(** ** [ORDER BY discovered_at DESC LIMIT n] *)

Lemma insert_desc_Permutation r sorted : Permutation (insert_desc r sorted) (r :: sorted).
Proof.
  induction sorted as [|x sorted IH]; cbn; [reflexivity|].
  destruct (nl_discovered_at x <? nl_discovered_at r)%Z; [reflexivity|].
  rewrite IH. apply perm_swap.
Qed.

Lemma insert_desc_sorted r sorted :
  StronglySorted newer sorted -> StronglySorted newer (insert_desc r sorted).
Proof.
  induction 1 as [|x sorted Hs IH Hx]; cbn.
  - repeat constructor.
  - destruct (nl_discovered_at x <? nl_discovered_at r)%Z eqn:E.
    + apply Z.ltb_lt in E. constructor; [constructor; assumption|].
      constructor; [unfold newer; lia|].
      eapply Forall_impl; [|exact Hx]. unfold newer. intros; lia.
    + apply Z.ltb_ge in E. constructor; [assumption|].
      rewrite (insert_desc_Permutation r sorted). constructor; [exact E | assumption].
Qed.

Lemma order_by_discovered_at_desc_spec rows :
  Permutation (order_by_discovered_at_desc rows) rows
  /\ StronglySorted newer (order_by_discovered_at_desc rows).
Proof.
  unfold order_by_discovered_at_desc.
  assert (G : forall acc, StronglySorted newer acc ->
            Permutation (fold_left (fun sorted r => insert_desc r sorted) rows acc) (acc ++ rows)
            /\ StronglySorted newer (fold_left (fun sorted r => insert_desc r sorted) rows acc)).
  { induction rows as [|r rows IH]; intros acc Hacc; cbn [fold_left].
    - rewrite app_nil_r. split; [reflexivity | assumption].
    - destruct (IH (insert_desc r acc) (insert_desc_sorted r acc Hacc)) as [P S].
      split; [|assumption]. rewrite P, insert_desc_Permutation.
      now rewrite <- Permutation_middle. }
  destruct (G [] (SSorted_nil _)) as [P S]. split; assumption.
Qed.

Lemma StronglySorted_firstn_skipn n (l : list NewsLink) :
  StronglySorted newer l ->
  StronglySorted newer (firstn n l)
  /\ Forall (fun older => Forall (fun picked => newer picked older) (firstn n l)) (skipn n l).
Proof.
  intros H. revert n. induction H as [|x l Hs IH Hx]; intros n.
  - rewrite firstn_nil, skipn_nil. split; constructor.
  - destruct n as [|n]; cbn [firstn skipn].
    + split; [constructor|]. apply Forall_forall. intros; constructor.
    + destruct (IH n) as [S F]. split.
      * constructor; [assumption|].
        apply Forall_forall. intros y Hy. rewrite Forall_forall in Hx.
        apply Hx. rewrite <- (firstn_skipn n l). apply in_or_app. now left.
      * apply Forall_forall. intros older Ho. constructor.
        -- rewrite Forall_forall in Hx. apply Hx.
           rewrite <- (firstn_skipn n l). apply in_or_app. now right.
        -- rewrite Forall_forall in F. now apply F.
Qed.

(** X15.  [get_pending_links(limit)], when its transaction is not a failing
    one, returns the [limit] most recently discovered pending links,
    newest first (all of them when there are fewer), and changes
    nothing: the links returned together with the pending links left out
    are the pending links of the table, and no link left out was
    discovered later than a link returned. *)
Theorem get_pending_links_newest_first (limit : nat) (w : World) :
  hd false (faults w) = false ->
  exists picked rest w',
    get_pending_links limit w = (Ok (map pending_link picked), w')
    /\ db w' = db w
    /\ Permutation (picked ++ rest) (List.filter is_pending (news_links (db w)))
    /\ length picked = Nat.min limit (length (List.filter is_pending (news_links (db w))))
    /\ StronglySorted newer picked
    /\ Forall (fun older => Forall (fun p => newer p older) picked) rest.
Proof.
  intros Hf.
  set (sorted := order_by_discovered_at_desc (List.filter is_pending (news_links (db w)))).
  destruct (order_by_discovered_at_desc_spec (List.filter is_pending (news_links (db w))))
    as [P S]. fold sorted in P, S.
  destruct (StronglySorted_firstn_skipn limit sorted S) as [S1 F1].
  exists (firstn limit sorted), (skipn limit sorted).
  unfold get_pending_links, transaction.
  destruct (faults w) as [|[] fs] eqn:E; try discriminate;
    (eexists; split; [reflexivity|]; split; [reflexivity|];
     split; [now rewrite firstn_skipn|];
     split; [rewrite length_firstn; now rewrite (Permutation_length P)|];
     split; assumption).
Qed.

Lemma get_pending_links_newest_first_witness :
  hd false (faults (world_of [a1; b2] [] [])) = false
  /\ exists picked rest w',
       get_pending_links 1 (world_of [a1; b2] [] []) = (Ok (map pending_link picked), w')
       /\ db w' = db (world_of [a1; b2] [] [])
       /\ Permutation (picked ++ rest)
            (List.filter is_pending (news_links (db (world_of [a1; b2] [] []))))
       /\ length picked
          = Nat.min 1 (length (List.filter is_pending
                                 (news_links (db (world_of [a1; b2] [] [])))))
       /\ StronglySorted newer picked
       /\ Forall (fun older => Forall (fun p => newer p older) picked) rest.
Proof.
  split; [reflexivity|].
  apply (get_pending_links_newest_first 1 (world_of [a1; b2] [] [])). reflexivity.
Defined.

(** X16.  on a store that answers, [save_processed_content] for a stored
    link followed by [get_processed_content] returns what was saved,
    the metadata as [Json_or_None] passes them (an empty dict is stored
    as no value); saving for a link that has a content overwrites it
    (its id and creation time stay, no row is added), and the contents
    of the other links and the links themselves are untouched.  For a
    link that is not stored it raises: no row is written, and the only
    trace left is the value of the id sequence taken for the rejected
    row, which is not given back. *)
Theorem saved_content_is_read_back
    (link_id : Z) (title content translated_content metadata : option string) (w : World) :
  healthy w ->
  if link_stored link_id (db w) then
    exists row w',
      save_processed_content link_id title content translated_content metadata w = (Ok tt, w')
      /\ get_processed_content link_id w' = (Ok (Some row), w')
      /\ pc_link_id row = link_id /\ pc_title row = title /\ pc_content row = content
      /\ pc_translated_content row = translated_content
      /\ pc_metadata row = Json_or_None metadata
      /\ pc_updated_at row = clock w
      /\ (forall old, List.find (fun c => (pc_link_id c =? link_id)%Z)
                                (processed_content (db w)) = Some old ->
                      pc_id row = pc_id old /\ pc_created_at row = pc_created_at old)
      /\ length (contents_of link_id (db w')) = Nat.max 1 (length (contents_of link_id (db w)))
      /\ (forall other, other <> link_id ->
            contents_of other (db w') = contents_of other (db w))
      /\ news_links (db w') = news_links (db w)
  else
    exists e,
      save_processed_content link_id title content translated_content metadata w
      = (Raise (DatabaseError e),
         set_db (set_processed_content (processed_content (db w))
                                       (processed_content_id_seq (db w) + 1) (db w)) w).
Proof.
  intros Hf. destruct (link_stored link_id (db w)) eqn:El.
  - destruct (save_processed_content_ok link_id title content translated_content metadata
                w Hf El)
      as (row & w' & H1 & H2 & H3 & H4 & H5 & H6 & H7 & H8 & H9 & H10 & H11 & H12 & _).
    exists row, w'.
    split; [exact H1|]. split; [exact H2|]. split; [exact H3|]. split; [exact H4|].
    split; [exact H5|]. split; [exact H6|]. split; [exact H7|]. split; [exact H8|].
    split; [exact H9|]. split; [exact H10|]. split; [exact H11 | exact H12].
  - unfold link_stored in El. unfold save_processed_content.
    eexists.
    erewrite bind_ok;
      [| apply transaction_ok; [exact Hf | cbn beta zeta; rewrite El; reflexivity]].
    reflexivity.
Qed.

Lemma saved_content_is_read_back_witness :
  healthy (world_of [a1] [] [])
  /\ exists row w',
       save_processed_content 1 (Some "Title") (Some "Body") None None (world_of [a1] [] [])
       = (Ok tt, w')
       /\ get_processed_content 1 w' = (Ok (Some row), w')
       /\ pc_link_id row = 1%Z /\ pc_title row = Some "Title" /\ pc_content row = Some "Body"
       /\ pc_translated_content row = None
       /\ pc_metadata row = Json_or_None None
       /\ pc_updated_at row = clock (world_of [a1] [] [])
       /\ (forall old, List.find (fun c => (pc_link_id c =? 1)%Z)
                                 (processed_content (db (world_of [a1] [] []))) = Some old ->
                       pc_id row = pc_id old /\ pc_created_at row = pc_created_at old)
       /\ length (contents_of 1 (db w'))
          = Nat.max 1 (length (contents_of 1 (db (world_of [a1] [] []))))
       /\ (forall other, other <> 1%Z ->
             contents_of other (db w') = contents_of other (db (world_of [a1] [] [])))
       /\ news_links (db w') = news_links (db (world_of [a1] [] [])).
Proof.
  split; [reflexivity|].
  apply (saved_content_is_read_back 1 (Some "Title") (Some "Body") None None
           (world_of [a1] [] [])).
  reflexivity.
Defined.

(** X17.  on a store that answers, [create_query_task] with a name that
    is not taken (and fits its column) returns the id of the new task,
    and [get_query_task] then returns the task: active, with the prompt
    and schedule given and no run recorded; the tasks that were there
    are unchanged.  With a name that is taken it raises and the tasks
    are as they were. *)
Theorem created_task_is_read_back
    (task_name prompt_template : string) (schedule : option string) (w : World) :
  healthy w ->
  String.length task_name <= 255 ->
  String.length (default "" schedule) <= 100 ->
  if task_stored task_name (db w) then
    exists e w',
      create_query_task task_name prompt_template schedule w = (Raise e, w')
      /\ query_tasks (db w') = query_tasks (db w)
  else
    exists task w',
      create_query_task task_name prompt_template schedule w = (Ok (qt_id task), w')
      /\ get_query_task task_name w' = (Ok (Some task), w')
      /\ task = mkQueryTask (query_tasks_id_seq (db w) + 1) task_name prompt_template true
                            schedule None 0 0 (clock w) (clock w)
      /\ query_tasks (db w') = query_tasks (db w) ++ [task].
Proof.
  intros Hf Hn Hs. unfold task_stored, create_query_task.
  assert (E1 : Nat.ltb 255 (String.length task_name) = false) by (apply Nat.ltb_ge; lia).
  assert (E2 : Nat.ltb 100 (String.length (default "" schedule)) = false)
    by (apply Nat.ltb_ge; lia).
  destruct (existsb (fun q => String.eqb (qt_task_name q) task_name) (query_tasks (db w)))
    eqn:Et.
  - eexists _, _. split.
    + erewrite bind_ok;
        [|apply transaction_ok; [exact Hf | cbn beta; rewrite E1, E2, Et; reflexivity]].
      reflexivity.
    + reflexivity.
  - set (task := mkQueryTask (query_tasks_id_seq (db w) + 1) task_name prompt_template true
                             schedule None 0 0 (clock w) (clock w)).
    exists task. eexists. split.
    { erewrite bind_ok;
        [|apply transaction_ok; [exact Hf | cbn beta; rewrite E1, E2, Et; reflexivity]].
      reflexivity. }
    split.
    { unfold get_query_task. erewrite transaction_ok; [|exact Hf | reflexivity].
      cbn [db set_db query_tasks set_query_tasks]. fold task.
      rewrite (find_app_fresh _ _ task Et); [reflexivity|]. cbn. apply String.eqb_refl. }
    split; reflexivity.
Qed.

Lemma created_task_is_read_back_witness :
  healthy (world_of [] [] [])
  /\ String.length "demo" <= 255
  /\ String.length (default "" (Some "daily")) <= 100
  /\ exists task w',
       create_query_task "demo" "find news" (Some "daily") (world_of [] [] [])
       = (Ok (qt_id task), w')
       /\ get_query_task "demo" w' = (Ok (Some task), w')
       /\ task = mkQueryTask (query_tasks_id_seq (db (world_of [] [] [])) + 1) "demo"
                             "find news" true (Some "daily") None 0 0
                             (clock (world_of [] [] [])) (clock (world_of [] [] []))
       /\ query_tasks (db w') = query_tasks (db (world_of [] [] [])) ++ [task].
Proof.
  split; [reflexivity|]. split; [cbn; lia|]. split; [cbn; lia|].
  apply (created_task_is_read_back "demo" "find news" (Some "daily") (world_of [] [] []));
    [reflexivity | cbn; lia | cbn; lia].
Defined.

(** X18.  on a store that answers, [insert_news_link] stores a link
    exactly when [url_exists] does not know its fingerprint: it then
    returns the id the sequence hands out and appends one pending row;
    otherwise it returns [None] and the rows are as they were.  Either
    way [url_exists] knows the fingerprint afterwards, and a second
    insertion of it stores nothing. *)
Theorem insert_news_link_once (url url_hash source_task : string) (w : World) :
  healthy w ->
  String.length source_task <= 255 ->
  exists seen w1 w2 w3 w4,
    url_exists url_hash w = (Ok seen, w1)
    /\ insert_news_link url url_hash source_task w1
       = (Ok (if seen then None else Some (news_links_id_seq (db w) + 1)%Z), w2)
    /\ news_links (db w2)
       = news_links (db w)
         ++ (if seen then []
             else [mkNewsLink (news_links_id_seq (db w) + 1) url url_hash None (clock w)
                              source_task Pending None None None (clock w)])
    /\ url_exists url_hash w2 = (Ok true, w3)
    /\ insert_news_link url url_hash source_task w3 = (Ok None, w4)
    /\ news_links (db w4) = news_links (db w2).
Proof.
  intros Hf Hlen.
  exists (known url_hash (news_links (db w))), w.
  rewrite (url_exists_ok url_hash w Hf).
  destruct (known url_hash (news_links (db w))) eqn:Ek.
  - rewrite (insert_news_link_seen url url_hash source_task w Hf Hlen Ek).
    eexists _, _, _. split; [reflexivity|]. split; [reflexivity|].
    split; [cbn; now rewrite app_nil_r|].
    split; [rewrite url_exists_ok by exact Hf;
            cbn [db set_db news_links set_news_links]; now rewrite Ek|].
    erewrite insert_news_link_seen; [split; reflexivity | exact Hf | exact Hlen | exact Ek].
  - assert (E : Nat.ltb 255 (String.length source_task) = false) by (apply Nat.ltb_ge; lia).
    assert (Hk : known url_hash
                   (news_links (db w)
                    ++ [mkNewsLink (news_links_id_seq (db w) + 1) url url_hash None (clock w)
                                   source_task Pending None None None (clock w)]) = true).
    { unfold known. rewrite existsb_app. cbn. rewrite String.eqb_refl. apply orb_true_r. }
    eexists _, _, _. split; [reflexivity|]. split.
    { unfold insert_news_link. erewrite transaction_ok; [reflexivity | exact Hf |].
      cbn beta. rewrite E. fold (known url_hash (news_links (db w))). rewrite Ek.
      reflexivity. }
    split; [reflexivity|].
    split; [rewrite url_exists_ok by exact Hf;
            cbn [db set_db news_links set_news_links]; now rewrite Hk|].
    erewrite insert_news_link_seen; [split; reflexivity | exact Hf | exact Hlen | exact Hk].
Qed.

Lemma insert_news_link_once_witness :
  healthy (world_of [a1] [] [])
  /\ String.length "demo" <= 255
  /\ exists seen w1 w2 w3 w4,
       url_exists "h" (world_of [a1] [] []) = (Ok seen, w1)
       /\ insert_news_link "http://c.com/3" "h" "demo" w1
          = (Ok (if seen then None
                 else Some (news_links_id_seq (db (world_of [a1] [] [])) + 1)%Z), w2)
       /\ news_links (db w2)
          = news_links (db (world_of [a1] [] []))
            ++ (if seen then []
                else [mkNewsLink (news_links_id_seq (db (world_of [a1] [] [])) + 1)
                                 "http://c.com/3" "h" None (clock (world_of [a1] [] []))
                                 "demo" Pending None None None
                                 (clock (world_of [a1] [] []))])
       /\ url_exists "h" w2 = (Ok true, w3)
       /\ insert_news_link "http://c.com/3" "h" "demo" w3 = (Ok None, w4)
       /\ news_links (db w4) = news_links (db w2).
Proof.
  split; [reflexivity|]. split; [cbn; lia|].
  apply (insert_news_link_once "http://c.com/3" "h" "demo" (world_of [a1] [] []));
    [reflexivity | cbn; lia].
Defined.

(** ** The form of a fingerprint *)

Lemma round_length st kw : length st = 8 -> length (hashlib.round st kw) = 8.
Proof.
  destruct st as [|a [|b [|c [|d [|e [|f [|g [|h [|i st]]]]]]]]]; cbn; intros H;
    try discriminate; reflexivity.
Qed.

Lemma rounds_length kws : forall st, length st = 8 -> length (fold_left hashlib.round kws st) = 8.
Proof.
  induction kws as [|kw kws IH]; intros st H; [assumption|].
  cbn [fold_left]. apply IH. now apply round_length.
Qed.

Lemma compress_length H block : length H = 8 -> length (hashlib.compress H block) = 8.
Proof.
  intros HH. unfold hashlib.compress.
  rewrite length_map, length_combine, rounds_length by assumption. rewrite HH. reflexivity.
Qed.

Lemma digest_words_length msg : length (hashlib.digest_words msg) = 8.
Proof.
  unfold hashlib.digest_words.
  generalize (hashlib.blocks (length (hashlib.words (hashlib.pad msg)) / 16)
                             (hashlib.words (hashlib.pad msg))).
  assert (H : length hashlib.H0 = 8) by reflexivity. revert H.
  generalize hashlib.H0. intros H0 H bs. revert H0 H.
  induction bs as [|b bs IH]; intros H0 H; [assumption|].
  cbn [fold_left]. apply IH. now apply compress_length.
Qed.

Lemma hex_digit_lower n : (n < 16)%N -> is_hex_lower (ipaddress.hex_digit false n) = true.
Proof.
  intros H. destruct n as [|p]; [reflexivity|].
  do 4 (destruct p as [p|p|]; try reflexivity); lia.
Qed.

Lemma hex_word_form w :
  String.length (hashlib.hex_word w) = 8
  /\ all_chars is_hex_lower (hashlib.hex_word w) = true.
Proof.
  unfold hashlib.hex_word. cbn [seq map string_of_list_ascii String.length all_chars].
  split; [reflexivity|].
  rewrite !hex_digit_lower; [reflexivity | ..];
    match goal with
    | |- (Z.to_N (?x mod 16) < 16)%N =>
        pose proof (Z.mod_pos_bound x 16 ltac:(lia)); lia
    end.
Qed.

Lemma all_chars_app p s1 s2 :
  all_chars p (s1 ++ s2)%string = all_chars p s1 && all_chars p s2.
Proof.
  induction s1 as [|c s1 IH]; [reflexivity|].
  simpl. rewrite IH. apply andb_assoc.
Qed.

Lemma length_app_string s1 s2 :
  String.length (s1 ++ s2)%string = String.length s1 + String.length s2.
Proof. induction s1 as [|c s1 IH]; [reflexivity|]. simpl. now rewrite IH. Qed.

Lemma hex_words_form ws :
  String.length (String.concat "" (map hashlib.hex_word ws)) = 8 * length ws
  /\ all_chars is_hex_lower (String.concat "" (map hashlib.hex_word ws)) = true.
Proof.
  induction ws as [|w ws [IH1 IH2]]; [split; reflexivity|].
  destruct (hex_word_form w) as [H1 H2].
  destruct ws as [|w' ws].
  - cbn [map String.concat length]. split; [rewrite H1; reflexivity | exact H2].
  - change (String.concat "" (map hashlib.hex_word (w :: w' :: ws)))
      with (hashlib.hex_word w ++ String.concat "" (map hashlib.hex_word (w' :: ws)))%string.
    rewrite length_app_string, all_chars_app, H1, H2, IH1, IH2.
    split; [cbn [length]; lia | reflexivity].
Qed.

(** X19.  [hash_url] returns 64 digits of lower-case hexadecimal for every
    URL, so a fingerprint always fits the [VARCHAR(64)] column
    [url_hash]. *)
Theorem hash_url_is_64_hex_digits (url : string) :
  String.length (hash_url url) = 64
  /\ all_chars is_hex_lower (hash_url url) = true.
Proof.
  unfold hash_url, hashlib.sha256_hexdigest.
  destruct (hex_words_form
              (hashlib.digest_words
                 (map (fun c => Z.of_N (ord c)) (list_ascii_of_string url)))) as [H1 H2].
  rewrite digest_words_length in H1. split; [exact H1 | exact H2].
Qed.

(** ** The statistics of the store *)

Lemma advance_left_pending ids w w' : advance w w' -> left_pending ids w -> left_pending ids w'.
Proof.
  unfold left_pending. intros [_ Hadv].
  induction Hadv as [|r r' l l' (Hid & _ & _ & Hst) _ IH]; intros Hl; [constructor|].
  inversion Hl as [|? ? Hr Hrest]; subst. constructor; [|now apply IH].
  intros Hin Hp. rewrite Hid in Hin. now apply (Hr Hin), Hst.
Qed.

Lemma left_pending_incl ids ids' w :
  incl ids' ids -> left_pending ids w -> left_pending ids' w.
Proof.
  unfold left_pending. intros Hi H. eapply Forall_impl; [|exact H]. cbn.
  intros r Hr Hin. apply Hr, Hi, Hin.
Qed.

Lemma all_processing_left_pending i ids w :
  all_processing i w -> left_pending ids w -> left_pending (i :: ids) w.
Proof.
  unfold left_pending. intros Hall H. apply Forall_forall. intros r Hr [Hi | Hin].
  - rewrite (Hall r Hr (eq_sym Hi)). discriminate.
  - rewrite Forall_forall in H. now apply (H r Hr).
Qed.

Lemma process_links_left_pending self domain links : forall ids stats w s w',
  process_links self domain links stats w = (Ok s, w') ->
  left_pending ids w -> left_pending (map link_id links ++ ids) w'.
Proof.
  induction links as [|link rest IH]; intros ids stats w s w' H Hl; cbn [process_links] in H.
  - inversion H; subst. exact Hl.
  - apply bind_inv in H as [([] & w1 & Hrl & Hk) | (e & _ & He)]; [|discriminate].
    apply _apply_rate_limit_same in Hrl as [_ Hrl].
    apply bind_inv in Hk as [([] & w2 & Hup & Hk) | (e & _ & He)]; [|discriminate].
    pose proof (update_link_status_advance _ _ _ _ _ _ (or_introl eq_refl) Hup) as Hadv.
    apply update_link_status_processing in Hup.
    apply bind_inv in Hk as [(ok & w3 & Hp & Hk) | (e & _ & He)]; [|discriminate].
    pose proof (retry_loop_advance _ _ _ _ _ _ Hup Hp) as Hadv3.
    assert (H3 : left_pending (link_id link :: ids) w3).
    { eapply advance_left_pending; [exact Hadv3|].
      apply all_processing_left_pending; [exact Hup|].
      eapply advance_left_pending; [exact Hadv|].
      eapply advance_left_pending; [apply same_links_advance; exact Hrl | exact Hl]. }
    apply (IH _ _ _ _ _ Hk) in H3.
    eapply left_pending_incl; [|exact H3].
    intros i Hi. cbn [map app] in Hi. rewrite in_app_iff. cbn [In] in *.
    rewrite in_app_iff in Hi. tauto.
Qed.

Lemma ran_left_pending self groups w futures w' :
  healthy w -> ran self groups w futures w' ->
  forall ids, left_pending ids w ->
    left_pending (map link_id (concat (map snd groups)) ++ ids) w'.
Proof.
  intros Hf Hran. induction Hran as [|domain links rest w future w1 futures w2 Hd _ IH];
    intros ids Hl; [exact Hl|].
  destruct (_process_domain_returns self domain links w Hf) as (s & w1' & Hrun & Hf1).
  rewrite Hrun in Hd. inversion Hd; subst future w1'.
  unfold _process_domain in Hrun.
  apply (process_links_left_pending _ _ _ ids) in Hrun; [|exact Hl].
  apply (IH Hf1) in Hrun. eapply left_pending_incl; [|exact Hrun].
  intros i Hi. cbn [map snd concat] in Hi. rewrite map_app in Hi.
  rewrite !in_app_iff in *. tauto.
Qed.

Lemma _process_domains_left_pending self groups w r w' :
  healthy w -> _process_domains self groups w = (r, w') ->
  left_pending (map link_id (concat (map snd groups))) w'.
Proof.
  intros Hf H. destruct (submit_all_ran self groups w) as (futures & w1 & Hs & Hran).
  unfold _process_domains, bind in H. rewrite Hs in H.
  destruct (fold_left collect futures (no_stats, ∅)) as [tot bd].
  inversion H; subst.
  pose proof (ran_left_pending _ _ _ _ _ Hf Hran [])  as Hl.
  rewrite app_nil_r in Hl. apply Hl.
  unfold left_pending. apply Forall_forall. intros row _ [].
Qed.

Lemma NoDup_map_In_inj {A B} (f : A -> B) l x y :
  NoDup (map f l) -> In x l -> In y l -> f x = f y -> x = y.
Proof.
  induction l as [|a l IH]; cbn; intros ND Hx Hy E; [contradiction|].
  inversion ND as [|? ? Ha ND']; subst.
  destruct Hx as [-> | Hx], Hy as [-> | Hy]; auto.
  - exfalso. apply Ha. rewrite E. now apply in_map.
  - exfalso. apply Ha. rewrite <- E. now apply in_map.
Qed.

Lemma NoDup_firstn {A} n (l : list A) : NoDup l -> NoDup (firstn n l).
Proof.
  intros H. rewrite <- (firstn_skipn n l) in H. now apply NoDup_app_remove_r in H.
Qed.

Lemma NoDup_map_NoDup {A B} (f : A -> B) l : NoDup (map f l) -> NoDup l.
Proof.
  induction l as [|a l IH]; cbn; intros ND; [constructor|].
  inversion ND as [|? ? Ha ND']; subst. constructor; [|now apply IH].
  intros Hin. apply Ha. now apply in_map.
Qed.

(** The pending rows after the links of [picked] were taken off the queue *)
Lemma count_after_picking (picked rows rows' : list NewsLink) :
  NoDup (map nl_id rows) ->
  NoDup picked -> incl picked rows -> Forall (fun r => is_pending r = true) picked ->
  Forall2 (fun r r' => nl_id r' = nl_id r /\ (~ In (nl_id r) (map nl_id picked) -> r' = r))
          rows rows' ->
  Forall (fun r' => In (nl_id r') (map nl_id picked) -> nl_status r' <> Pending) rows' ->
  count_status Pending rows' + length picked = count_status Pending rows
  /\ length rows' = length rows.
Proof.
  intros ND NDp Hincl Hpend Hkept Hleft.
  set (ids := map nl_id picked) in *.
  set (taken := fun r : NewsLink => existsb (Z.eqb (nl_id r)) ids).
  assert (Htaken : forall r, taken r = true <-> In (nl_id r) ids).
  { intros r. unfold taken. rewrite existsb_exists. split.
    - intros (i & Hi & E). apply Z.eqb_eq in E. now rewrite E.
    - intros Hi. exists (nl_id r). split; [assumption | apply Z.eqb_refl]. }
  assert (Hpicked : forall r, In r rows -> In (nl_id r) ids -> In r picked).
  { intros r Hr Hi. apply in_map_iff in Hi as (p & E & Hp).
    rewrite <- (NoDup_map_In_inj nl_id rows p r ND (Hincl p Hp) Hr E). exact Hp. }
  (* the rows that were taken have the length of [picked] *)
  assert (Hlen : length (List.filter taken rows) = length picked).
  { apply Permutation_length, NoDup_Permutation.
    - apply NoDup_filter. eapply NoDup_map_NoDup; exact ND.
    - exact NDp.
    - intros r. rewrite filter_In, Htaken. split.
      + intros [Hr Hi]. now apply Hpicked.
      + intros Hp. split; [now apply Hincl | apply in_map; exact Hp]. }
  rewrite <- Hlen. clear Hlen NDp.
  assert (Hp' : forall r, In r rows -> taken r = true -> is_pending r = true).
  { intros r Hr Ht. apply Htaken in Ht. rewrite Forall_forall in Hpend.
    apply Hpend. now apply Hpicked. }
  clear Hpicked Hincl Hpend ND.
  unfold count_status. fold is_pending.
  induction Hkept as [|r r' l l' [Hid Hr] _ IH]; [split; reflexivity|].
  inversion Hleft as [|? ? Hr' Hleft']; subst.
  destruct IH as [IH1 IH2]; [assumption | intros x Hx; apply Hp'; now right|].
  cbn [List.filter length]. split; [|now rewrite IH2].
  destruct (taken r) eqn:Et.
  - rewrite (Hp' r (or_introl eq_refl) Et).
    assert (Hn : is_pending r' = false).
    { apply Htaken in Et. rewrite <- Hid in Et. specialize (Hr' Et).
      unfold is_pending. destruct (nl_status r'); try reflexivity. contradiction. }
    rewrite Hn. cbn [length]. lia.
  - assert (E : r' = r).
    { apply Hr. intros Hi. apply Htaken in Hi. congruence. }
    subst r'. destruct (is_pending r); cbn [length]; lia.
Qed.

(** X20.  on a store that answers and whose link ids are distinct,
    [process_pending_links(limit)] takes exactly the links it reports off
    the queue: [get_statistics] afterwards shows as many links as
    before, [total] fewer pending links, where [total] is the smaller of
    [limit] and the number of pending links, and the same tasks. *)
Theorem pending_links_leave_the_queue (self : ProcessorWorker) (limit : nat) (w : World) :
  healthy w ->
  NoDup (map nl_id (news_links (db w))) ->
  exists before stats after w',
    get_statistics w = (Ok before, w)
    /\ process_pending_links self limit w = (Ok stats, w')
    /\ get_statistics w' = (Ok after, w')
    /\ total_links (fst after) = total_links (fst before)
    /\ total (totals stats) = Nat.min limit (stat_pending (fst before))
    /\ stat_pending (fst after) + total (totals stats) = stat_pending (fst before)
    /\ snd after = snd before.
Proof.
  intros Hf ND.
  set (rows := news_links (db w)).
  set (sorted := order_by_discovered_at_desc (List.filter is_pending rows)).
  set (picked := firstn limit sorted).
  destruct (order_by_discovered_at_desc_spec (List.filter is_pending rows)) as [P _].
  fold sorted in P.
  assert (Hin : forall r, In r picked -> In r rows /\ is_pending r = true).
  { intros r Hr. apply In_firstn in Hr. apply (Permutation_in _ P) in Hr.
    now apply filter_In in Hr. }
  assert (NDp : NoDup picked).
  { apply NoDup_firstn. apply (Permutation_NoDup (Permutation_sym P)).
    apply NoDup_filter. eapply NoDup_map_NoDup; exact ND. }
  assert (Hlen : length picked = Nat.min limit (count_status Pending rows)).
  { unfold picked. rewrite length_firstn, (Permutation_length P). reflexivity. }
  assert (Hids : map link_id (map pending_link picked) = map nl_id picked).
  { rewrite map_map. reflexivity. }
  destruct (process_fetched_healthy self (map pending_link picked) w Hf)
    as (stats & w' & Hrun & Hf' & (Htot & _) & _).
  rewrite length_map in Htot.
  assert (Hworld : others_kept (map nl_id picked) w w'
                   /\ left_pending (map nl_id picked) w' /\ tasks_kept w w').
  { destruct (map pending_link picked) as [|l ls] eqn:El.
    - inversion Hrun; subst. apply map_eq_nil in El. rewrite El. cbn.
      split; [apply others_kept_refl|]. split; [|apply tasks_kept_refl].
      apply Forall_forall. intros r _ [].
    - rewrite <- El in *. rewrite <- Hids. split; [|split].
      + eapply _process_domains_others; [|exact Hrun].
        apply _group_by_domain_Forall, Forall_forall.
        intros link Hl. now apply in_map.
      + eapply left_pending_incl;
          [|eapply _process_domains_left_pending; [exact Hf | exact Hrun]].
        intros i Hi. apply in_map_iff in Hi as (link & <- & Hl). apply in_map.
        apply (Permutation_in _ (Permutation_sym (_group_by_domain_concat _))). exact Hl.
      + eapply _process_domains_tasks; exact Hrun. }
  destruct Hworld as ([Hkept _] & Hleft & [Htasks _]).
  destruct (count_after_picking picked rows (news_links (db w')) ND NDp) as [Hcount Hsame];
    [intros r Hr; now apply Hin | apply Forall_forall; intros r Hr; now apply Hin
     | exact Hkept | exact Hleft |].
  eexists _, stats, _, w'.
  split; [unfold get_statistics; erewrite transaction_ok; [|exact Hf | reflexivity];
          now rewrite set_db_same|].
  split.
  { unfold process_pending_links, get_pending_links.
    erewrite bind_ok; [|apply transaction_ok; [exact Hf | reflexivity]].
    rewrite set_db_same. exact Hrun. }
  split; [unfold get_statistics; erewrite transaction_ok; [|exact Hf' | reflexivity];
          now rewrite set_db_same|].
  cbn [fst snd total_links stat_pending]. fold rows.
  split; [exact Hsame|]. split; [now rewrite Htot|]. split; [now rewrite Htot|].
  now rewrite Htasks.
Qed.

Lemma pending_links_leave_the_queue_witness :
  healthy (world_of [a1; b2] [] [])
  /\ NoDup (map nl_id (news_links (db (world_of [a1; b2] [] []))))
  /\ exists before stats after w',
       get_statistics (world_of [a1; b2] [] []) = (Ok before, world_of [a1; b2] [] [])
       /\ process_pending_links (mkProcessorWorker (Some succeeding)) 1
            (world_of [a1; b2] [] []) = (Ok stats, w')
       /\ get_statistics w' = (Ok after, w')
       /\ total_links (fst after) = total_links (fst before)
       /\ total (totals stats) = Nat.min 1 (stat_pending (fst before))
       /\ stat_pending (fst after) + total (totals stats) = stat_pending (fst before)
       /\ snd after = snd before.
Proof.
  assert (ND : NoDup (map nl_id (news_links (db (world_of [a1; b2] [] [])))))
    by (cbn; repeat constructor; cbn; intuition discriminate).
  split; [reflexivity|]. split; [exact ND|].
  exact (pending_links_leave_the_queue (mkProcessorWorker (Some succeeding)) 1
           (world_of [a1; b2] [] []) eq_refl ND).
Defined.

Lemma process_urls_from_invalid task found : forall acc w,
  Forall (fun u => is_valid_url u = false) found ->
  process_urls_from acc task found w
  = (Ok (mkUrlResults (new_links acc) (duplicates acc) (invalid acc + length found) (urls acc)),
     w).
Proof.
  induction found as [|u rest IH]; intros acc w Hall; cbn [process_urls_from length].
  - rewrite Nat.add_0_r. now destruct acc.
  - inversion Hall as [|? ? Hu Hrest]; subst. rewrite Hu. cbn [negb].
    rewrite (IH _ w Hrest). cbn. do 3 f_equal. lia.
Qed.

(** X21.  URLs that [is_valid_url] rejects never reach the store: when
    every URL found is invalid, [_process_urls] counts them all as
    invalid and returns without a single transaction, so it cannot fail
    and the world is as it was. *)
Theorem invalid_urls_never_reach_the_store (found : list string) (task_name : string)
    (w : World) :
  Forall (fun u => is_valid_url u = false) found ->
  _process_urls found task_name w = (Ok (mkUrlResults 0 0 (length found) []), w).
Proof. intros H. unfold _process_urls. now rewrite process_urls_from_invalid. Qed.

Lemma invalid_urls_never_reach_the_store_witness :
  Forall (fun u => is_valid_url u = false) ["not a url"; "/relative/path"; "mailto:a@b.c"]
  /\ _process_urls ["not a url"; "/relative/path"; "mailto:a@b.c"] "demo"
       (world_of [a1] [] [true])
     = (Ok (mkUrlResults 0 0 (length ["not a url"; "/relative/path"; "mailto:a@b.c"]) []),
        world_of [a1] [] [true]).
Proof.
  assert (H : Forall (fun u => is_valid_url u = false)
                     ["not a url"; "/relative/path"; "mailto:a@b.c"])
    by (repeat constructor; vm_compute; reflexivity).
  split; [exact H|].
  exact (invalid_urls_never_reach_the_store _ "demo" (world_of [a1] [] [true]) H).
Defined.

(** X22.  [run_task] does nothing for a task that is not stored or not
    active: it returns a failure that names the task, without searching,
    and the store, the clock and the processor are untouched. *)
Theorem run_task_refuses_unknown_or_inactive
    (self : NewsSearchModule) (task_name : string) (w : World) :
  hd false (faults w) = false ->
  task_runnable task_name (db w) = false ->
  exists w',
    run_task self task_name w
    = (Ok (SearchFailed
             ("Task '" ++ task_name
              ++ (if task_stored task_name (db w) then "' is not active" else "' not found"))
             None), w')
    /\ db w' = db w /\ clock w' = clock w /\ processor_log w' = processor_log w
    /\ status_log w' = status_log w.
Proof.
  intros Hf Hr. unfold task_runnable in Hr. unfold task_stored.
  assert (Hget : exists w',
            get_query_task task_name w
            = (Ok (List.find (fun q => String.eqb (qt_task_name q) task_name)
                             (query_tasks (db w))), w')
            /\ db w' = db w /\ clock w' = clock w /\ processor_log w' = processor_log w
            /\ status_log w' = status_log w).
  { unfold get_query_task, transaction.
    destruct (faults w) as [|[] fs] eqn:E; try discriminate;
      eexists; split; try reflexivity; repeat split. }
  destruct Hget as (w' & Hg & Hdb & Hc & Hl & Hs).
  exists w'. split; [|repeat split; assumption].
  unfold run_task. rewrite (bind_ok _ _ _ _ _ Hg).
  destruct (List.find _ (query_tasks (db w))) as [task|] eqn:Efind.
  - rewrite Hr. cbn [negb].
    assert (Hex : existsb (fun q => String.eqb (qt_task_name q) task_name)
                          (query_tasks (db w)) = true).
    { apply find_some in Efind as [Hin Hname]. apply existsb_exists. eauto. }
    now rewrite Hex.
  - assert (Hex : existsb (fun q => String.eqb (qt_task_name q) task_name)
                          (query_tasks (db w)) = false).
    { destruct (existsb _ (query_tasks (db w))) eqn:E; [|reflexivity].
      apply existsb_exists in E as (q & Hin & Hq).
      now rewrite (find_none _ _ Efind q Hin) in Hq. }
    now rewrite Hex.
Qed.

Lemma run_task_refuses_unknown_or_inactive_witness :
  hd false (faults (world_of [a1] [demo_task] [])) = false
  /\ task_runnable "other" (db (world_of [a1] [demo_task] [])) = false
  /\ exists w',
       run_task demo_module "other" (world_of [a1] [demo_task] [])
       = (Ok (SearchFailed
                ("Task '" ++ "other"
                 ++ (if task_stored "other" (db (world_of [a1] [demo_task] []))
                     then "' is not active" else "' not found"))
                None), w')
       /\ db w' = db (world_of [a1] [demo_task] [])
       /\ clock w' = clock (world_of [a1] [demo_task] [])
       /\ processor_log w' = processor_log (world_of [a1] [demo_task] [])
       /\ status_log w' = status_log (world_of [a1] [demo_task] []).
Proof.
  split; [reflexivity|]. split; [reflexivity|].
  apply (run_task_refuses_unknown_or_inactive demo_module "other"
           (world_of [a1] [demo_task] [])); reflexivity.
Defined.

Lemma map_set_status_unknown i s e now rows :
  existsb (fun r => (nl_id r =? i)%Z) rows = false ->
  map (set_status i s e now) rows = rows.
Proof.
  induction rows as [|r rows IH]; [reflexivity|]. cbn [existsb map].
  intros H. apply orb_false_iff in H as [Hr Hrest].
  unfold set_status at 1. rewrite Hr. now rewrite IH.
Qed.

Lemma map_record_run_unknown name n now tasks :
  existsb (fun q => String.eqb (qt_task_name q) name) tasks = false ->
  map (fun q =>
         if String.eqb (qt_task_name q) name
         then mkQueryTask (qt_id q) (qt_task_name q) (qt_prompt_template q) (qt_is_active q)
                          (qt_schedule q) (Some now) (qt_total_runs q + 1)
                          (qt_total_links_found q + n) (qt_created_at q) now
         else q) tasks = tasks.
Proof.
  induction tasks as [|q tasks IH]; [reflexivity|]. cbn [existsb map].
  intros H. apply orb_false_iff in H as [Hq Hrest]. rewrite Hq. now rewrite IH.
Qed.

(** X23.  on a store that answers, the methods of [Database] that address
    a row by a key are silent when no row has the key:
    [update_link_status] for an id that is not stored and
    [update_task_run_stats] for a name that is not stored return
    normally and change nothing, and [get_processed_content] for a link
    without content returns [None]. *)
Theorem missing_keys_are_silent
    (link_id : Z) (status : Status) (error_message : option string)
    (task_name : string) (links_found : Z) (w : World) :
  healthy w ->
  link_stored link_id (db w) = false ->
  task_stored task_name (db w) = false ->
  contents_of link_id (db w) = [] ->
  update_link_status link_id status error_message w = (Ok tt, w)
  /\ update_task_run_stats task_name links_found w = (Ok tt, w)
  /\ get_processed_content link_id w = (Ok None, w).
Proof.
  intros Hf Hst Hts Hc. split; [|split].
  - rewrite (update_link_status_ok link_id status error_message w Hf).
    unfold link_stored in Hst. rewrite (map_set_status_unknown _ _ _ _ _ Hst).
    rewrite (existsb_false_filter _ _ Hst). cbn [map]. rewrite app_nil_r.
    unfold healthy in Hf. destruct w as [[] f c d pl sl]. cbn in *. now subst.
  - unfold update_task_run_stats.
    erewrite transaction_ok; [|exact Hf | reflexivity].
    unfold task_stored in Hts. rewrite (map_record_run_unknown _ _ _ _ Hts).
    destruct w as [[] f c d pl sl]. reflexivity.
  - rewrite (get_processed_content_ok link_id w Hf). do 2 f_equal.
    unfold contents_of in Hc.
    destruct (List.find _ (processed_content (db w))) as [c|] eqn:E; [|reflexivity].
    apply find_some in E as [Hin Hid].
    assert (H : In c (List.filter (fun c => (pc_link_id c =? link_id)%Z)
                                  (processed_content (db w))))
      by (apply filter_In; auto).
    rewrite Hc in H. contradiction.
Qed.

Lemma missing_keys_are_silent_witness :
  healthy (world_of [a1] [demo_task] [])
  /\ link_stored 7 (db (world_of [a1] [demo_task] [])) = false
  /\ task_stored "other" (db (world_of [a1] [demo_task] [])) = false
  /\ contents_of 7 (db (world_of [a1] [demo_task] [])) = []
  /\ update_link_status 7 Failed (Some "gone") (world_of [a1] [demo_task] [])
     = (Ok tt, world_of [a1] [demo_task] [])
  /\ update_task_run_stats "other" 3 (world_of [a1] [demo_task] [])
     = (Ok tt, world_of [a1] [demo_task] [])
  /\ get_processed_content 7 (world_of [a1] [demo_task] [])
     = (Ok None, world_of [a1] [demo_task] []).
Proof.
  repeat (split; [reflexivity|]).
  apply (missing_keys_are_silent 7 Failed (Some "gone") "other" 3
           (world_of [a1] [demo_task] [])); reflexivity.
Defined.

(** ** A search that processes what it found *)

Lemma process_urls_from_healthy task todo : forall acc w r w',
  healthy w -> process_urls_from acc task todo w = (r, w') -> healthy w'.
Proof.
  induction todo as [|u rest IH]; intros acc w r w' Hf H; cbn [process_urls_from] in H.
  - now inversion H; subst.
  - destruct (negb (is_valid_url u)); [eapply IH; eauto|].
    destruct (normalize_url u) as [c|]; [|now inversion H; subst].
    apply bind_inv in H as [(seen & w1 & He & Hk) | (e & He & ->)];
      [|eapply transaction_healthy; eauto].
    apply (transaction_healthy _ _ _ _ Hf) in He.
    destruct seen; [eapply IH; eauto|].
    apply bind_inv in Hk as [(i & w2 & Hi & Hk) | (e & Hi & ->)];
      [|eapply transaction_healthy; eauto].
    apply (transaction_healthy _ _ _ _ He) in Hi.
    destruct i as [i|]; [destruct (i =? 0)%Z|]; eapply IH; eauto.
Qed.

Lemma selected_fresh (ids : list Z) (old added : list NewsLink) seq t :
  news_links t = old ++ added ->
  Forall (fun row => (nl_id row <= seq)%Z) old ->
  Forall (fun row => (seq < nl_id row)%Z) added ->
  ids = map nl_id added ->
  selected ids t = added.
Proof.
  intros Hl Hold Hadd ->. unfold selected. rewrite Hl, List.filter_app.
  assert (Ho : List.filter (fun r => existsb (Z.eqb (nl_id r)) (map nl_id added)) old = []).
  { apply existsb_false_filter.
    destruct (existsb _ old) eqn:E; [|reflexivity].
    apply existsb_exists in E as (r & Hr & Hin).
    apply existsb_exists in Hin as (i & Hi & Heq). apply Z.eqb_eq in Heq. subst i.
    apply in_map_iff in Hi as (a & Ha & Hina).
    rewrite Forall_forall in Hold, Hadd. specialize (Hold r Hr). specialize (Hadd a Hina). lia. }
  rewrite Ho. cbn [app].
  assert (Ha : forall l, incl l added ->
             List.filter (fun r => existsb (Z.eqb (nl_id r)) (map nl_id added)) l = l).
  { induction l as [|r l IH]; intros Hi; [reflexivity|]. cbn [List.filter].
    assert (E : existsb (Z.eqb (nl_id r)) (map nl_id added) = true).
    { apply existsb_exists. exists (nl_id r). split; [|apply Z.eqb_refl].
      apply in_map, Hi. now left. }
    rewrite E, IH; [reflexivity|]. intros x Hx. apply Hi. now right. }
  apply Ha, incl_refl.
Qed.

Lemma process_specific_links_healthy self ids w :
  healthy w ->
  exists stats w',
    process_specific_links self ids w = (Ok stats, w')
    /\ healthy w'
    /\ counted (map link_of (selected ids (db w))) (totals stats)
    /\ left_pending (map nl_id (selected ids (db w))) w'.
Proof.
  intros Hf. unfold process_specific_links, get_links_by_ids.
  erewrite bind_ok; [|apply transaction_ok; [exact Hf | reflexivity]].
  rewrite set_db_same.
  change (map _ (List.filter _ (news_links (db w))))
    with (map link_of (selected ids (db w))).
  destruct (process_fetched_healthy self (map link_of (selected ids (db w))) w Hf)
    as (stats & w' & Hrun & Hf' & Hc & _).
  exists stats, w'. split; [exact Hrun|]. split; [exact Hf'|]. split; [exact Hc|].
  destruct (map link_of (selected ids (db w))) as [|l ls] eqn:El.
  - apply map_eq_nil in El. rewrite El. apply Forall_forall. intros r _ [].
  - rewrite <- El in Hrun.
    eapply left_pending_incl;
      [|eapply _process_domains_left_pending; [exact Hf | exact Hrun]].
    intros i Hi. apply in_map_iff in Hi as (row & <- & Hrow).
    apply in_map_iff. exists (link_of row). split; [reflexivity|].
    apply (Permutation_in _ (Permutation_sym (_group_by_domain_concat _))).
    now apply in_map.
Qed.

(** X24.  on a store that answers and whose ids were handed out by the
    sequence, a search with a processor worker processes in the same run
    exactly the links it registers: when [execute_search] returns a
    report with new links, the report carries the statistics of their
    processing, [total] is the number of new links, each is counted as a
    success or a failure, and none of them is left pending; with no new
    link nothing is processed. *)
Theorem new_links_are_processed_in_the_same_run
    (self : NewsSearchModule) (worker : ProcessorWorker) (prompt task_name : string)
    (w : World) :
  healthy w ->
  ids_issued (db w) ->
  processor_worker self = Some worker ->
  match execute_search self prompt task_name w with
  | (Ok (SearchDone report), w') =>
      match processing report with
      | Some stats =>
          0 < report_new_links report
          /\ total (totals stats) = report_new_links report
          /\ success (totals stats) + failed (totals stats) = report_new_links report
          /\ left_pending (map entry_id (report_urls report)) w'
      | None => report_new_links report = 0
      end
  | (Ok (SearchFailed _ _), _) => search self prompt = None
  | (Raise _, _) => True
  end.
Proof.
  intros Hf [H0 Hold] Hworker.
  destruct (execute_search self prompt task_name w) as [r w'] eqn:H.
  unfold execute_search in H. rewrite Hworker in H.
  destruct (search self prompt) as [found|]; [|inversion H; subst; reflexivity].
  apply bind_inv in H as [(res & w1 & Hp & Hk) | (e & _ & ->)]; [|exact I].
  pose proof (process_urls_from_healthy _ _ _ _ _ _ Hf Hp) as Hf1.
  apply process_urls_from_registered in Hp as (added & Hreg & Hres).
  destruct (Hres res eq_refl H0) as (_ & es & Hu & Hn & Hrep & _). cbn in Hu, Hn.
  subst es.
  destruct Hreg as (Hl & _ & _ & _ & _ & Hadded).
  apply bind_inv in Hk as [([] & w2 & Hup & Hk) | (e & _ & ->)]; [|exact I].
  pose proof (transaction_healthy _ _ _ _ Hf1 Hup) as Hf2.
  apply update_task_run_stats_links in Hup as (Hl2 & _).
  unfold AUTO_PROCESS_AFTER_SEARCH in Hk. cbn [andb] in Hk.
  destruct (Nat.ltb 0 (new_links res)) eqn:Enew.
  2:{ inversion Hk; subst. cbn. apply Nat.ltb_ge in Enew. lia. }
  apply Nat.ltb_lt in Enew.
  destruct (process_specific_links_healthy worker (map entry_id (urls res)) w2 Hf2)
    as (stats & w3 & Hrun & _ & (Htot & Hsf & _) & Hleft).
  rewrite (bind_ok _ _ _ _ _ Hrun) in Hk. inversion Hk; subst. cbn.
  assert (Hsel : selected (map entry_id (urls res)) (db w2) = added).
  { apply (selected_fresh _ (news_links (db w)) added (news_links_id_seq (db w))).
    - congruence.
    - eapply Forall_impl; [|exact Hold]. cbn. intros; lia.
    - eapply Forall_impl; [|exact Hadded]. cbn. intros row [Hb _]. lia.
    - now apply reports_ids. }
  rewrite Hsel in *. rewrite length_map in Htot.
  assert (Hlen : length added = new_links res).
  { rewrite Hn. symmetry. eapply Forall2_length; eauto. }
  split; [assumption|]. split; [congruence|]. split; [congruence|].
  rewrite (reports_ids _ _ Hrep). exact Hleft.
Qed.

Lemma new_links_are_processed_in_the_same_run_witness :
  healthy (world_of [a1] [demo_task] [])
  /\ ids_issued (db (world_of [a1] [demo_task] []))
  /\ processor_worker demo_module = Some (mkProcessorWorker (Some succeeding))
  /\ match execute_search demo_module "find news" "demo" (world_of [a1] [demo_task] []) with
     | (Ok (SearchDone report), w') =>
         match processing report with
         | Some stats =>
             0 < report_new_links report
             /\ total (totals stats) = report_new_links report
             /\ success (totals stats) + failed (totals stats) = report_new_links report
             /\ left_pending (map entry_id (report_urls report)) w'
         | None => report_new_links report = 0
         end
     | (Ok (SearchFailed _ _), _) => search demo_module "find news" = None
     | (Raise _, _) => True
     end.
Proof.
  assert (H : ids_issued (db (world_of [a1] [demo_task] [])))
    by (split; [cbn; lia | repeat constructor; cbn; lia]).
  split; [reflexivity|]. split; [exact H|]. split; [reflexivity|].
  exact (new_links_are_processed_in_the_same_run demo_module
           (mkProcessorWorker (Some succeeding)) "find news" "demo"
           (world_of [a1] [demo_task] []) eq_refl H eq_refl).
Defined.

(** X25.  without a processor worker a search only registers: when
    [execute_search] returns a report, the report carries no processing
    statistics, the links of the report were appended to the table and
    are pending, the contents are untouched, and the links that were
    there are as they were. *)
Theorem search_without_worker_only_registers
    (self : NewsSearchModule) (prompt task_name : string) (w : World) :
  processor_worker self = None ->
  (0 <= news_links_id_seq (db w))%Z ->
  match execute_search self prompt task_name w with
  | (Ok (SearchDone report), w') =>
      processing report = None
      /\ length (report_urls report) = report_new_links report
      /\ contents_kept w w'
      /\ exists added,
           news_links (db w') = news_links (db w) ++ added
           /\ Forall2 reports (report_urls report) added
           /\ Forall (fun row => nl_status row = Pending /\ nl_source_task row = task_name)
                     added
  | (Ok (SearchFailed _ _), w') => w' = w
  | (Raise _, _) => True
  end.
Proof.
  intros Hworker H0.
  destruct (execute_search self prompt task_name w) as [r w'] eqn:H.
  unfold execute_search in H. rewrite Hworker in H.
  destruct (search self prompt) as [found|]; [|inversion H; subst; reflexivity].
  apply bind_inv in H as [(res & w1 & Hp & Hk) | (e & _ & ->)]; [|exact I].
  apply process_urls_from_registered in Hp as (added & Hreg & Hres).
  destruct (Hres res eq_refl H0) as (_ & es & Hu & Hn & Hrep & _). cbn in Hu, Hn.
  subst es.
  destruct Hreg as (Hl & [Hc Hcs] & _ & _ & _ & Hadded).
  apply bind_inv in Hk as [([] & w2 & Hup & Hk) | (e & _ & ->)]; [|exact I].
  apply update_task_run_stats_links in Hup as (Hl2 & _ & [Hc2 Hcs2] & _).
  inversion Hk; subst. cbn.
  split; [reflexivity|]. split; [now rewrite Hn|].
  split; [split; congruence|].
  exists added. split; [congruence|]. split; [assumption|].
  eapply Forall_impl; [|exact Hadded]. cbn. intros row [_ Hrow].
  rewrite Hrow. split; reflexivity.
Qed.

Lemma search_without_worker_only_registers_witness :
  processor_worker (mkNewsSearchModule (fun _ => Some demo_found) None) = None
  /\ (0 <= news_links_id_seq (db (world_of [a1] [demo_task] [])))%Z
  /\ match execute_search (mkNewsSearchModule (fun _ => Some demo_found) None)
             "find news" "demo" (world_of [a1] [demo_task] []) with
     | (Ok (SearchDone report), w') =>
         processing report = None
         /\ length (report_urls report) = report_new_links report
         /\ contents_kept (world_of [a1] [demo_task] []) w'
         /\ exists added,
              news_links (db w') = news_links (db (world_of [a1] [demo_task] [])) ++ added
              /\ Forall2 reports (report_urls report) added
              /\ Forall (fun row => nl_status row = Pending /\ nl_source_task row = "demo")
                        added
     | (Ok (SearchFailed _ _), w') => w' = world_of [a1] [demo_task] []
     | (Raise _, _) => True
     end.
Proof.
  split; [reflexivity|]. split; [cbn; lia|].
  apply (search_without_worker_only_registers
           (mkNewsSearchModule (fun _ => Some demo_found) None) "find news" "demo"
           (world_of [a1] [demo_task] [])); [reflexivity | cbn; lia].
Defined.
